(** * Trade execution engine of the trading bot ([trading_manager.py])

    A shallow embedding of the buy / sell paths of [TradingManager]:
    the quote functions, the slippage-bounded minimum output, the gas
    estimation retries, nonce and gas-price resolution, the send-time
    retries and the ERC-20 approval step.

    - Python [float] is IEEE-754 binary64; it is modelled bit-exactly by
      the Standard Library's [SpecFloat] operations at precision 53 and
      maximal exponent 1024.  Python [int] is [Z].
    - Every call that leaves the process (JSON-RPC reads, gas
      estimation, transaction build / sign / send, [time.sleep]) is
      answered by a stub client, the record [World]; the engine runs in
      a state-and-exception monad whose state is the chronological list
      of the calls made so far.
    - Exceptions carry their class (only the classes the handlers of
      [buy_tokens] / [sell_tokens] distinguish) and their message text;
      the handlers inspect the text exactly like the source does, by
      substring tests on the upper- or lower-cased message.
    - Logging and the display-only fields of the returned dictionaries
      are left out.
    - Beside the engine: the filling of the manager's dictionaries at
      start-up ([_initialize_contracts]) and the slippage setting of the
      bot ([new_bot.py]), whose value is the tolerance the engine is
      called with. *)

From Stdlib Require Import ZArith List String Ascii Bool Lia.
From Stdlib Require Import Floats.SpecFloat.
From Stdlib Require Import DecimalString.
From Stdlib Require Import Reals Lra.
Import ListNotations.

Local Open Scope string_scope.
Local Open Scope list_scope.
Local Open Scope Z_scope.

(* ================================================================== *)
(** * Python values: exceptions, floats, strings                       *)
(* ================================================================== *)

(** The exception classes told apart by the outer handlers of
    [buy_tokens] and [sell_tokens]. *)
Inductive exn_class := ContractLogicError | ValidationError | OtherException.

Record exn := mkExn { exn_cls : exn_class; exn_msg : string }.

Inductive result (A : Type) : Type :=
| Ok (a : A)
| Raise (e : exn).
Arguments Ok {A} a.
Arguments Raise {A} e.

Definition rbind {A B} (r : result A) (k : A -> result B) : result B :=
  match r with
  | Ok a => k a
  | Raise e => Raise e
  end.

Notation "'let?' x ':=' r 'in' k" := (rbind r (fun x => k))
  (at level 10, x name, r at level 100, k at level 200).

Definition is_ok {A} (r : result A) : bool :=
  match r with Ok _ => true | Raise _ => false end.

Module Float64.

Definition prec : Z := 53.
Definition emax : Z := 1024.

Definition float : Type := spec_float.

(** [float(n)] for a Python int: the nearest binary64, ties to even
    (an infinity when [n] is out of range). *)
Definition of_Z (n : Z) : float := binary_normalize prec emax n 0 false.

Definition mul : float -> float -> float := SFmul prec emax.
Definition div : float -> float -> float := SFdiv prec emax.
Definition sub : float -> float -> float := SFsub prec emax.
Definition leb : float -> float -> bool := SFleb.
Definition ltb : float -> float -> bool := SFltb.

(** A decimal literal [n / d] with [n] and [d] exactly representable:
    the parser's correctly rounded value is the correctly rounded
    quotient. *)
Definition lit (n d : Z) : float := div (of_Z n) (of_Z d).

Definition zero : float := S754_zero false.
Definition one : float := of_Z 1.
Definition hundred : float := of_Z 100.

(** The magnitude of a finite float, rounded toward zero. *)
Definition trunc_mag (m : positive) (e : Z) : Z :=
  match e with
  | Z0 => Zpos m
  | Zpos _ => Z.shiftl (Zpos m) e
  | Zneg p => Z.shiftr (Zpos m) (Zpos p)
  end.

Definition is_finite (x : float) : bool :=
  match x with
  | S754_zero _ | S754_finite _ _ _ => true
  | _ => false
  end.

Definition is_nan (x : float) : bool :=
  match x with S754_nan => true | _ => false end.

End Float64.

Definition float : Type := spec_float.

Definition OverflowError (msg : string) : exn := mkExn OtherException msg.
Definition ValueError (msg : string) : exn := mkExn OtherException msg.
Definition NameError (msg : string) : exn := mkExn OtherException msg.

(** Python [int(x)] on a float: truncation toward zero; infinities and
    NaN raise. *)
Definition py_int (x : float) : result Z :=
  match x with
  | S754_zero _ => Ok 0
  | S754_finite s m e =>
      Ok (if s then - Float64.trunc_mag m e else Float64.trunc_mag m e)
  | S754_infinity _ => Raise (OverflowError "cannot convert float infinity to integer")
  | S754_nan => Raise (ValueError "cannot convert float NaN to integer")
  end.

(** Python [float(n)] as applied implicitly in [n * x]: raises when [n]
    is too large for a binary64. *)
Definition py_float (n : Z) : result float :=
  match Float64.of_Z n with
  | S754_infinity _ => Raise (OverflowError "int too large to convert to float")
  | x => Ok x
  end.

(** [int(n * x)] for an int [n] and a float [x]: the pattern of every
    scaling in the source ([int(min_tokens * 0.70)],
    [int(gas_estimate * 1.5)], ...). *)
Definition int_scale (n : Z) (x : float) : result Z :=
  let? fn := py_float n in
  py_int (Float64.mul fn x).

(** ** Strings

    A Python [str] is held as the bytes of its UTF-8 encoding, so that
    an ASCII character is one byte below 128 and every other code point
    is a run of bytes from 128 on.  A test [needle in hay] with an ASCII
    needle is then the same test on the bytes. *)

(** The case mapping of the ASCII letters. *)
Definition upper_ascii (c : ascii) : ascii :=
  let n := nat_of_ascii c in
  if andb (Nat.leb 97 n) (Nat.leb n 122) then ascii_of_nat (n - 32) else c.

Definition lower_ascii (c : ascii) : ascii :=
  let n := nat_of_ascii c in
  if andb (Nat.leb 65 n) (Nat.leb n 90) then ascii_of_nat (n + 32) else c.

(** [s.upper()].  [str.upper] maps each code point on its own.  The
    ASCII letters are mapped as above, and the seventeen other code
    points whose upper case holds an ASCII letter are mapped as Python
    maps them:
      U+00DF to SS, U+0131 to I, U+0149 to U+02BC N, U+017F to S,
      U+01F0 to J U+030C, U+1E96 to H U+0331, U+1E97 to T U+0308,
      U+1E98 to W U+030A, U+1E99 to Y U+030A, U+1E9A to A U+02BE,
      U+FB00 to FF, U+FB01 to FI, U+FB02 to FL, U+FB03 to FFI,
      U+FB04 to FFL, U+FB05 and U+FB06 to ST.
    Every other code point is left as it is: its upper case holds no
    ASCII character, so that the tests of the source, [needle in
    s.upper()] with an ASCII needle on a message as it was raised, have
    the value they have in Python. *)
Fixpoint upper (s : string) : string :=
  match s with
  | EmptyString => EmptyString
  | String "195" (String "159" t) => String "S" (String "S" (upper t))
  | String "196" (String "177" t) => String "I" (upper t)
  | String "197" (String "137" t) =>
      String "202" (String "188" (String "N" (upper t)))
  | String "197" (String "191" t) => String "S" (upper t)
  | String "199" (String "176" t) =>
      String "J" (String "204" (String "140" (upper t)))
  | String "225" (String "186" (String "150" t)) =>
      String "H" (String "204" (String "177" (upper t)))
  | String "225" (String "186" (String "151" t)) =>
      String "T" (String "204" (String "136" (upper t)))
  | String "225" (String "186" (String "152" t)) =>
      String "W" (String "204" (String "138" (upper t)))
  | String "225" (String "186" (String "153" t)) =>
      String "Y" (String "204" (String "138" (upper t)))
  | String "225" (String "186" (String "154" t)) =>
      String "A" (String "202" (String "190" (upper t)))
  | String "239" (String "172" (String "128" t)) => String "F" (String "F" (upper t))
  | String "239" (String "172" (String "129" t)) => String "F" (String "I" (upper t))
  | String "239" (String "172" (String "130" t)) => String "F" (String "L" (upper t))
  | String "239" (String "172" (String "131" t)) =>
      String "F" (String "F" (String "I" (upper t)))
  | String "239" (String "172" (String "132" t)) =>
      String "F" (String "F" (String "L" (upper t)))
  | String "239" (String "172" (String "133" t)) => String "S" (String "T" (upper t))
  | String "239" (String "172" (String "134" t)) => String "S" (String "T" (upper t))
  | String c t => String (upper_ascii c) (upper t)
  end.

(** [s.lower()].  The ASCII letters are mapped as above, and the two
    other code points whose lower case holds an ASCII letter as Python
    maps them: U+0130 to i U+0307 and U+212A, the Kelvin sign, to k.
    Every other code point is left as it is: its lower case holds no
    ASCII character ([str.lower] looks at the context only to choose
    between the two lower-case sigmas). *)
Fixpoint lower (s : string) : string :=
  match s with
  | EmptyString => EmptyString
  | String "196" (String "176" t) =>
      String "i" (String "204" (String "135" (lower t)))
  | String "226" (String "132" (String "170" t)) => String "k" (lower t)
  | String c t => String (lower_ascii c) (lower t)
  end.

(** [s.isascii()]: every byte is below 128. *)
Definition is_ascii_byte (c : ascii) : bool := Nat.ltb (nat_of_ascii c) 128.

Fixpoint is_ascii (s : string) : bool :=
  match s with
  | EmptyString => true
  | String c t => is_ascii_byte c && is_ascii t
  end.

(** [needle in hay]. *)
Fixpoint contains (needle hay : string) : bool :=
  if prefix needle hay then true
  else match hay with
       | EmptyString => false
       | String _ t => contains needle t
       end.

Definition str_of_nat (n : nat) : string := NilEmpty.string_of_uint (Nat.to_uint n).

(* ================================================================== *)
(** * Chains, contracts, transactions                                  *)
(* ================================================================== *)

(** The [chain] argument is a string; only the three initialised keys
    are told apart. *)
Inductive chain := BSC | ETH | SEPOLIA | OtherChain.

Definition address := string.

(** [PANCAKESWAP_CONTRACT] / [UNISWAP_CONTRACT] of [config.py]. *)
Definition wrapped_native (c : chain) : option address :=
  match c with
  | BSC => Some "0xBB4CdB9CBd36B01bD1cBaEBF2De08d9173bc095c"
  | ETH => Some "0xC02aaA39b223FE8D0A0e5C4F27eAD9083C756Cc2"
  | SEPOLIA => Some "0xfFf9976782d46CC05630D1f6eBAb18b2324d6B14"
  | OtherChain => None
  end.

(** The custom trading (fee) contract, as hard-coded in [sell_tokens]. *)
Definition trading_contract_address (c : chain) : option address :=
  match c with
  | BSC => Some "0xec27f2173da0c7c7870a47bc545fa24ae72b7395"
  | ETH => Some "0xdbd7b068e21f28ca3d904ca4720786e6d6b08d47"
  | SEPOLIA => Some "0x0729E422d6a96c27a71239f5e2d4dFa4535e6996"
  | OtherChain => None
  end.

(** [TRADING_CONFIG.get(chain, {}).get('slippage', 0.5)]: 0.5 for every
    chain. *)
Definition default_slippage (c : chain) : float := Float64.lit 5 10.

(** The dictionaries filled by [_initialize_contracts]. *)
Record TradingManager := {
  web3_instances : chain -> bool;
  router_contracts : chain -> bool;
  trading_contracts : chain -> bool
}.

(** The contract a call is bound to: the custom trading contract, the
    public DEX router, or the ERC-20 token. *)
Inductive contract := TradingContract | Router | Token.

(** Contract functions with the arguments that vary within a trade
    (path and recipient are fixed by the trade's inputs). *)
Inductive func :=
| swapExactETHForTokens (amountOutMin deadline : Z)
| swapExactTokensForETH (amountIn amountOutMin deadline : Z)
| approve (spender : address) (amount : Z).

Record contract_call := { cc_contract : contract; cc_func : func }.

(** The dictionary passed to [build_transaction]. *)
Record tx := {
  tx_call : contract_call;
  tx_value : Z;
  tx_gas : Z;
  tx_gasPrice : Z;
  tx_nonce : Z
}.

Inductive direction := Buy | Sell.

(** Calls that leave the engine, with their arguments. *)
Inductive call :=
| GetCode
| GetAmountsOut (d : direction) (amount_in : Z)
| Decimals
| BalanceOf
| Allowance (spender : address)
| GetBlock
| Time
| EstimateGas (c : contract_call) (value : Z)
| GasPrice
| GetTransactionCount (pending : bool)
| BuildTransaction (t : tx)
| SignTransaction (t : tx)
| SendRawTransaction (t : tx)
| Sleep (seconds : Z).

Definition trace := list call.

Definition tx_hash := Z.

(** The stub client.  Remote calls see the calls made so far, so an
    answer may depend on the whole history (a send that fails the first
    time and succeeds the second); local library functions are pure. *)
Record World := {
  is_address : address -> bool;
  to_checksum_address : address -> result address;
  to_wei : float -> result Z;
  from_wei : Z -> float;
  (* binding [contract.functions.f(args)]: local ABI validation *)
  bind_function : contract_call -> result unit;
  get_code : trace -> result bool;            (* [true]: some code *)
  getAmountsOut : trace -> direction -> Z -> result (list Z);
  decimals : trace -> result Z;
  balanceOf : trace -> result Z;
  allowance : trace -> address -> result Z;
  get_block_timestamp : trace -> result Z;
  time_time : trace -> Z;
  estimate_gas : trace -> contract_call -> Z -> result Z;
  gas_price : trace -> result Z;
  get_transaction_count : trace -> bool -> result Z;
  build_transaction : trace -> tx -> result unit;
  sign_transaction : trace -> tx -> result unit;
  send_raw_transaction : trace -> tx -> result tx_hash
}.

(* ================================================================== *)
(** * The engine monad                                                 *)
(* ================================================================== *)

Definition M (A : Type) : Type := trace -> result A * trace.

Definition ret {A} (a : A) : M A := fun tr => (Ok a, tr).

Definition raise {A} (e : exn) : M A := fun tr => (Raise e, tr).

Definition bind {A B} (m : M A) (k : A -> M B) : M B :=
  fun tr =>
    match m tr with
    | (Ok a, tr') => k a tr'
    | (Raise e, tr') => (Raise e, tr')
    end.

Notation "x <- m ;; k" := (bind m (fun x => k))
  (at level 61, m at next level, right associativity).

(** A pure computation that may raise. *)
Definition lift {A} (r : result A) : M A := fun tr => (r, tr).

(** [try: m  except Exception as e: ...] with the handler applied by the
    caller: the outcome of [m] as a value. *)
Definition attempt {A} (m : M A) : M (result A) :=
  fun tr => let (r, tr') := m tr in (Ok r, tr').

(** [try: m  except Exception as e: h e]. *)
Definition try_except {A} (m : M A) (h : exn -> M A) : M A :=
  fun tr =>
    match m tr with
    | (Ok a, tr') => (Ok a, tr')
    | (Raise e, tr') => h e tr'
    end.

(** A remote call: the stub answers from the history, the call is
    appended to it. *)
Definition remote {A} (c : call) (answer : trace -> result A) : M A :=
  fun tr => (answer tr, tr ++ [c]).

(* ================================================================== *)
(** * Results                                                          *)
(* ================================================================== *)

Inductive error_type := INSUFFICIENT_OUTPUT_AMOUNT | UniswapV2_K.

(** The ['error'] texts of the returned dictionaries, one constructor
    per message template, with the interpolated values as arguments. *)
Inductive error :=
| ChainNotSupported             (* 'Chain {chain} not supported' *)
| TradingContractNotDeployed    (* 'Trading contract not deployed or invalid' *)
| TradingContractValidationError (msg : string)
| InvalidTokenAddress
| InvalidAmount (d : direction) (* 'Invalid BNB amount' / 'Invalid token amount' *)
| CouldNotGetPriceEstimate      (* 'Could not get price estimate' *)
| UnsupportedChain
| InsufficientTokenBalance (balance : float)
| ApprovalFailed (msg : string) (* 'Approval failed: {e}' *)
| InvalidAmounts                (* 'Invalid token amounts or slippage causing arithmetic error...' *)
| InsufficientOutput            (* 'Insufficient output amount. Try increasing slippage...' *)
| SevereLiquidityIssue (d : direction) (suggested_amount amount : float)
                                (* 'Severe pool liquidity issue (UniswapV2: K)... Try buying
                                   with {suggested_amount:.6f} BNB instead of {bnb_amount}' *)
| TransactionBuildError (msg : string)
| RetryFailed (t : error_type) (msg : string) (* '{error_type} - retry failed: {e2}' *)
| TransactionSendError (msg : string)         (* 'Transaction send error: {e}' *)
| SellTransactionError (msg : string)         (* 'Sell transaction error: {e}' *)
| ContractError (msg : string)
| ValidationFailure (msg : string)
| POAChainError
| UnexpectedError (msg : string).

Inductive TradeResult :=
| Failure (e : error)
| BuySuccess (h : tx_hash) (min_tokens gas_estimate : Z)
| SellSuccess (h : tx_hash) (gas_estimate : Z).

Inductive ApprovalResult :=
| AlreadyApproved                 (* 'Token already approved' *)
| ApprovalSuccessful (h : tx_hash)
| ApprovalError (e : error).

(** The dictionary returned by [get_token_price_estimate]. *)
Record price_estimate := {
  token_amount_wei : Z;
  is_fallback : bool
}.

(** The dictionary returned by [get_token_sell_estimate]. *)
Record sell_estimate := {
  sell_amount_in_wei : Z;
  native_out_wei : Z
}.

(* ================================================================== *)
(** * Failure signatures                                               *)
(* ================================================================== *)

Definition has_panic (msg : string) : bool := contains "Panic error 0x11" msg.
Definition has_insufficient_output (msg : string) : bool :=
  contains "INSUFFICIENT_OUTPUT_AMOUNT" (upper msg).
Definition has_K (msg : string) : bool := contains "UNISWAPV2: K" (upper msg).
Definition has_nonce_too_low (msg : string) : bool :=
  contains "nonce too low" (lower msg).

(** The [if / elif] chain on a failed gas estimation, in source order. *)
Inductive revert_class := ArithmeticPanic | InsufficientOutputRevert | PoolInvariant | Unrecognized.

Definition classify (msg : string) : revert_class :=
  if has_panic msg then ArithmeticPanic
  else if has_insufficient_output msg then InsufficientOutputRevert
  else if has_K msg then PoolInvariant
  else Unrecognized.

(* ================================================================== *)
(** * Slippage guard                                                   *)
(* ================================================================== *)

(** [1 - slippage / 100]. *)
Definition slippage_factor (slippage : float) : float :=
  Float64.sub Float64.one (Float64.div slippage Float64.hundred).

(** [buy_tokens], lines 389-392, and [sell_tokens], lines 762-765:
[[
   m = int(out_wei * (1 - slippage / 100))
   if m <= 0:
       m = int(out_wei * 0.95)
]] *)
Definition min_output (out_wei : Z) (slippage : float) : result Z :=
  let? m := int_scale out_wei (slippage_factor slippage) in
  if m <=? 0 then int_scale out_wei (Float64.lit 95 100) else Ok m.

(** [sell_tokens], lines 761-773: without a sell estimate the minimum
    is 0. *)
Definition min_native (est : option sell_estimate) (slippage : float) : result Z :=
  match est with
  | Some e => min_output (native_out_wei e) slippage
  | None => Ok 0
  end.

(** Python [a / b] on ints: the correctly rounded quotient. *)
Definition py_truediv (a b : Z) : result float :=
  let raw n := match n with
               | Z0 => S754_zero false
               | Zpos p => S754_finite false p 0
               | Zneg p => S754_finite true p 0
               end in
  if b =? 0 then Raise (mkExn OtherException "division by zero")
  else match Float64.div (raw a) (raw b) with
       | S754_infinity _ =>
           Raise (OverflowError "integer division result too large for a float")
       | q => Ok q
       end.

(** [int(token_amount * (10 ** decimals))] ([decimals] is a [uint8]). *)
Definition tokens_to_wei (token_amount : float) (dec : Z) : result Z :=
  let? scale := py_float (10 ^ dec) in
  py_int (Float64.mul token_amount scale).

Definition gwei (n : Z) : Z := n * 10 ^ 9.

(* ================================================================== *)
(** * The engine                                                       *)
(* ================================================================== *)

Section Engine.

Variable tm : TradingManager.
Variable w : World.

Definition checksum (a : address) : M address := lift (to_checksum_address w a).

Definition KeyError : exn := mkExn OtherException "KeyError".

(** [self.web3_instances[chain]]. *)
Definition web3_of (c : chain) : M unit :=
  if web3_instances tm c then ret tt else raise KeyError.

(** [_get_fallback_price_estimate], lines 265-292. *)
Definition _get_fallback_price_estimate (c : chain) (token_address : address)
    (bnb_amount : float) : M (option price_estimate) :=
  try_except
    (if negb (web3_instances tm c) then ret None
     else
       _ <- lift (to_wei w bnb_amount) ;;
       let estimated_tokens := Float64.mul bnb_amount (Float64.of_Z 1000) in
       wei <- lift (to_wei w estimated_tokens) ;;
       ret (Some {| token_amount_wei := wei; is_fallback := true |}))
    (fun _ => ret None).

(** [get_token_price_estimate], lines 161-263. *)
Definition get_token_price_estimate (c : chain) (token_address : address)
    (bnb_amount : float) : M (option price_estimate) :=
  try_except
    (if negb (router_contracts tm c) then ret None
     else
       _ <- web3_of c ;;
       bnb_amount_wei <- lift (to_wei w bnb_amount) ;;
       match wrapped_native c with
       | None => ret None
       | Some wbnb_address =>
           _ <- checksum wbnb_address ;;
           _ <- checksum token_address ;;
           if negb (is_address w wbnb_address) then ret None
           else if negb (is_address w token_address) then ret None
           else
             r <- attempt (remote (GetAmountsOut Buy bnb_amount_wei)
                             (fun tr => getAmountsOut w tr Buy bnb_amount_wei)) ;;
             match r with
             | Raise _ => ret None
             | Ok amounts_out =>
                 if (2 <=? List.length amounts_out)%nat then
                   (* the decimals read only feeds the displayed amount *)
                   _ <- attempt (_ <- checksum token_address ;;
                                 remote Decimals (decimals w)) ;;
                   ret (Some {| token_amount_wei := nth 1 amounts_out 0;
                                is_fallback := false |})
                 else ret None
             end
       end)
    (fun _ => _get_fallback_price_estimate c token_address bnb_amount).

(** [get_token_sell_estimate], lines 294-341. *)
Definition get_token_sell_estimate (c : chain) (token_address : address)
    (token_amount : float) : M (option sell_estimate) :=
  try_except
    (if negb (router_contracts tm c) then ret None
     else
       _ <- web3_of c ;;
       match wrapped_native c with
       | None => ret None
       | Some wrapped =>
           _ <- checksum token_address ;;
           d <- attempt (remote Decimals (decimals w)) ;;
           let dec := match d with Ok n => n | Raise _ => 18 end in
           amount_in_wei <- lift (tokens_to_wei token_amount dec) ;;
           _ <- checksum token_address ;;
           _ <- checksum wrapped ;;
           amounts_out <- remote (GetAmountsOut Sell amount_in_wei)
                            (fun tr => getAmountsOut w tr Sell amount_in_wei) ;;
           if (List.length amounts_out <? 2)%nat then ret None
           else ret (Some {| sell_amount_in_wei := amount_in_wei;
                             native_out_wei := last amounts_out 0 |})
       end)
    (fun _ => ret None).

(** [_get_token_balance], lines 1102-1135. *)
Definition _get_token_balance (c : chain) (token_address user_address : address)
    : M float :=
  try_except
    (if negb (web3_instances tm c) then ret Float64.zero
     else
       _ <- checksum token_address ;;
       _ <- checksum user_address ;;
       balance_wei <- remote BalanceOf (balanceOf w) ;;
       r <- attempt (_ <- checksum token_address ;;
                     dec <- remote Decimals (decimals w) ;;
                     lift (py_truediv balance_wei (10 ^ dec))) ;;
       match r with
       | Ok balance => ret balance
       | Raise _ => ret (from_wei w balance_wei)
       end)
    (fun _ => ret Float64.zero).

(** The nonce block, identical in [buy_tokens] (lines 546-557),
    [sell_tokens] (lines 894-905) and
    [_ensure_token_approval_for_contract] (lines 1192-1203):
[[
 try:    nonce = get_transaction_count(addr, 'pending')
 except: try:    nonce = get_transaction_count(addr)
         except: nonce = 0
]] *)
Definition resolve_nonce : M Z :=
  r <- attempt (remote (GetTransactionCount true)
                  (fun tr => get_transaction_count w tr true)) ;;
  match r with
  | Ok n => ret n
  | Raise _ =>
      r2 <- attempt (remote (GetTransactionCount false)
                       (fun tr => get_transaction_count w tr false)) ;;
      match r2 with
      | Ok n => ret n
      | Raise _ => ret 0
      end
  end.

(** The gas-price block of [buy_tokens] (lines 535-544) and
    [sell_tokens] (lines 883-892). *)
Definition resolve_gas_price (c : chain) : M Z :=
  r <- attempt (current_gas_price <- remote GasPrice (gas_price w) ;;
                lift (int_scale current_gas_price (Float64.lit 15 10))) ;;
  match r with
  | Ok p => ret p
  | Raise _ => ret (match c with ETH => gwei 20 | _ => gwei 10 end)
  end.

(** The deadline block (lines 422-431 and 748-757). *)
Definition resolve_deadline : M Z :=
  r <- attempt (remote GetBlock (get_block_timestamp w)) ;;
  match r with
  | Ok ts => ret (ts + 1200)
  | Raise _ => t <- remote Time (fun tr => Ok (time_time w tr)) ;; ret (t + 1200)
  end.

(** "Try custom trading contract first, fallback to PancakeSwap
    router" (lines 433-453 and 775-797).  The second component tells
    whether the local variable [router] got assigned. *)
Definition bind_swap (c : chain) (mk : contract -> contract_call)
    : M (contract_call * bool) :=
  r <- attempt (lift (bind_function w (mk TradingContract))) ;;
  match r with
  | Ok _ => ret (mk TradingContract, false)
  | Raise _ =>
      if router_contracts tm c then
        _ <- lift (bind_function w (mk Router)) ;;
        ret (mk Router, true)
      else raise KeyError
  end.

(** The rebuilds inside the retries:
[[
 try:    f = trading_contract.functions.swap...(...)
 except Exception: f = router.functions.swap...(...)
]]
    where [router] is unbound unless the first binding fell back. *)
Definition rebind_swap (router_bound : bool) (mk : contract -> contract_call)
    : M contract_call :=
  r <- attempt (lift (bind_function w (mk TradingContract))) ;;
  match r with
  | Ok _ => ret (mk TradingContract)
  | Raise _ =>
      if router_bound then
        _ <- lift (bind_function w (mk Router)) ;;
        ret (mk Router)
      else raise (NameError "cannot access local variable 'router'")
  end.

Definition simulate (f : contract_call) (value : Z) : M Z :=
  remote (EstimateGas f value) (fun tr => estimate_gas w tr f value).

(** One relaxed simulation of the gas-estimation retries: the body of
    the inner [try] blocks (lines 472-497, 501-525, 816-843, 847-873). *)
Definition relaxed_simulation (router_bound : bool)
    (mk : Z -> contract -> contract_call) (value min_out : Z) (factor : float)
    : M Z :=
  min_retry <- lift (int_scale min_out factor) ;;
  f <- rebind_swap router_bound (mk min_retry) ;;
  simulate f value.

(** "Estimate gas with better error handling": [buy_tokens], lines
    455-533, and [sell_tokens], lines 799-881.  [inl] is an early
    [return] of the trade, [inr] the value of [gas_estimate] on
    leaving the block. *)
Definition estimate_gas_with_retries (d : direction) (amount : float)
    (value min_out : Z) (mk : Z -> contract -> contract_call)
    (swap_function : contract_call) (router_bound : bool)
    : M (TradeResult + Z) :=
  r <- attempt (simulate swap_function value) ;;
  match r with
  | Ok gas_estimate => ret (inr gas_estimate)
  | Raise e =>
      match classify (exn_msg e) with
      | ArithmeticPanic => ret (inl (Failure InvalidAmounts))
      | InsufficientOutputRevert => ret (inl (Failure InsufficientOutput))
      | PoolInvariant =>
          r1 <- attempt (relaxed_simulation router_bound mk value min_out
                           (Float64.lit 70 100)) ;;
          match r1 with
          | Ok _ => ret (inr 300000)
          | Raise _ =>
              r2 <- attempt (relaxed_simulation router_bound mk value min_out
                               (Float64.lit 50 100)) ;;
              match r2 with
              | Ok _ => ret (inr 300000)
              | Raise _ =>
                  let suggested_amount := Float64.mul amount (Float64.lit 1 10) in
                  ret (inl (Failure (SevereLiquidityIssue d suggested_amount amount)))
              end
          end
      | Unrecognized => ret (inr 300000)
      end
  end.

Definition send (t : tx) : M tx_hash :=
  remote (SendRawTransaction t) (fun tr => send_raw_transaction w tr t).

Definition build (t : tx) : M unit :=
  remote (BuildTransaction t) (fun tr => build_transaction w tr t).

Definition sign (t : tx) : M unit :=
  remote (SignTransaction t) (fun tr => sign_transaction w tr t).

(** The loop of [_send_transaction_with_retry], lines 1260-1290, over
    the remaining values of [range(max_retries)]. *)
Fixpoint send_attempts (signed_txn : tx) (max_retries : nat) (attempts : list nat)
    : M tx_hash :=
  match attempts with
  | [] =>
      raise (mkExn OtherException
               (String.append "Transaction failed after "
                  (String.append (str_of_nat max_retries) " attempts")))
  | i :: rest =>
      r <- attempt (send signed_txn) ;;
      match r with
      | Ok h => ret h
      | Raise e =>
          let error_msg := exn_msg e in
          if has_nonce_too_low error_msg then
            if (i <? max_retries - 1)%nat then
              _ <- remote (Sleep 2) (fun _ => Ok tt) ;;
              send_attempts signed_txn max_retries rest
            else
              raise (mkExn OtherException
                       (String.append "Nonce issue after "
                          (String.append (str_of_nat max_retries)
                             (String.append " attempts: " error_msg))))
          else raise e
      end
  end.

(** [_send_transaction_with_retry], lines 1258-1290. *)
Definition _send_transaction_with_retry (signed_txn : tx) (max_retries : nat)
    : M tx_hash :=
  send_attempts signed_txn max_retries (seq 0 max_retries).

(** [_ensure_token_approval_for_contract], lines 1143-1232. *)
Definition _ensure_token_approval_for_contract (c : chain)
    (token_address user_address : address) (amount : Z) (spender_address : address)
    : M ApprovalResult :=
  try_except
    (if negb (web3_instances tm c) then ret (ApprovalError ChainNotSupported)
     else
       _ <- checksum token_address ;;
       _ <- checksum user_address ;;
       _ <- checksum spender_address ;;
       current_allowance <- remote (Allowance spender_address)
                              (fun tr => allowance w tr spender_address) ;;
       if amount <=? current_allowance then ret AlreadyApproved
       else
         _ <- checksum spender_address ;;
         let approve_function :=
           {| cc_contract := Token; cc_func := approve spender_address amount |} in
         _ <- lift (bind_function w approve_function) ;;
         g <- attempt (_ <- checksum user_address ;; simulate approve_function 0) ;;
         let gas_estimate := match g with Ok n => n | Raise _ => 50000 end in
         p <- attempt (remote GasPrice (gas_price w)) ;;
         let gas_price := match p with Ok n => n | Raise _ => gwei 5 end in
         nonce <- resolve_nonce ;;
         _ <- checksum user_address ;;
         gas <- lift (int_scale gas_estimate (Float64.lit 12 10)) ;;
         let transaction :=
           {| tx_call := approve_function; tx_value := 0; tx_gas := gas;
              tx_gasPrice := gas_price; tx_nonce := nonce |} in
         _ <- build transaction ;;
         _ <- sign transaction ;;
         h <- send transaction ;;
         ret (ApprovalSuccessful h))
    (fun e => ret (ApprovalError (ApprovalFailed (exn_msg e)))).

(** [buy_tokens], lines 559-637: build, sign, send, and the single
    rebuilt resubmission. *)
Definition buy_submit (mk : Z -> contract -> contract_call)
    (swap_function : contract_call) (router_bound : bool)
    (bnb_amount_wei min_tokens gas_estimate gas_price nonce : Z) : M TradeResult :=
  b <- attempt (gas <- lift (int_scale gas_estimate (Float64.lit 15 10)) ;;
                let transaction :=
                  {| tx_call := swap_function; tx_value := bnb_amount_wei;
                     tx_gas := gas; tx_gasPrice := gas_price; tx_nonce := nonce |} in
                _ <- build transaction ;;
                ret transaction) ;;
  match b with
  | Raise e => ret (Failure (TransactionBuildError (exn_msg e)))
  | Ok transaction =>
      _ <- sign transaction ;;
      s <- attempt (send transaction) ;;
      match s with
      | Ok h => ret (BuySuccess h min_tokens gas_estimate)
      | Raise e =>
          let msg := exn_msg e in
          if has_insufficient_output msg || has_K msg then
            let error_type :=
              if has_insufficient_output msg then INSUFFICIENT_OUTPUT_AMOUNT
              else UniswapV2_K in
            min_tokens_retry <-
              lift (int_scale min_tokens
                      (if has_K msg then Float64.lit 80 100 else Float64.lit 85 100)) ;;
            r <- attempt
                   (swap_function_retry <- rebind_swap router_bound (mk min_tokens_retry) ;;
                    gas <- lift (int_scale gas_estimate (Float64.lit 16 10)) ;;
                    let transaction_retry :=
                      {| tx_call := swap_function_retry; tx_value := bnb_amount_wei;
                         tx_gas := gas; tx_gasPrice := gas_price; tx_nonce := nonce |} in
                    _ <- build transaction_retry ;;
                    _ <- sign transaction_retry ;;
                    send transaction_retry) ;;
            match r with
            | Ok h => ret (BuySuccess h min_tokens gas_estimate)
            | Raise e2 => ret (Failure (RetryFailed error_type (exn_msg e2)))
            end
          else ret (Failure (TransactionSendError msg))
      end
  end.

(** [sell_tokens], lines 907-986. *)
Definition sell_submit (mk : Z -> contract -> contract_call)
    (swap_function : contract_call) (router_bound : bool)
    (min_native gas_estimate gas_price nonce : Z) : M TradeResult :=
  gas <- lift (int_scale gas_estimate (Float64.lit 12 10)) ;;
  let transaction :=
    {| tx_call := swap_function; tx_value := 0;
       tx_gas := gas; tx_gasPrice := gas_price; tx_nonce := nonce |} in
  _ <- build transaction ;;
  _ <- sign transaction ;;
  s <- attempt (_send_transaction_with_retry transaction 3) ;;
  match s with
  | Ok h => ret (SellSuccess h gas_estimate)
  | Raise e =>
      let msg := exn_msg e in
      if has_K msg || has_insufficient_output msg then
        let error_type :=
          if has_K msg then UniswapV2_K else INSUFFICIENT_OUTPUT_AMOUNT in
        min_native_retry <-
          lift (int_scale min_native
                  (if has_K msg then Float64.lit 80 100 else Float64.lit 85 100)) ;;
        r <- attempt
               (swap_function_retry <- rebind_swap router_bound (mk min_native_retry) ;;
                gas <- lift (int_scale gas_estimate (Float64.lit 16 10)) ;;
                let transaction_retry :=
                  {| tx_call := swap_function_retry; tx_value := 0;
                     tx_gas := gas; tx_gasPrice := gas_price; tx_nonce := nonce |} in
                _ <- build transaction_retry ;;
                _ <- sign transaction_retry ;;
                _send_transaction_with_retry transaction_retry 3) ;;
        match r with
        | Ok h => ret (SellSuccess h gas_estimate)
        | Raise e2 => ret (Failure (RetryFailed error_type (exn_msg e2)))
        end
      else ret (Failure (SellTransactionError msg))
  end.

(** The check that the trading contract has code (lines 357-366 and
    666-675); [None] lets the trade go on. *)
Definition check_trading_contract : M (option TradeResult) :=
  r <- attempt (remote GetCode (get_code w)) ;;
  match r with
  | Raise e => ret (Some (Failure (TradingContractValidationError (exn_msg e))))
  | Ok false => ret (Some (Failure TradingContractNotDeployed))
  | Ok true => ret None
  end.

(** The estimation, fee and nonce resolution and submission of a buy
    (lines 455-637), from the bound swap function on. *)
Definition buy_execute (c : chain) (bnb_amount : float)
    (mk : Z -> contract -> contract_call)
    (swap_function : contract_call) (router_bound : bool)
    (bnb_amount_wei min_tokens : Z) : M TradeResult :=
  g <- estimate_gas_with_retries Buy bnb_amount bnb_amount_wei min_tokens mk
         swap_function router_bound ;;
  match g with
  | inl early => ret early
  | inr gas_estimate =>
      gas_price <- resolve_gas_price c ;;
      nonce <- resolve_nonce ;;
      buy_submit mk swap_function router_bound bnb_amount_wei min_tokens
        gas_estimate gas_price nonce
  end.

(** The handlers closing [buy_tokens], lines 639-650. *)
Definition buy_handlers (e : exn) : M TradeResult :=
  let msg := exn_msg e in
  match exn_cls e with
  | ContractLogicError => ret (Failure (ContractError msg))
  | ValidationError =>
      if contains "extraData" msg && contains "POA" msg
      then ret (Failure POAChainError)
      else ret (Failure (ValidationFailure msg))
  | OtherException => ret (Failure (UnexpectedError msg))
  end.

(** [buy_tokens], lines 343-650. *)
Definition buy_tokens (c : chain) (token_address : address) (bnb_amount : float)
    (user_address : address) (slippage : option float) : M TradeResult :=
  try_except
    (if negb (trading_contracts tm c) then ret (Failure ChainNotSupported)
     else
       let slippage :=
         match slippage with Some s => s | None => default_slippage c end in
       _ <- web3_of c ;;
       chk <- check_trading_contract ;;
       match chk with
       | Some early => ret early
       | None =>
           if negb (is_address w token_address) then ret (Failure InvalidTokenAddress)
           else if Float64.leb bnb_amount Float64.zero
           then ret (Failure (InvalidAmount Buy))
           else
             pe <- get_token_price_estimate c token_address bnb_amount ;;
             match pe with
             | None => ret (Failure CouldNotGetPriceEstimate)
             | Some price_estimate =>
                 min_tokens <- lift (min_output (token_amount_wei price_estimate)
                                       slippage) ;;
                 bnb_amount_wei <- lift (to_wei w bnb_amount) ;;
                 match wrapped_native c with
                 | None => ret (Failure UnsupportedChain)
                 | Some wbnb_address =>
                     _ <- checksum wbnb_address ;;
                     _ <- checksum token_address ;;
                     _ <- checksum user_address ;;
                     deadline <- resolve_deadline ;;
                     let mk m ctr :=
                       {| cc_contract := ctr;
                          cc_func := swapExactETHForTokens m deadline |} in
                     sf <- bind_swap c (mk min_tokens) ;;
                     buy_execute c bnb_amount mk (fst sf) (snd sf)
                       bnb_amount_wei min_tokens
                 end
             end
       end)
    buy_handlers.

(** The estimation, fee and nonce resolution and submission of a sell
    (lines 799-986). *)
Definition sell_execute (c : chain) (token_amount : float)
    (mk : Z -> contract -> contract_call)
    (swap_function : contract_call) (router_bound : bool)
    (min_native : Z) : M TradeResult :=
  g <- estimate_gas_with_retries Sell token_amount 0 min_native mk
         swap_function router_bound ;;
  match g with
  | inl early => ret early
  | inr gas_estimate =>
      gas_price <- resolve_gas_price c ;;
      nonce <- resolve_nonce ;;
      sell_submit mk swap_function router_bound min_native
        gas_estimate gas_price nonce
  end.

(** The handlers closing [sell_tokens], lines 988-996. *)
Definition sell_handlers (e : exn) : M TradeResult :=
  let msg := exn_msg e in
  match exn_cls e with
  | ContractLogicError => ret (Failure (ContractError msg))
  | ValidationError => ret (Failure (ValidationFailure msg))
  | OtherException => ret (Failure (UnexpectedError msg))
  end.

(** [sell_tokens], lines 759-986: quote, minimum output, binding,
    estimation and submission, after the approval. *)
Definition sell_swap (c : chain) (token_address : address) (token_amount : float)
    (token_amount_wei : Z) (slippage : float) (deadline : Z) : M TradeResult :=
  est <- get_token_sell_estimate c token_address token_amount ;;
  min_nat <- lift (min_native est slippage) ;;
  let mk m ctr :=
    {| cc_contract := ctr;
       cc_func := swapExactTokensForETH token_amount_wei m deadline |} in
  sf <- bind_swap c (mk min_nat) ;;
  sell_execute c token_amount mk (fst sf) (snd sf) min_nat.

(** [sell_tokens], lines 652-996. *)
Definition sell_tokens (c : chain) (token_address : address) (token_amount : float)
    (user_address : address) (slippage : option float) : M TradeResult :=
  try_except
    (if negb (trading_contracts tm c) then ret (Failure ChainNotSupported)
     else
       let slippage :=
         match slippage with Some s => s | None => default_slippage c end in
       _ <- web3_of c ;;
       chk <- check_trading_contract ;;
       match chk with
       | Some early => ret early
       | None =>
           if negb (is_address w token_address) then ret (Failure InvalidTokenAddress)
           else if Float64.leb token_amount Float64.zero
           then ret (Failure (InvalidAmount Sell))
           else
             d <- attempt (_ <- checksum token_address ;;
                           dec <- remote Decimals (decimals w) ;;
                           lift (tokens_to_wei token_amount dec)) ;;
             token_amount_wei <-
               match d with
               | Ok n => ret n
               | Raise _ => lift (to_wei w token_amount)
               end ;;
             token_balance <- _get_token_balance c token_address user_address ;;
             if Float64.ltb token_balance token_amount
             then ret (Failure (InsufficientTokenBalance token_balance))
             else
               match trading_contract_address c with
               | None => ret (Failure UnsupportedChain)
               | Some spender =>
                   approval_result <-
                     _ensure_token_approval_for_contract c token_address user_address
                       token_amount_wei spender ;;
                   match approval_result with
                   | ApprovalError e => ret (Failure e)
                   | _ =>
                       match wrapped_native c with
                       | None => ret (Failure UnsupportedChain)
                       | Some wbnb_address =>
                           _ <- checksum token_address ;;
                           _ <- checksum wbnb_address ;;
                           deadline <- resolve_deadline ;;
                           sell_swap c token_address token_amount token_amount_wei
                             slippage deadline
                       end
                   end
               end
       end)
    sell_handlers.

End Engine.

Arguments int_scale : simpl never.
Arguments min_output : simpl never.

(* ================================================================== *)
(** * Start-up and settings                                            *)
(* ================================================================== *)

(** What the steps of [_initialize_contracts] meet on each chain:
    whether [Web3(...)] returns, whether the POA middleware block of
    BSC lets no exception out, the answer of [is_connected()] ([None]
    when it raises), and whether the router and the trading contract
    objects are built. *)
Record startup := {
  web3_built : chain -> bool;
  poa_injected : bool;
  is_connected : chain -> option bool;
  router_built : chain -> bool;
  trading_built : chain -> bool
}.

Definition chain_eqb (a b : chain) : bool :=
  match a, b with
  | BSC, BSC | ETH, ETH | SEPOLIA, SEPOLIA | OtherChain, OtherChain => true
  | _, _ => false
  end.

(** [d[chain] = ...] on a dictionary keyed by chains. *)
Definition dict_set (d : chain -> bool) (c : chain) : chain -> bool :=
  fun k => if chain_eqb k c then true else d k.

(** The body of the loop of [_initialize_contracts], lines 20-95; an
    exception at any step ends the chain's turn (the
    [except Exception] of line 94). *)
Definition initialize_chain (env : startup) (tm : TradingManager) (c : chain)
    : TradingManager :=
  if negb (web3_built env c) then tm
  else
    let tm1 := {| web3_instances := dict_set (web3_instances tm) c;
                  router_contracts := router_contracts tm;
                  trading_contracts := trading_contracts tm |} in
    if chain_eqb c BSC && negb (poa_injected env) then tm1
    else
      match is_connected env c with
      | Some true =>
          if negb (router_built env c) then tm1
          else
            let tm2 := {| web3_instances := web3_instances tm1;
                          router_contracts := dict_set (router_contracts tm1) c;
                          trading_contracts := trading_contracts tm1 |} in
            if negb (trading_built env c) then tm2
            else {| web3_instances := web3_instances tm2;
                    router_contracts := router_contracts tm2;
                    trading_contracts := dict_set (trading_contracts tm2) c |}
      | _ => tm1
      end.

(** [__init__] and [_initialize_contracts], lines 12-95:
    [for chain in ['BSC', 'ETH', 'SEPOLIA']] over empty dictionaries. *)
Definition _initialize_contracts (env : startup) : TradingManager :=
  fold_left (initialize_chain env) [BSC; ETH; SEPOLIA]
    {| web3_instances := fun _ => false;
       router_contracts := fun _ => false;
       trading_contracts := fun _ => false |}.

(** [self.user_slippage] of [new_bot.py]: a dict from user ids to
    tolerances. *)
Definition user_slippage : Type := Z -> option float.

(** [get_user_slippage], [new_bot.py] lines 141-143:
    [self.user_slippage.get(user_id, TRADING_CONFIG.get('BSC', {}).get('slippage', 0.5))]. *)
Definition get_user_slippage (st : user_slippage) (user_id : Z) : float :=
  match st user_id with
  | Some s => s
  | None => default_slippage BSC
  end.

(** [set_user_slippage], [new_bot.py] lines 145-147. *)
Definition set_user_slippage (st : user_slippage) (user_id : Z) (slippage : float)
    : user_slippage :=
  fun u => if u =? user_id then Some slippage else st u.

(** The button pressed or the text typed: ['custom'], or a text with the
    outcome of [float(text)] ([None] for a [ValueError]). *)
Inductive slippage_input :=
| CustomSlippage
| SlippageText (parsed : option float).

(** The messages of [handle_set_slippage]. *)
Inductive slippage_reply :=
| EnterCustomSlippage            (* 'Enter Custom Slippage' *)
| SlippageOutOfRange             (* 'Slippage must be between 0.1% and 50%' *)
| InvalidSlippageValue           (* 'Invalid slippage value' *)
| SlippageUpdated (v : float)    (* 'Slippage Updated!' with the value *)
| SlippageError (msg : string).  (* 'Error: ' + str(e) *)

(** What [await self.send_message(...)] meets ([new_bot.py] lines
    81-96, an HTTP request whose JSON answer is returned): the message
    is delivered, or the call raises.  [response.json()] raises a
    [json.JSONDecodeError], which is a [ValueError], on a body that is
    not JSON; the HTTP layer raises errors of its own.  [msg] is
    [str(e)]. *)
Inductive send_outcome :=
| Delivered
| SendValueError (msg : string)
| SendError (msg : string).

(** The Telegram API as the handler meets it: the outcome of a send
    after the replies attempted so far. *)
Definition telegram : Type := list slippage_reply -> slippage_reply -> send_outcome.

(** The store on leaving the handler, the replies attempted, in order,
    and the text of the exception that leaves the handler, if one does. *)
Record handled := {
  store : user_slippage;
  outbox : list slippage_reply;
  escaped : option string
}.

(** The handler of the outer [try], lines 4255-4257:
[[
   except Exception as e:
       logger.error(f"Error setting slippage: {e}")
       await self.send_message(chat_id, f"Error: {str(e)}")
]] *)
Definition report_error (net : telegram) (st : user_slippage)
    (replies : list slippage_reply) (msg : string) : handled :=
  {| store := st;
     outbox := replies ++ [SlippageError msg];
     escaped := match net replies (SlippageError msg) with
                | Delivered => None
                | SendValueError m | SendError m => Some m
                end |}.

(** A send that only the outer [try] guards, followed by [return] or by
    the end of the function. *)
Definition send_and_return (net : telegram) (st : user_slippage)
    (replies : list slippage_reply) (reply : slippage_reply) : handled :=
  match net replies reply with
  | Delivered => {| store := st; outbox := replies ++ [reply]; escaped := None |}
  | SendValueError m | SendError m => report_error net st (replies ++ [reply]) m
  end.

(** [handle_set_slippage], [new_bot.py] lines 4218-4257:
[[
   try:
       if slippage == 'custom':
           ...
           await self.send_message(chat_id, text, keyboard)
           return
       try:
           slippage_value = float(slippage)
           if slippage_value < 0.1 or slippage_value > 50:
               await self.send_message(chat_id, "... must be between 0.1% and 50%")
               return
       except ValueError:
           await self.send_message(chat_id, "... Invalid slippage value")
           return
       self.set_user_slippage(user_id, slippage_value)
       ...
       await self.send_message(chat_id, text, keyboard)
   except Exception as e:
       ...
       await self.send_message(chat_id, f"... Error: {str(e)}")
]]
    The out-of-range message is sent inside the inner [try]: a
    [ValueError] of that send is answered like an unparsable text.  The
    value is stored before its confirmation is sent. *)
Definition handle_set_slippage (net : telegram) (st : user_slippage) (user_id : Z)
    (slippage : slippage_input) : handled :=
  match slippage with
  | CustomSlippage => send_and_return net st [] EnterCustomSlippage
  | SlippageText None => send_and_return net st [] InvalidSlippageValue
  | SlippageText (Some slippage_value) =>
      if Float64.ltb slippage_value (Float64.lit 1 10)
         || Float64.ltb (Float64.of_Z 50) slippage_value
      then
        match net [] SlippageOutOfRange with
        | Delivered =>
            {| store := st; outbox := [SlippageOutOfRange]; escaped := None |}
        | SendValueError _ =>
            send_and_return net st [SlippageOutOfRange] InvalidSlippageValue
        | SendError m => report_error net st [SlippageOutOfRange] m
        end
      else
        send_and_return net (set_user_slippage st user_id slippage_value) []
          (SlippageUpdated slippage_value)
  end.

(* ================================================================== *)
(** * Stub clients used to run the engine on concrete inputs           *)
(* ================================================================== *)

Definition count_sends (tr : trace) : nat :=
  List.length (filter (fun c => match c with SendRawTransaction _ => true | _ => false end) tr).

Definition count_estimates (tr : trace) : nat :=
  List.length (filter (fun c => match c with EstimateGas _ _ => true | _ => false end) tr).

Definition revert (msg : string) : exn := mkExn ContractLogicError msg.
Definition rpc_error (msg : string) : exn := mkExn OtherException msg.

(** [to_wei(x, 'ether')] on the amounts used below. *)
Definition stub_to_wei (x : float) : result Z :=
  py_int (Float64.mul x (Float64.of_Z (10 ^ 18))).

(** A client on which every local step succeeds and whose remote
    answers are the arguments. *)
Definition stub (quote : direction -> result (list Z))
    (est : trace -> contract_call -> result Z)
    (price : result Z)
    (count : bool -> result Z)
    (snd : trace -> tx -> result tx_hash)
    (allow : Z) : World :=
  {| is_address := fun _ => true;
     to_checksum_address := fun a => Ok a;
     to_wei := stub_to_wei;
     from_wei := fun n => Float64.of_Z n;
     bind_function := fun _ => Ok tt;
     get_code := fun _ => Ok true;
     getAmountsOut := fun _ d _ => quote d;
     decimals := fun _ => Ok 18;
     balanceOf := fun _ => Ok (10 ^ 24);
     allowance := fun _ _ => Ok allow;
     get_block_timestamp := fun _ => Ok 1700000000;
     time_time := fun _ => 1700000000;
     estimate_gas := fun tr c _ => est tr c;
     gas_price := fun _ => price;
     get_transaction_count := fun _ p => count p;
     build_transaction := fun _ _ => Ok tt;
     sign_transaction := fun _ _ => Ok tt;
     send_raw_transaction := snd |}.

Definition all_chains : TradingManager :=
  {| web3_instances := fun c => match c with OtherChain => false | _ => true end;
     router_contracts := fun c => match c with OtherChain => false | _ => true end;
     trading_contracts := fun c => match c with OtherChain => false | _ => true end |}.

Definition token : address := "0x55d398326f99059fF775485246999027B3197955".
Definition wallet : address := "0x8894E0a0c962CB723c1976a4421c95949bE2D4E3".

Definition calm_world : World :=
  stub (fun _ => Ok [10 ^ 17; 1000]) (fun _ _ => Ok 150000) (Ok 100)
       (fun _ => Ok 7) (fun _ _ => Ok 4242) 0.

Definition pool_invariant_revert : exn := revert "execution reverted: UniswapV2: K".
Definition panic_revert : exn :=
  revert "execution reverted: Panic error 0x11: Arithmetic operation overflowed".
Definition stale_nonce : exn := rpc_error "{'code': -32000, 'message': 'nonce too low'}".

(** The pool moves once: the first simulation reverts on the invariant,
    later ones pass. *)
Definition k_once (tr : trace) (_ : contract_call) : result Z :=
  if Nat.eqb (count_estimates tr) 0 then Raise pool_invariant_revert else Ok 150000.

Definition k_once_world (out : Z) : World :=
  stub (fun _ => Ok [10 ^ 17; out]) k_once (Ok 100) (fun _ => Ok 7) (fun _ _ => Ok 4242) 0.

(** Every simulation reverts on the invariant. *)
Definition shallow_world : World :=
  stub (fun _ => Ok [10 ^ 17; 1000]) (fun _ _ => Raise pool_invariant_revert) (Ok 100)
       (fun _ => Ok 7) (fun _ _ => Ok 4242) 0.

Definition panic_world : World :=
  stub (fun _ => Ok [10 ^ 17; 1000]) (fun _ _ => Raise panic_revert) (Ok 100)
       (fun _ => Ok 7) (fun _ _ => Ok 4242) 0.

(** The node keeps answering "nonce too low". *)
Definition stale_nonce_world : World :=
  stub (fun _ => Ok [10 ^ 17; 1000]) (fun _ _ => Ok 150000) (Ok 100)
       (fun _ => Ok 7) (fun _ _ => Raise stale_nonce) (10 ^ 30).

(** "nonce too low" on the first send only. *)
Definition stale_once_world : World :=
  stub (fun _ => Ok [10 ^ 17; 1000]) (fun _ _ => Ok 150000) (Ok 100)
       (fun _ => Ok 7)
       (fun tr _ => if Nat.eqb (count_sends tr) 0 then Raise stale_nonce else Ok 4242)
       (10 ^ 30).

(** The pool moves between estimate and send: every send is rejected on
    the invariant. *)
Definition moving_pool_world : World :=
  stub (fun _ => Ok [10 ^ 17; 1000]) (fun _ _ => Ok 150000) (Ok 100)
       (fun _ => Ok 7) (fun _ _ => Raise pool_invariant_revert) (10 ^ 30).


(** Both transaction-count reads fail. *)
Definition no_nonce_world : World :=
  stub (fun _ => Ok [10 ^ 17; 1000]) (fun _ _ => Ok 150000) (Ok 100)
       (fun _ => Raise (rpc_error "timeout")) (fun _ _ => Ok 4242) 0.

Definition approved_world : World :=
  stub (fun _ => Ok [10 ^ 17; 1000]) (fun _ _ => Ok 150000) (Ok 100)
       (fun _ => Ok 7) (fun _ _ => Ok 4242) (10 ^ 30).

Definition tenth : float := Float64.lit 1 10.
Definition five : float := Float64.of_Z 5.

(** The swap calls of a buy and of a sell on the stub clients. *)
Definition buy_call (m : Z) (ctr : contract) : contract_call :=
  {| cc_contract := ctr; cc_func := swapExactETHForTokens m 1700001200 |}.

Definition sell_call (m : Z) (ctr : contract) : contract_call :=
  {| cc_contract := ctr;
     cc_func := swapExactTokensForETH (5 * 10 ^ 18) m 1700001200 |}.

Definition spender : address := "0xec27f2173da0c7c7870a47bc545fa24ae72b7395".

(** Readings of a history. *)
Definition sent (tr : trace) : list tx :=
  flat_map (fun c => match c with SendRawTransaction t => [t] | _ => [] end) tr.

Definition simulated (tr : trace) : list contract_call :=
  flat_map (fun c => match c with EstimateGas f _ => [f] | _ => [] end) tr.

Definition is_nonce_read (c : call) : bool :=
  match c with GetTransactionCount _ => true | _ => false end.

Fixpoint after_first_send (tr : trace) : trace :=
  match tr with
  | [] => []
  | SendRawTransaction _ :: rest => rest
  | _ :: rest => after_first_send rest
  end.

Definition amount_out_min (f : contract_call) : option Z :=
  match cc_func f with
  | swapExactETHForTokens m _ => Some m
  | swapExactTokensForETH _ m _ => Some m
  | approve _ _ => None
  end.

Definition approve_call : contract_call :=
  {| cc_contract := Token; cc_func := approve spender (5 * 10 ^ 18) |}.

Definition approve_tx (price nonce : Z) : tx :=
  {| tx_call := approve_call; tx_value := 0; tx_gas := 180000;
     tx_gasPrice := price; tx_nonce := nonce |}.

Definition sell_tx (m gas : Z) : tx :=
  {| tx_call := sell_call m TradingContract; tx_value := 0; tx_gas := gas;
     tx_gasPrice := 150; tx_nonce := 7 |}.

Definition buy_tx (m gas : Z) : tx :=
  {| tx_call := buy_call m TradingContract; tx_value := 10 ^ 17; tx_gas := gas;
     tx_gasPrice := 150; tx_nonce := 7 |}.

Definition insufficient_output_revert : exn :=
  revert "execution reverted: PancakeRouter: INSUFFICIENT_OUTPUT_AMOUNT".

(** Every simulation reverts on the minimum output. *)
Definition strict_world : World :=
  stub (fun _ => Ok [10 ^ 17; 1000]) (fun _ _ => Raise insufficient_output_revert) (Ok 100)
       (fun _ => Ok 7) (fun _ _ => Ok 4242) 0.

(** The approval is taken; the swap meets "nonce too low" twice and the
    pool invariant at the third attempt, and its resubmission meets
    "nonce too low" three times. *)
Definition worst_sell_world : World :=
  stub (fun _ => Ok [5 * 10 ^ 18; 10 ^ 17]) (fun _ _ => Ok 150000) (Ok 100)
       (fun _ => Ok 7)
       (fun tr _ => match count_sends tr with
                    | O => Ok 4242
                    | 3%nat => Raise pool_invariant_revert
                    | _ => Raise stale_nonce
                    end)
       0.

(** The first send is rejected on the pool invariant, the second with
    "nonce too low", the third is taken. *)
Definition retry_world : World :=
  stub (fun _ => Ok [5 * 10 ^ 18; 10 ^ 17]) (fun _ _ => Ok 150000) (Ok 100)
       (fun _ => Ok 7)
       (fun tr _ => match count_sends tr with
                    | O => Raise pool_invariant_revert
                    | 1%nat => Raise stale_nonce
                    | _ => Ok 4242
                    end)
       (10 ^ 30).

(** A node that does not answer on chain [c] at start-up. *)
Definition offline (c : chain) : startup :=
  {| web3_built := fun _ => true;
     poa_injected := true;
     is_connected := fun k => if chain_eqb k c then Some false else Some true;
     router_built := fun _ => true;
     trading_built := fun _ => true |}.

(** 'UniswapV2: ' and the Kelvin sign U+212A. *)
Definition kelvin_message : string :=
  "UniswapV2: " ++ String "226" (String "132" (String "170" EmptyString)).

(** U+0149 and 'once too low'. *)
Definition apostrophe_n_message : string :=
  String "197" (String "137" "once too low").

(** Every message is delivered. *)
Definition calm_telegram : telegram := fun _ _ => Delivered.

(** The first message cannot be sent; the later ones are delivered. *)
Definition deaf_telegram : telegram :=
  fun replies _ => match replies with [] => SendError "timeout" | _ => Delivered end.

(** No tolerance stored. *)
Definition no_slippage : user_slippage := fun _ => None.

(* ================================================================== *)
(** * Notions used in the statements                                *)
(* ================================================================== *)

(** The exception raised by [_send_transaction_with_retry] once its
    attempts are used up. *)
Definition nonce_issue (max_retries : nat) (msg : string) : exn :=
  mkExn OtherException
    (String.append "Nonce issue after "
       (String.append (str_of_nat max_retries) (String.append " attempts: " msg))).

(** Computations only ever append to the history. *)
Definition extends {A} (m : M A) : Prop :=
  forall tr, exists evs, snd (m tr) = tr ++ evs.

(** Events of the gas estimation. *)
Definition is_simulation (ev : call) : Prop := exists f v, ev = EstimateGas f v.


(** The int a quote is seen as once converted to a float. *)
Definition as_float (n : Z) : result Z :=
  let? x := py_float n in py_int x.

(** The formula of the specification, in integer arithmetic, with the
    tolerance in basis points. *)
Definition spec_min_output (out_wei bps : Z) : Z :=
  let r := out_wei * (10000 - bps) / 10000 in
  if r <=? 0 then out_wei * 95 / 100 else r.

(** ** Binary64 numbers as scaled integers

    A finite binary64 is [m * 2^e] with [m < 2^53]; the exponent of the
    format for a number of [d + e] binary digits is [fexp53 (d + e)]. *)
Definition fexp53 (e : Z) : Z := Z.max (e - 53) (-1074).

(** The float built at the end of [binary_round_aux] from the rounded
    mantissa. *)
Definition bra_result (sx : bool) (M2 E1 : Z) : spec_float :=
  if M2 =? 0 then S754_zero sx
  else if M2 <? 2 ^ 53 then
         if E1 <=? 971 then S754_finite sx (Z.to_pos M2) E1 else S754_infinity sx
       else
         if E1 + 1 <=? 971 then S754_finite sx (Z.to_pos (2 ^ 52)) (E1 + 1)
         else S754_infinity sx.

(** Mantissa and exponent of a valid binary64. *)
Definition canon (m e : Z) : Prop :=
  0 < m /\ fexp53 (Zdigits2 m + e) = e /\ e <= 971.

(** [x] is the number [m * 2^e] of sign [sx]. *)
Definition float_is (sx : bool) (x : spec_float) (m e : Z) : Prop :=
  (m = 0 /\ x = S754_zero sx)
  \/ (canon m e /\ x = S754_finite sx (Z.to_pos m) e).

(** [m * 2^e] rounded toward zero. *)
Definition trunc (m e : Z) : Z := if 0 <=? e then m * 2 ^ e else m / 2 ^ (- e).

(** A number that is at most 1, on some grid [2^K]. *)
Definition le_one (m e : Z) : Prop :=
  exists K, K <= e /\ K <= -52 /\ m * 2 ^ (e - K) <= 2 ^ 52 * 2 ^ (-52 - K).

(** The mantissas of [100.0] (exponent -46) and of [0.95] (exponent -53). *)
Definition mh : Z := 7036874417766400.
Definition m95 : Z := 8556839292003942.

(** ** Binary64 numbers as real numbers *)

(** The real number [2^e], and [m * 2^e]. *)
Definition pow2 (e : Z) : R := powerRZ 2 e.
Definition F2R (m e : Z) : R := (IZR m * pow2 e)%R.

(** The real number a binary64 stands for (0 for infinities and NaN). *)
Definition B2R (x : float) : R :=
  match x with
  | S754_finite s m e => if s then (- F2R (Z.pos m) e)%R else F2R (Z.pos m) e
  | _ => 0%R
  end.

(** ** Outcomes and histories of whole computations *)

(** A computation that returns, whatever the client answers. *)
Definition never_raises {A} (m : M A) : Prop :=
  forall tr, is_ok (fst (m tr)) = true.

(** A computation that appends at most [n] sends to the history. *)
Definition sends_at_most (n : nat) {A} (m : M A) : Prop :=
  forall tr, exists evs, snd (m tr) = tr ++ evs /\ (count_sends evs <= n)%nat.

Definition is_send (c : call) : bool :=
  match c with SendRawTransaction _ => true | _ => false end.

(** What holds of the value and of the history whenever a computation
    returns. *)
Definition post {A} (P : A -> trace -> Prop) (m : M A) : Prop :=
  forall tr a tr', m tr = (Ok a, tr') -> P a tr'.

(** The hash a trade result reports. *)
Definition reported_hash (r : TradeResult) : option tx_hash :=
  match r with
  | BuySuccess h _ _ | SellSuccess h _ => Some h
  | Failure _ => None
  end.

Definition is_failure (r : TradeResult) : Prop := reported_hash r = None.

(** The sends of [evs] that the node answered with a hash, in order;
    [pre] is the history before [evs]. *)
Fixpoint answered (w : World) (pre evs : trace) : list (tx * tx_hash) :=
  match evs with
  | [] => []
  | ev :: rest =>
      match ev with
      | SendRawTransaction t =>
          match send_raw_transaction w pre t with
          | Ok h => [(t, h)]
          | Raise _ => []
          end
      | _ => []
      end ++ answered w (pre ++ [ev]) rest
  end.

(** [P] holds of the outcome of [m] and of the sends the node answered
    during [m]. *)
Definition delivers (w : World) {A} (P : result A -> list (tx * tx_hash) -> Prop)
    (m : M A) : Prop :=
  forall tr, exists evs, snd (m tr) = tr ++ evs /\ P (fst (m tr)) (answered w tr evs).

Definition is_swap_call (f : contract_call) : bool :=
  match cc_func f with approve _ _ => false | _ => true end.

Definition is_swap (t : tx) : bool := is_swap_call (tx_call t).

(** One send: answered with a hash or not. *)
Definition sent_once (t : tx) (r : result tx_hash) (l : list (tx * tx_hash)) : Prop :=
  match r with Ok h => l = [(t, h)] | Raise _ => l = [] end.

(** The calls of one run of the sender with three attempts: the same
    transaction sent one to three times, two seconds apart. *)
Definition resends (t : tx) (evs : trace) : Prop :=
  let s := SendRawTransaction t in
  evs = [s] \/ evs = [s; Sleep 2; s] \/ evs = [s; Sleep 2; s; Sleep 2; s].

(** The call a rebuild binds: on the trading contract, or on the router
    when that binding fails and the first binding of the trade had
    fallen back on the router. *)
Definition rebinds (w : World) (router_bound : bool) (mk : contract -> contract_call)
    (f : contract_call) : Prop :=
  (bind_function w (mk TradingContract) = Ok tt /\ f = mk TradingContract)
  \/ (is_ok (bind_function w (mk TradingContract)) = false
      /\ router_bound = true
      /\ bind_function w (mk Router) = Ok tt /\ f = mk Router).

(** A reported hash is the hash of the one swap the node took; a
    failure means it took none. *)
Definition trade_outcome (r : result TradeResult) (l : list (tx * tx_hash)) : Prop :=
  match r with
  | Ok res =>
      match reported_hash res with
      | Some h => exists t, l = [(t, h)] /\ is_swap t = true
      | None => l = []
      end
  | Raise _ => l = []
  end.

(** A reported approval hash is the hash of the one [approve] the node
    took. *)
Definition approval_outcome (spender : address) (amount : Z)
    (r : result ApprovalResult) (l : list (tx * tx_hash)) : Prop :=
  match r with
  | Ok (ApprovalSuccessful h) =>
      exists t, l = [(t, h)]
                /\ tx_call t = {| cc_contract := Token; cc_func := approve spender amount |}
  | _ => l = []
  end.

(** A sell: at most one approval, then the swap as for a buy. *)
Definition sell_outcome (r : result TradeResult) (l : list (tx * tx_hash)) : Prop :=
  exists a s, l = a ++ s
              /\ (a = [] \/ exists t h, a = [(t, h)] /\ is_swap t = false)
              /\ trade_outcome r s.

(** [out] is the second amount of an answer of the pool to
    [getAmountsOut] for [amount]. *)
Definition pool_quote (w : World) (amount : float) (out : Z) : Prop :=
  exists tr0 wei amounts,
    to_wei w amount = Ok wei
    /\ getAmountsOut w tr0 Buy wei = Ok amounts
    /\ (2 <= List.length amounts)%nat
    /\ nth 1 amounts 0 = out.

(** The invariant of the three dictionaries of the manager. *)
Definition well_formed (env : startup) (tm : TradingManager) : Prop :=
  forall c,
    (trading_contracts tm c = true -> router_contracts tm c = true)
    /\ (router_contracts tm c = true ->
        web3_instances tm c = true /\ is_connected env c = Some true)
    /\ (web3_instances tm c = true -> c <> OtherChain).

(* ================================================================== *)
(** * Proof tools                                                   *)
(* ================================================================== *)

Ltac munfold :=
  unfold simulate, send, build, sign, checksum, web3_of in *;
  unfold bind, attempt, try_except, remote, lift, ret, raise in *.
Tactic Notation "rw" constr(H) := rewrite H; cbv beta iota.

Ltac tr_norm := repeat rewrite <- (@app_assoc call); cbn [app].

Lemma app2 {A} (l : list A) (a b : A) : (l ++ [a]) ++ [b] = l ++ [a; b].
Proof. now rewrite <- app_assoc. Qed.
Lemma app_snoc {A} (l m : list A) (a : A) : (l ++ m) ++ [a] = l ++ (m ++ [a]).
Proof. now rewrite <- app_assoc. Qed.
Lemma is_ok_inv {A} (r : result A) : is_ok r = true -> exists a, r = Ok a.
Proof. destruct r; simpl; intros; [eauto | discriminate]. Qed.

Section Submit.
Variable tm : TradingManager.
Variable w : World.

Lemma sender_first_try t n tr h :
  send_raw_transaction w tr t = Ok h ->
  _send_transaction_with_retry w t (S n) tr = (Ok h, tr ++ [SendRawTransaction t]).
Proof.
  intros H. unfold _send_transaction_with_retry. cbn [seq send_attempts].
  munfold. now rw H.
Qed.

Lemma sender_other_error t n tr e :
  send_raw_transaction w tr t = Raise e ->
  has_nonce_too_low (exn_msg e) = false ->
  _send_transaction_with_retry w t (S n) tr = (Raise e, tr ++ [SendRawTransaction t]).
Proof.
  intros H Hn. unfold _send_transaction_with_retry. cbn [seq send_attempts].
  munfold. rw H. now rw Hn.
Qed.

Lemma sender_trace t tr :
  let s := SendRawTransaction t in
  exists evs, snd (_send_transaction_with_retry w t 3 tr) = tr ++ evs
    /\ (evs = [s] \/ evs = [s; Sleep 2; s] \/ evs = [s; Sleep 2; s; Sleep 2; s]).
Proof.
  intros s. unfold _send_transaction_with_retry. cbn [seq send_attempts].
  munfold. cbn [Nat.ltb Nat.leb Nat.sub].
  destruct (send_raw_transaction w tr t) as [h|e1]; cbv beta iota.
  { exists [s]; auto. }
  destruct (has_nonce_too_low (exn_msg e1)); cbv beta iota.
  2:{ exists [s]; auto. }
  destruct (send_raw_transaction w _ t) as [h|e2]; cbv beta iota.
  { exists [s; Sleep 2; s]. tr_norm. auto. }
  destruct (has_nonce_too_low (exn_msg e2)); cbv beta iota.
  2:{ exists [s; Sleep 2; s]. tr_norm. auto. }
  exists [s; Sleep 2; s; Sleep 2; s].
  destruct (send_raw_transaction w _ t) as [h|e3]; cbv beta iota.
  { tr_norm. auto. }
  destruct (has_nonce_too_low (exn_msg e3)); cbv beta iota; tr_norm; auto.
Qed.

Lemma sender_exhausted t tr e1 e2 e3 :
  let s := SendRawTransaction t in
  send_raw_transaction w tr t = Raise e1 ->
  has_nonce_too_low (exn_msg e1) = true ->
  send_raw_transaction w (tr ++ [s; Sleep 2]) t = Raise e2 ->
  has_nonce_too_low (exn_msg e2) = true ->
  send_raw_transaction w (tr ++ [s; Sleep 2; s; Sleep 2]) t = Raise e3 ->
  has_nonce_too_low (exn_msg e3) = true ->
  _send_transaction_with_retry w t 3 tr
  = (Raise (nonce_issue 3 (exn_msg e3)), tr ++ [s; Sleep 2; s; Sleep 2; s]).
Proof.
  intros s H1 N1 H2 N2 H3 N3. subst s.
  unfold _send_transaction_with_retry. cbn [seq send_attempts].
  munfold. cbn [Nat.ltb Nat.leb Nat.sub].
  rw H1. rw N1. rewrite !app2. rw H2. rw N2. tr_norm. cbn [app]. rw H3. rw N3.
  tr_norm. reflexivity.
Qed.

Lemma sender_second_try t tr e1 h :
  let s := SendRawTransaction t in
  send_raw_transaction w tr t = Raise e1 ->
  has_nonce_too_low (exn_msg e1) = true ->
  send_raw_transaction w (tr ++ [s; Sleep 2]) t = Ok h ->
  _send_transaction_with_retry w t 3 tr = (Ok h, tr ++ [s; Sleep 2; s]).
Proof.
  intros s H1 N1 H2. subst s.
  unfold _send_transaction_with_retry. cbn [seq send_attempts].
  munfold. cbn [Nat.ltb Nat.leb Nat.sub].
  rw H1. rw N1. rewrite !app2. rw H2. tr_norm. reflexivity.
Qed.

(** sell_submit up to the first sender run *)
Lemma sell_submit_first mk sf rb min_native ge gp nonce tr gas :
  int_scale ge (Float64.lit 12 10) = Ok gas ->
  let t := {| tx_call := sf; tx_value := 0; tx_gas := gas;
              tx_gasPrice := gp; tx_nonce := nonce |} in
  build_transaction w tr t = Ok tt ->
  sign_transaction w (tr ++ [BuildTransaction t]) t = Ok tt ->
  sell_submit w mk sf rb min_native ge gp nonce tr
  = (let (s, tr1) := _send_transaction_with_retry w t 3
                        (tr ++ [BuildTransaction t; SignTransaction t]) in
     match s with
     | Ok h => (Ok (SellSuccess h ge), tr1)
     | Raise e =>
         let msg := exn_msg e in
         if has_K msg || has_insufficient_output msg then
           (let error_type :=
              if has_K msg then UniswapV2_K else INSUFFICIENT_OUTPUT_AMOUNT in
            min_native_retry <-
              lift (int_scale min_native
                      (if has_K msg then Float64.lit 80 100 else Float64.lit 85 100)) ;;
            r <- attempt
                   (swap_function_retry <- rebind_swap w rb (mk min_native_retry) ;;
                    gas <- lift (int_scale ge (Float64.lit 16 10)) ;;
                    let transaction_retry :=
                      {| tx_call := swap_function_retry; tx_value := 0;
                         tx_gas := gas; tx_gasPrice := gp; tx_nonce := nonce |} in
                    _ <- build w transaction_retry ;;
                    _ <- sign w transaction_retry ;;
                    _send_transaction_with_retry w transaction_retry 3) ;;
            match r with
            | Ok h => ret (SellSuccess h ge)
            | Raise e2 => ret (Failure (RetryFailed error_type (exn_msg e2)))
            end) tr1
         else (Ok (Failure (SellTransactionError msg)), tr1)
     end).
Proof.
  intros Hg t Hb Hs. unfold sell_submit.
  unfold bind at 1. unfold lift at 1. rw Hg. fold t.
  unfold bind at 1. unfold build at 1. unfold remote at 1. rw Hb.
  unfold bind at 1. unfold sign at 1. unfold remote at 1. rw Hs.
  rewrite app2.
  unfold bind at 1. unfold attempt at 1.
  destruct (_send_transaction_with_retry w t 3 _) as [[h|e] tr1]; cbv beta iota.
  - reflexivity.
  - destruct (has_K (exn_msg e) || has_insufficient_output (exn_msg e)); reflexivity.
Qed.
End Submit.

(* ================================================================== *)
(** * Histories only grow                                           *)
(* ================================================================== *)

Lemma extends_ret {A} (a : A) : extends (ret a).
Proof. intros tr. exists []. now rewrite app_nil_r. Qed.

Lemma extends_raise {A} e : extends (@raise A e).
Proof. intros tr. exists []. now rewrite app_nil_r. Qed.

Lemma extends_lift {A} (r : result A) : extends (lift r).
Proof. intros tr. exists []. now rewrite app_nil_r. Qed.

Lemma extends_remote {A} c (f : trace -> result A) : extends (remote c f).
Proof. intros tr. now exists [c]. Qed.

Lemma extends_bind {A B} (m : M A) (k : A -> M B) :
  extends m -> (forall a, extends (k a)) -> extends (bind m k).
Proof.
  intros Hm Hk tr. unfold bind. destruct (Hm tr) as [e1 H1].
  destruct (m tr) as [[a|e] tr1]; simpl in H1; subst tr1.
  - destruct (Hk a (tr ++ e1)) as [e2 H2]. exists (e1 ++ e2).
    now rewrite H2, app_assoc.
  - now exists e1.
Qed.

Lemma extends_attempt {A} (m : M A) : extends m -> extends (attempt m).
Proof.
  intros Hm tr. unfold attempt. destruct (Hm tr) as [e1 H1].
  destruct (m tr) as [r tr1]. now exists e1.
Qed.

Lemma extends_try_except {A} (m : M A) h :
  extends m -> (forall e, extends (h e)) -> extends (try_except m h).
Proof.
  intros Hm Hh tr. unfold try_except. destruct (Hm tr) as [e1 H1].
  destruct (m tr) as [[a|e] tr1]; simpl in H1; subst tr1.
  - now exists e1.
  - destruct (Hh e (tr ++ e1)) as [e2 H2]. exists (e1 ++ e2).
    now rewrite H2, app_assoc.
Qed.

Ltac ext :=
  repeat first
    [ apply extends_ret | apply extends_raise | apply extends_lift
    | apply extends_remote
    | apply extends_attempt
    | apply extends_bind; [| intros ?]
    | apply extends_try_except; [| intros ?]
    | match goal with
      | |- extends (match ?x with _ => _ end) => destruct x
      | |- extends (if ?x then _ else _) => destruct x
      | |- extends (let _ := _ in _) => cbv zeta
      end ].

Section Ext.
Variable tm : TradingManager.
Variable w : World.

Lemma extends_rebind rb mk : extends (rebind_swap w rb mk).
Proof. unfold rebind_swap. ext. Qed.

Lemma extends_send_attempts t n l : extends (send_attempts w t n l).
Proof.
  induction l as [|i l IH]; cbn [send_attempts]; [ext|].
  unfold send. ext. exact IH.
Qed.

Lemma extends_sender t n : extends (_send_transaction_with_retry w t n).
Proof. apply extends_send_attempts. Qed.

Lemma extends_buy_submit mk sf rb wei m g p n :
  extends (buy_submit w mk sf rb wei m g p n).
Proof.
  unfold buy_submit, build, sign, send. ext; apply extends_rebind.
Qed.

Lemma extends_sell_submit mk sf rb m g p n :
  extends (sell_submit w mk sf rb m g p n).
Proof.
  unfold sell_submit, build, sign.
  ext; first [apply extends_sender | apply extends_rebind].
Qed.

(** A buy whose transaction builds and signs reaches the send. *)
Lemma buy_submit_reaches_send mk sf rb wei m g p n tr gas :
  int_scale g (Float64.lit 15 10) = Ok gas ->
  let t := {| tx_call := sf; tx_value := wei; tx_gas := gas;
              tx_gasPrice := p; tx_nonce := n |} in
  build_transaction w tr t = Ok tt ->
  sign_transaction w (tr ++ [BuildTransaction t]) t = Ok tt ->
  exists rest,
    snd (buy_submit w mk sf rb wei m g p n tr)
    = tr ++ [BuildTransaction t; SignTransaction t; SendRawTransaction t] ++ rest.
Proof.
  intros Hg t Hb Hs.
  set (k := fun s : result tx_hash =>
     match s with
      | Ok h => ret (BuySuccess h m g)
      | Raise e =>
          let msg := exn_msg e in
          if has_insufficient_output msg || has_K msg then
            let error_type :=
              if has_insufficient_output msg then INSUFFICIENT_OUTPUT_AMOUNT
              else UniswapV2_K in
            min_tokens_retry <-
              lift (int_scale m
                      (if has_K msg then Float64.lit 80 100 else Float64.lit 85 100)) ;;
            r <- attempt
                   (swap_function_retry <- rebind_swap w rb (mk min_tokens_retry) ;;
                    gas <- lift (int_scale g (Float64.lit 16 10)) ;;
                    let transaction_retry :=
                      {| tx_call := swap_function_retry; tx_value := wei;
                         tx_gas := gas; tx_gasPrice := p; tx_nonce := n |} in
                    _ <- build w transaction_retry ;;
                    _ <- sign w transaction_retry ;;
                    send w transaction_retry) ;;
            match r with
            | Ok h => ret (BuySuccess h m g)
            | Raise e2 => ret (Failure (RetryFailed error_type (exn_msg e2)))
            end
          else ret (Failure (TransactionSendError msg))
      end).
  assert (Hk : forall s, extends (k s)).
  { intros s. unfold k, build, sign, send. ext; apply extends_rebind. }
  assert (E : buy_submit w mk sf rb wei m g p n tr
              = k (send_raw_transaction w (tr ++ [BuildTransaction t; SignTransaction t]) t)
                  (tr ++ [BuildTransaction t; SignTransaction t; SendRawTransaction t])).
  { unfold buy_submit. munfold. rw Hg. fold t. rw Hb. rw Hs. tr_norm. reflexivity. }
  rewrite E.
  destruct (Hk (send_raw_transaction w (tr ++ [BuildTransaction t; SignTransaction t]) t)
               (tr ++ [BuildTransaction t; SignTransaction t; SendRawTransaction t]))
    as [rest Hr].
  exists rest. rewrite Hr. now tr_norm.
Qed.

Lemma sell_submit_reaches_send mk sf rb m g p n tr gas :
  int_scale g (Float64.lit 12 10) = Ok gas ->
  let t := {| tx_call := sf; tx_value := 0; tx_gas := gas;
              tx_gasPrice := p; tx_nonce := n |} in
  build_transaction w tr t = Ok tt ->
  sign_transaction w (tr ++ [BuildTransaction t]) t = Ok tt ->
  exists rest,
    snd (sell_submit w mk sf rb m g p n tr)
    = tr ++ [BuildTransaction t; SignTransaction t; SendRawTransaction t] ++ rest.
Proof.
  intros Hg t Hb Hs.
  rewrite (sell_submit_first w mk sf rb m g p n tr gas Hg Hb Hs). fold t.
  destruct (sender_trace w t (tr ++ [BuildTransaction t; SignTransaction t]))
    as (evs & E & Hev).
  destruct (_send_transaction_with_retry w t 3 _) as [s tr1]. simpl in E. subst tr1.
  assert (exists rest0, evs = SendRawTransaction t :: rest0) as [rest0 ->].
  { destruct Hev as [->|[->| ->]]; eauto. }
  destruct s as [h|e].
  - exists rest0. simpl. now tr_norm.
  - cbv zeta. destruct (has_K (exn_msg e) || has_insufficient_output (exn_msg e)).
    + match goal with |- context [snd (?m ?t0)] =>
        assert (X : extends m) by (unfold build, sign; ext;
                                   first [apply extends_sender | apply extends_rebind]);
        destruct (X t0) as [r2 H2]; rewrite H2 end.
      exists (rest0 ++ r2). now tr_norm.
    + exists rest0. simpl. now tr_norm.
Qed.
End Ext.

(* ================================================================== *)
(** * The gas estimation retries                                    *)
(* ================================================================== *)

Section Cascade.
Variable tm : TradingManager.
Variable w : World.

Lemma relaxed_simulation_bound rb mk value min_out m f tr :
  int_scale min_out f = Ok m ->
  bind_function w (mk m TradingContract) = Ok tt ->
  relaxed_simulation w rb mk value min_out f tr
  = (estimate_gas w tr (mk m TradingContract) value,
     tr ++ [EstimateGas (mk m TradingContract) value]).
Proof.
  intros Hs Hb. unfold relaxed_simulation, rebind_swap. munfold.
  rw Hs. rw Hb. reflexivity.
Qed.

Lemma relaxed_simulation_trace rb mk value min_out f tr :
  exists evs, snd (relaxed_simulation w rb mk value min_out f tr) = tr ++ evs
              /\ Forall is_simulation evs.
Proof.
  unfold relaxed_simulation, rebind_swap. munfold.
  destruct (int_scale min_out f) as [m|e]; cbv beta iota.
  2:{ exists []. rewrite app_nil_r. auto. }
  destruct (bind_function w (mk m TradingContract)); cbv beta iota.
  - exists [EstimateGas (mk m TradingContract) value]. split.
    + now destruct (estimate_gas w tr _ value).
    + repeat constructor. red; eauto.
  - destruct rb; cbv beta iota.
    + destruct (bind_function w (mk m Router)); cbv beta iota.
      * exists [EstimateGas (mk m Router) value]. split.
        -- now destruct (estimate_gas w tr _ value).
        -- repeat constructor. red; eauto.
      * exists []. rewrite app_nil_r. auto.
    + exists []. rewrite app_nil_r. auto.
Qed.

Lemma cascade_shallow d amount value min_out mk sf rb tr e0 e1 e2 tr1 tr2 :
  estimate_gas w tr sf value = Raise e0 ->
  classify (exn_msg e0) = PoolInvariant ->
  relaxed_simulation w rb mk value min_out (Float64.lit 70 100)
    (tr ++ [EstimateGas sf value]) = (Raise e1, tr1) ->
  relaxed_simulation w rb mk value min_out (Float64.lit 50 100) tr1 = (Raise e2, tr2) ->
  estimate_gas_with_retries w d amount value min_out mk sf rb tr
  = (Ok (inl (Failure (SevereLiquidityIssue d
                         (Float64.mul amount (Float64.lit 1 10)) amount))), tr2).
Proof.
  intros H0 Hc H1 H2. unfold estimate_gas_with_retries. munfold.
  rw H0. rw Hc. rw H1. rw H2. reflexivity.
Qed.

(** C7.  When the simulation of a trade fails on the pool invariant at
    State 0 and the relaxed simulations at 70% and at 50% fail too, the
    trade ends with the shallow-liquidity error (the [error] of the
    source's 'Severe liquidity issue' result), whose suggested amount is
    the requested amount times 0.1, and the history holds nothing but
    the simulations: no transaction is built, signed or sent. *)
Theorem liquidity_too_shallow c d amount value min_out mk sf rb tr e0 e1 e2 tr1 tr2 :
  estimate_gas w tr sf value = Raise e0 ->
  classify (exn_msg e0) = PoolInvariant ->
  relaxed_simulation w rb mk value min_out (Float64.lit 70 100)
    (tr ++ [EstimateGas sf value]) = (Raise e1, tr1) ->
  relaxed_simulation w rb mk value min_out (Float64.lit 50 100) tr1 = (Raise e2, tr2) ->
  let suggested_amount := Float64.mul amount (Float64.lit 1 10) in
  let shallow := Failure (SevereLiquidityIssue d suggested_amount amount) in
  match d with
  | Buy => buy_execute w c amount mk sf rb value min_out tr = (Ok shallow, tr2)
  | Sell => value = 0 ->
            sell_execute w c amount mk sf rb min_out tr = (Ok shallow, tr2)
  end
  /\ exists evs, tr2 = tr ++ evs /\ Forall is_simulation evs.
Proof.
  intros H0 Hc H1 H2 sug shallow. split.
  - destruct d; [| intros ->]; unfold buy_execute, sell_execute;
      unfold bind at 1;
      rewrite (cascade_shallow _ _ _ _ _ _ _ _ _ _ _ _ _ H0 Hc H1 H2); reflexivity.
  - destruct (relaxed_simulation_trace rb mk value min_out (Float64.lit 70 100)
                (tr ++ [EstimateGas sf value])) as (ev1 & E1 & F1).
    destruct (relaxed_simulation_trace rb mk value min_out (Float64.lit 50 100) tr1)
      as (ev2 & E2 & F2).
    rewrite H1 in E1. rewrite H2 in E2. simpl in E1, E2. subst tr1 tr2.
    exists ([EstimateGas sf value] ++ ev1 ++ ev2). split.
    + now rewrite <- !app_assoc.
    + apply Forall_app. split; [repeat constructor; red; eauto|].
      apply Forall_app; auto.
Qed.

(** C3 (amended).  A State 0 revert classified as an arithmetic panic
    ends the estimation with [InvalidAmounts] after that single
    simulation.  A State 0 revert classified as a pool-invariant
    violation is followed by the State 1 simulation, whose minimum is
    [int(min_out * 0.70)] for the State 0 minimum [min_out] (the
    slippage-guarded minimum, not the quoted output); the events of
    State 2, if any, come after it. *)
Theorem cascade_state_one d amount value min_out mk sf rb tr e :
  estimate_gas w tr sf value = Raise e ->
  (classify (exn_msg e) = ArithmeticPanic ->
     estimate_gas_with_retries w d amount value min_out mk sf rb tr
     = (Ok (inl (Failure InvalidAmounts)), tr ++ [EstimateGas sf value]))
  /\ (classify (exn_msg e) = PoolInvariant ->
      forall m70,
        int_scale min_out (Float64.lit 70 100) = Ok m70 ->
        bind_function w (mk m70 TradingContract) = Ok tt ->
        let state1 := EstimateGas (mk m70 TradingContract) value in
        let tr1 := tr ++ [EstimateGas sf value; state1] in
        exists evs,
          snd (estimate_gas_with_retries w d amount value min_out mk sf rb tr)
          = tr1 ++ evs
          /\ match estimate_gas w (tr ++ [EstimateGas sf value])
                     (mk m70 TradingContract) value with
             | Ok _ => evs = []
             | Raise _ =>
                 snd (relaxed_simulation w rb mk value min_out (Float64.lit 50 100) tr1)
                 = tr1 ++ evs
             end).
Proof.
  intros H0. split; intros Hc.
  - unfold estimate_gas_with_retries. munfold. rw H0. rw Hc. reflexivity.
  - intros m70 Hs Hb state1 tr1.
    pose proof (relaxed_simulation_bound rb mk value min_out m70 _
                  (tr ++ [EstimateGas sf value]) Hs Hb) as R1.
    rewrite app2 in R1. fold state1 in R1. fold tr1 in R1.
    destruct (estimate_gas w (tr ++ [EstimateGas sf value]) (mk m70 TradingContract) value)
      as [g|e1] eqn:He1.
    + exists []. split; [|reflexivity].
      unfold estimate_gas_with_retries. munfold. rw H0. rw Hc. rw R1.
      now rewrite app_nil_r.
    + destruct (relaxed_simulation_trace rb mk value min_out (Float64.lit 50 100) tr1)
        as (evs & E2 & _).
      exists evs. split; [|exact E2].
      unfold estimate_gas_with_retries. munfold. rw H0. rw Hc. rw R1.
      destruct (relaxed_simulation w rb mk value min_out (Float64.lit 50 100) tr1)
        as [[g|e2] tr2]; simpl in E2; subst; reflexivity.
Qed.

End Cascade.

(* ================================================================== *)
(** * Nonce, gas price, approval and submission                     *)
(* ================================================================== *)

Section Claims.
Variable tm : TradingManager.
Variable w : World.

Lemma resolve_nonce_pending tr n :
  get_transaction_count w tr true = Ok n ->
  resolve_nonce w tr = (Ok n, tr ++ [GetTransactionCount true]).
Proof. intros H. unfold resolve_nonce. munfold. now rw H. Qed.

Lemma resolve_nonce_confirmed tr e n :
  get_transaction_count w tr true = Raise e ->
  get_transaction_count w (tr ++ [GetTransactionCount true]) false = Ok n ->
  resolve_nonce w tr = (Ok n, tr ++ [GetTransactionCount true; GetTransactionCount false]).
Proof. intros H1 H2. unfold resolve_nonce. munfold. rw H1. rw H2. now tr_norm. Qed.

Lemma resolve_nonce_default tr e1 e2 :
  get_transaction_count w tr true = Raise e1 ->
  get_transaction_count w (tr ++ [GetTransactionCount true]) false = Raise e2 ->
  resolve_nonce w tr = (Ok 0, tr ++ [GetTransactionCount true; GetTransactionCount false]).
Proof. intros H1 H2. unfold resolve_nonce. munfold. rw H1. rw H2. now tr_norm. Qed.

(** C8.  When the allowance of the spender covers the amount, the
    approval step returns success after the allowance read alone: no
    estimate, build, sign or send is made. *)
Theorem approval_gate_noop c token user amount spender tr a :
  web3_instances tm c = true ->
  is_ok (to_checksum_address w token) = true ->
  is_ok (to_checksum_address w user) = true ->
  is_ok (to_checksum_address w spender) = true ->
  allowance w tr spender = Ok a ->
  amount <= a ->
  _ensure_token_approval_for_contract tm w c token user amount spender tr
  = (Ok AlreadyApproved, tr ++ [Allowance spender]).
Proof.
  intros Hw H1 H2 H3 Ha Hle.
  apply is_ok_inv in H1, H2, H3. destruct H1 as [x1 H1], H2 as [x2 H2], H3 as [x3 H3].
  unfold _ensure_token_approval_for_contract. munfold.
  rewrite Hw. cbn [negb]. rw H1. rw H2. rw H3. rw Ha.
  apply Z.leb_le in Hle. now rewrite Hle.
Qed.

(** The run of the approval step once the allowance is too small. *)
Lemma approval_run c token user amount spender tr a n tr4 gas :
  web3_instances tm c = true ->
  is_ok (to_checksum_address w token) = true ->
  is_ok (to_checksum_address w user) = true ->
  is_ok (to_checksum_address w spender) = true ->
  allowance w tr spender = Ok a ->
  a < amount ->
  let f := {| cc_contract := Token; cc_func := approve spender amount |} in
  bind_function w f = Ok tt ->
  let tr1 := tr ++ [Allowance spender] in
  let gas_estimate := match estimate_gas w tr1 f 0 with Ok g => g | Raise _ => 50000 end in
  let tr2 := tr1 ++ [EstimateGas f 0] in
  let price := match gas_price w tr2 with Ok p => p | Raise _ => gwei 5 end in
  resolve_nonce w (tr2 ++ [GasPrice]) = (Ok n, tr4) ->
  int_scale gas_estimate (Float64.lit 12 10) = Ok gas ->
  let t := {| tx_call := f; tx_value := 0; tx_gas := gas;
              tx_gasPrice := price; tx_nonce := n |} in
  build_transaction w tr4 t = Ok tt ->
  sign_transaction w (tr4 ++ [BuildTransaction t]) t = Ok tt ->
  _ensure_token_approval_for_contract tm w c token user amount spender tr
  = (Ok match send_raw_transaction w (tr4 ++ [BuildTransaction t; SignTransaction t]) t with
        | Ok h => ApprovalSuccessful h
        | Raise e => ApprovalError (ApprovalFailed (exn_msg e))
        end,
     tr4 ++ [BuildTransaction t; SignTransaction t; SendRawTransaction t]).
Proof.
  intros Hw H1 H2 H3 Ha Hlt f Hbind tr1 ge tr2 price Hn Hg t Hb Hs.
  apply is_ok_inv in H1, H2, H3. destruct H1 as [x1 H1], H2 as [x2 H2], H3 as [x3 H3].
  subst t price tr2 ge tr1 f.
  unfold _ensure_token_approval_for_contract. munfold.
  rewrite Hw, H1, H2, H3, Hbind. cbn [negb]. cbv beta iota. rw Ha.
  assert (Hleb : (amount <=? a) = false) by (apply Z.leb_gt; lia). rw Hleb.
  rw Hn. rw Hg. rw Hb. rw Hs.
  tr_norm. destruct (send_raw_transaction w _ _); reflexivity.
Qed.

Lemma resolve_gas_price_boost c tr p p15 :
  gas_price w tr = Ok p ->
  int_scale p (Float64.lit 15 10) = Ok p15 ->
  resolve_gas_price w c tr = (Ok p15, tr ++ [GasPrice]).
Proof. intros H1 H2. unfold resolve_gas_price. munfold. rw H1. now rw H2. Qed.

(** C9 (amended).  The approval transaction carries the nonce resolved
    like the submitter's (the pending-inclusive count, else the
    confirmed count) and, as its gas price, the chain's suggested price
    as it is, without the 150% boost of the swap. *)
Theorem approval_nonce_and_gas_price c token user amount spender tr a p n tr4 gas :
  web3_instances tm c = true ->
  is_ok (to_checksum_address w token) = true ->
  is_ok (to_checksum_address w user) = true ->
  is_ok (to_checksum_address w spender) = true ->
  allowance w tr spender = Ok a ->
  a < amount ->
  let f := {| cc_contract := Token; cc_func := approve spender amount |} in
  bind_function w f = Ok tt ->
  let tr1 := tr ++ [Allowance spender] in
  let gas_estimate := match estimate_gas w tr1 f 0 with Ok g => g | Raise _ => 50000 end in
  let tr2 := tr1 ++ [EstimateGas f 0] in
  gas_price w tr2 = Ok p ->
  resolve_nonce w (tr2 ++ [GasPrice]) = (Ok n, tr4) ->
  int_scale gas_estimate (Float64.lit 12 10) = Ok gas ->
  let t := {| tx_call := f; tx_value := 0; tx_gas := gas;
              tx_gasPrice := p; tx_nonce := n |} in
  build_transaction w tr4 t = Ok tt ->
  sign_transaction w (tr4 ++ [BuildTransaction t]) t = Ok tt ->
  snd (_ensure_token_approval_for_contract tm w c token user amount spender tr)
  = tr4 ++ [BuildTransaction t; SignTransaction t; SendRawTransaction t]
  /\ (forall tr0 k, get_transaction_count w tr0 true = Ok k ->
        resolve_nonce w tr0 = (Ok k, tr0 ++ [GetTransactionCount true]))
  /\ (forall tr0 e k, get_transaction_count w tr0 true = Raise e ->
        get_transaction_count w (tr0 ++ [GetTransactionCount true]) false = Ok k ->
        resolve_nonce w tr0
        = (Ok k, tr0 ++ [GetTransactionCount true; GetTransactionCount false])).
Proof.
  intros Hw H1 H2 H3 Ha Hlt f Hbind tr1 ge tr2 Hp Hn Hg t Hb Hs.
  split; [| split].
  - pose proof (approval_run c token user amount spender tr a n tr4 gas
                  Hw H1 H2 H3 Ha Hlt Hbind) as R.
    cbv zeta in R. fold f tr1 tr2 ge in R. rewrite Hp in R.
    specialize (R Hn Hg Hb Hs). now rewrite R.
  - apply resolve_nonce_pending.
  - apply resolve_nonce_confirmed.
Qed.

(** C10.  When both transaction-count reads fail the nonce is 0, no
    error is raised, and the buy, the sell and the approval go on to
    build, sign and send their transaction with nonce 0. *)
Theorem nonce_zero_when_both_reads_fail tr e1 e2 :
  get_transaction_count w tr true = Raise e1 ->
  get_transaction_count w (tr ++ [GetTransactionCount true]) false = Raise e2 ->
  let tr' := tr ++ [GetTransactionCount true; GetTransactionCount false] in
  resolve_nonce w tr = (Ok 0, tr')
  /\ (forall c amount mk sf rb wei min_tokens tr0 trg g p gas,
        estimate_gas_with_retries w Buy amount wei min_tokens mk sf rb tr0
        = (Ok (inr g), trg) ->
        resolve_gas_price w c trg = (Ok p, tr) ->
        int_scale g (Float64.lit 15 10) = Ok gas ->
        let t := {| tx_call := sf; tx_value := wei; tx_gas := gas;
                    tx_gasPrice := p; tx_nonce := 0 |} in
        build_transaction w tr' t = Ok tt ->
        sign_transaction w (tr' ++ [BuildTransaction t]) t = Ok tt ->
        exists rest,
          snd (buy_execute w c amount mk sf rb wei min_tokens tr0)
          = tr' ++ [BuildTransaction t; SignTransaction t; SendRawTransaction t] ++ rest)
  /\ (forall c amount mk sf rb min_native tr0 trg g p gas,
        estimate_gas_with_retries w Sell amount 0 min_native mk sf rb tr0
        = (Ok (inr g), trg) ->
        resolve_gas_price w c trg = (Ok p, tr) ->
        int_scale g (Float64.lit 12 10) = Ok gas ->
        let t := {| tx_call := sf; tx_value := 0; tx_gas := gas;
                    tx_gasPrice := p; tx_nonce := 0 |} in
        build_transaction w tr' t = Ok tt ->
        sign_transaction w (tr' ++ [BuildTransaction t]) t = Ok tt ->
        exists rest,
          snd (sell_execute w c amount mk sf rb min_native tr0)
          = tr' ++ [BuildTransaction t; SignTransaction t; SendRawTransaction t] ++ rest)
  /\ (forall c token user amount spender tra a gas,
        web3_instances tm c = true ->
        is_ok (to_checksum_address w token) = true ->
        is_ok (to_checksum_address w user) = true ->
        is_ok (to_checksum_address w spender) = true ->
        allowance w tra spender = Ok a ->
        a < amount ->
        let f := {| cc_contract := Token; cc_func := approve spender amount |} in
        bind_function w f = Ok tt ->
        let tr1 := tra ++ [Allowance spender] in
        let gas_estimate :=
          match estimate_gas w tr1 f 0 with Ok g => g | Raise _ => 50000 end in
        let tr2 := tr1 ++ [EstimateGas f 0] in
        let price := match gas_price w tr2 with Ok p => p | Raise _ => gwei 5 end in
        tr = tr2 ++ [GasPrice] ->
        int_scale gas_estimate (Float64.lit 12 10) = Ok gas ->
        let t := {| tx_call := f; tx_value := 0; tx_gas := gas;
                    tx_gasPrice := price; tx_nonce := 0 |} in
        build_transaction w tr' t = Ok tt ->
        sign_transaction w (tr' ++ [BuildTransaction t]) t = Ok tt ->
        snd (_ensure_token_approval_for_contract tm w c token user amount spender tra)
        = tr' ++ [BuildTransaction t; SignTransaction t; SendRawTransaction t]).
Proof.
  intros H1 H2 tr'.
  pose proof (resolve_nonce_default tr e1 e2 H1 H2) as Hn. fold tr' in Hn.
  split; [exact Hn|]. split; [| split].
  - intros c amount mk sf rb wei min_tokens tr0 trg g p gas Hc Hp Hg t Hb Hs.
    destruct (buy_submit_reaches_send w mk sf rb wei min_tokens g p 0 tr' gas Hg Hb Hs)
      as [rest Hr].
    exists rest. etransitivity; [| exact Hr]. f_equal. unfold buy_execute.
    unfold bind at 1. rw Hc. unfold bind at 1. rw Hp. unfold bind at 1. rw Hn.
    reflexivity.
  - intros c amount mk sf rb min_native tr0 trg g p gas Hc Hp Hg t Hb Hs.
    destruct (sell_submit_reaches_send w mk sf rb min_native g p 0 tr' gas Hg Hb Hs)
      as [rest Hr].
    exists rest. etransitivity; [| exact Hr]. f_equal. unfold sell_execute.
    unfold bind at 1. rw Hc. unfold bind at 1. rw Hp. unfold bind at 1. rw Hn.
    reflexivity.
  - intros c token user amount spender tra a gas Hw C1 C2 C3 Ha Hlt f Hbind
           tr1 ge tr2 price Htr Hg t Hb Hs.
    rewrite Htr in Hn.
    pose proof (approval_run c token user amount spender tra a 0 tr' gas
                  Hw C1 C2 C3 Ha Hlt Hbind Hn Hg Hb Hs) as R.
    now rewrite R.
Qed.

(** C4 (amended).  On a sell, a send answered "nonce too low" is
    repeated after a 2 second sleep, up to 3 sends in all, each of the
    same signed transaction with its nonce unchanged and no nonce read
    in between; a later success ends the sell with success, and three
    such answers end it with the "Nonce issue after 3 attempts" error. *)
Theorem nonce_too_low_resends_same_transaction mk sf rb min_native ge gp nonce tr gas e1 :
  int_scale ge (Float64.lit 12 10) = Ok gas ->
  let t := {| tx_call := sf; tx_value := 0; tx_gas := gas;
              tx_gasPrice := gp; tx_nonce := nonce |} in
  let s := SendRawTransaction t in
  let tr0 := tr ++ [BuildTransaction t; SignTransaction t] in
  build_transaction w tr t = Ok tt ->
  sign_transaction w (tr ++ [BuildTransaction t]) t = Ok tt ->
  send_raw_transaction w tr0 t = Raise e1 ->
  has_nonce_too_low (exn_msg e1) = true ->
  (forall h, send_raw_transaction w (tr0 ++ [s; Sleep 2]) t = Ok h ->
     sell_submit w mk sf rb min_native ge gp nonce tr
     = (Ok (SellSuccess h ge), tr0 ++ [s; Sleep 2; s]))
  /\ (forall e2 e3,
        send_raw_transaction w (tr0 ++ [s; Sleep 2]) t = Raise e2 ->
        has_nonce_too_low (exn_msg e2) = true ->
        send_raw_transaction w (tr0 ++ [s; Sleep 2; s; Sleep 2]) t = Raise e3 ->
        has_nonce_too_low (exn_msg e3) = true ->
        let conflict := exn_msg (nonce_issue 3 (exn_msg e3)) in
        has_K conflict || has_insufficient_output conflict = false ->
        sell_submit w mk sf rb min_native ge gp nonce tr
        = (Ok (Failure (SellTransactionError conflict)),
           tr0 ++ [s; Sleep 2; s; Sleep 2; s])).
Proof.
  intros Hg t s tr0 Hb Hs H1 N1. split.
  - intros h H2.
    rewrite (sell_submit_first w mk sf rb min_native ge gp nonce tr gas Hg Hb Hs).
    fold t tr0.
    now rewrite (sender_second_try w t tr0 e1 h H1 N1 H2).
  - intros e2 e3 H2 N2 H3 N3 conflict HK.
    rewrite (sell_submit_first w mk sf rb min_native ge gp nonce tr gas Hg Hb Hs).
    fold t tr0.
    rewrite (sender_exhausted w t tr0 e1 e2 e3 H1 N1 H2 N2 H3 N3).
    cbv zeta. fold conflict. now rewrite HK.
Qed.

Lemma rebind_swap_run rb mk f tr :
  rebinds w rb mk f -> rebind_swap w rb mk tr = (Ok f, tr).
Proof.
  unfold rebind_swap. munfold.
  intros [[H ->]|(H & -> & Hr & ->)].
  - now rw H.
  - destruct (bind_function w (mk TradingContract)); [discriminate|].
    cbv beta iota. now rw Hr.
Qed.

(** One run of the sender with three attempts. *)
Lemma sender_report t tr :
  exists evs,
    snd (_send_transaction_with_retry w t 3 tr) = tr ++ evs
    /\ resends t evs
    /\ sent_once t (fst (_send_transaction_with_retry w t 3 tr)) (answered w tr evs)
    /\ ((1 < count_sends evs)%nat ->
        exists e1, send_raw_transaction w tr t = Raise e1
                   /\ has_nonce_too_low (exn_msg e1) = true).
Proof.
  unfold _send_transaction_with_retry, resends. cbn [seq send_attempts].
  munfold. cbn [Nat.ltb Nat.leb Nat.sub]. cbv zeta.
  destruct (send_raw_transaction w tr t) as [h|e1] eqn:H1; cbv beta iota.
  { exists [SendRawTransaction t]. cbn [fst snd answered app]. rewrite H1.
    split; [reflexivity|]. split; [left; reflexivity|]. split; [reflexivity|].
    cbn. lia. }
  destruct (has_nonce_too_low (exn_msg e1)) eqn:N1; cbv beta iota.
  2:{ exists [SendRawTransaction t]. cbn [fst snd answered app]. rewrite H1.
      split; [reflexivity|]. split; [left; reflexivity|]. split; [reflexivity|].
      cbn. lia. }
  rewrite !app2.
  destruct (send_raw_transaction w (tr ++ [SendRawTransaction t; Sleep 2]) t)
    as [h|e2] eqn:H2; cbv beta iota.
  { exists [SendRawTransaction t; Sleep 2; SendRawTransaction t].
    cbn [fst snd answered app]. rewrite H1. tr_norm. rewrite H2.
    split; [reflexivity|]. split; [right; left; reflexivity|]. split; [reflexivity|].
    eauto. }
  destruct (has_nonce_too_low (exn_msg e2)) eqn:N2; cbv beta iota.
  2:{ exists [SendRawTransaction t; Sleep 2; SendRawTransaction t].
      cbn [fst snd answered app]. rewrite H1. tr_norm. rewrite H2.
      split; [reflexivity|]. split; [right; left; reflexivity|]. split; [reflexivity|].
      eauto. }
  exists [SendRawTransaction t; Sleep 2; SendRawTransaction t; Sleep 2; SendRawTransaction t].
  tr_norm.
  assert (Hans : forall r3,
            send_raw_transaction w
              (tr ++ [SendRawTransaction t; Sleep 2; SendRawTransaction t; Sleep 2]) t = r3 ->
            answered w tr
              [SendRawTransaction t; Sleep 2; SendRawTransaction t; Sleep 2;
               SendRawTransaction t]
            = match r3 with Ok h => [(t, h)] | Raise _ => [] end).
  { intros r3 H3. cbn [answered app]. rewrite H1. tr_norm. rewrite H2. tr_norm.
    rewrite H3. destruct r3; reflexivity. }
  rewrite (Hans _ eq_refl).
  destruct (send_raw_transaction w
              (tr ++ [SendRawTransaction t; Sleep 2; SendRawTransaction t; Sleep 2]) t)
    as [h|e3] eqn:H3; cbv beta iota.
  - cbn [fst snd]. split; [reflexivity|]. split; [right; right; reflexivity|].
    split; [reflexivity | eauto].
  - destruct (has_nonce_too_low (exn_msg e3)); cbv beta iota; cbn [fst snd];
      (split; [reflexivity|]); (split; [right; right; reflexivity|]);
      (split; [reflexivity | eauto]).
Qed.

(** C5 (amended).  A send rejected with the pool-invariant or the
    insufficient-output signature makes the submitter rebuild the swap
    with the minimum scaled by 0.80 (pool invariant) or 0.85
    (insufficient output), on the trading contract or on the router,
    and submit the rebuilt transaction without a second rebuild.  A buy
    sends it exactly once.  A sell hands it once to the sender, which
    sends it one to three times, again only after "nonce too low".
    What the resubmission answers ends the trade: success with the hash
    the node gave to the rebuilt transaction, or the 'Retry failed'
    result with nothing taken by the node. *)
Theorem send_time_rejection_resubmits_rebuilt_swap mk sf rb min_out ge gp nonce tr :
  (forall wei gas e m' f g16,
     int_scale ge (Float64.lit 15 10) = Ok gas ->
     let t := {| tx_call := sf; tx_value := wei; tx_gas := gas;
                 tx_gasPrice := gp; tx_nonce := nonce |} in
     build_transaction w tr t = Ok tt ->
     sign_transaction w (tr ++ [BuildTransaction t]) t = Ok tt ->
     let tr1 := tr ++ [BuildTransaction t; SignTransaction t; SendRawTransaction t] in
     send_raw_transaction w (tr ++ [BuildTransaction t; SignTransaction t]) t = Raise e ->
     let msg := exn_msg e in
     has_insufficient_output msg || has_K msg = true ->
     int_scale min_out (if has_K msg then Float64.lit 80 100 else Float64.lit 85 100)
     = Ok m' ->
     rebinds w rb (mk m') f ->
     int_scale ge (Float64.lit 16 10) = Ok g16 ->
     let t' := {| tx_call := f; tx_value := wei; tx_gas := g16;
                  tx_gasPrice := gp; tx_nonce := nonce |} in
     build_transaction w tr1 t' = Ok tt ->
     sign_transaction w (tr1 ++ [BuildTransaction t']) t' = Ok tt ->
     buy_submit w mk sf rb wei min_out ge gp nonce tr
     = (Ok match send_raw_transaction w
                   (tr1 ++ [BuildTransaction t'; SignTransaction t']) t' with
           | Ok h => BuySuccess h min_out ge
           | Raise e2 =>
               Failure (RetryFailed
                          (if has_insufficient_output msg
                           then INSUFFICIENT_OUTPUT_AMOUNT else UniswapV2_K)
                          (exn_msg e2))
           end,
        tr1 ++ [BuildTransaction t'; SignTransaction t'; SendRawTransaction t']))
  /\ (forall gas e tr1 m' f g16,
        int_scale ge (Float64.lit 12 10) = Ok gas ->
        let t := {| tx_call := sf; tx_value := 0; tx_gas := gas;
                    tx_gasPrice := gp; tx_nonce := nonce |} in
        build_transaction w tr t = Ok tt ->
        sign_transaction w (tr ++ [BuildTransaction t]) t = Ok tt ->
        let tr0 := tr ++ [BuildTransaction t; SignTransaction t] in
        _send_transaction_with_retry w t 3 tr0 = (Raise e, tr1) ->
        let msg := exn_msg e in
        has_K msg || has_insufficient_output msg = true ->
        int_scale min_out (if has_K msg then Float64.lit 80 100 else Float64.lit 85 100)
        = Ok m' ->
        rebinds w rb (mk m') f ->
        int_scale ge (Float64.lit 16 10) = Ok g16 ->
        let t' := {| tx_call := f; tx_value := 0; tx_gas := g16;
                     tx_gasPrice := gp; tx_nonce := nonce |} in
        build_transaction w tr1 t' = Ok tt ->
        sign_transaction w (tr1 ++ [BuildTransaction t']) t' = Ok tt ->
        let tr2 := tr1 ++ [BuildTransaction t'; SignTransaction t'] in
        exists evs1 evs2 res,
          tr1 = tr0 ++ evs1 /\ resends t evs1 /\ answered w tr0 evs1 = []
          /\ sell_submit w mk sf rb min_out ge gp nonce tr = (Ok res, tr2 ++ evs2)
          /\ resends t' evs2
          /\ ((1 < count_sends evs2)%nat ->
              exists e1, send_raw_transaction w tr2 t' = Raise e1
                         /\ has_nonce_too_low (exn_msg e1) = true)
          /\ match res with
             | SellSuccess h g => g = ge /\ answered w tr2 evs2 = [(t', h)]
             | Failure err =>
                 (exists msg2,
                     err = RetryFailed (if has_K msg then UniswapV2_K
                                        else INSUFFICIENT_OUTPUT_AMOUNT) msg2)
                 /\ answered w tr2 evs2 = []
             | BuySuccess _ _ _ => False
             end).
Proof.
  split.
  - intros wei gas e m' f g16 Hg t Hb Hs tr1 Hsend msg Hsig Hm Hbind Hg16 t' Hb' Hs'.
    subst tr1 msg. unfold buy_submit.
    unfold bind at 1, attempt at 1. munfold.
    rw Hg. fold t. rw Hb. rw Hs. tr_norm. rw Hsend. rw Hsig. rw Hm.
    pose proof (rebind_swap_run rb (mk m') f
                  (tr ++ [BuildTransaction t; SignTransaction t; SendRawTransaction t])
                  Hbind) as Hre.
    unfold bind, lift, attempt, ret in Hre |- *. rewrite Hre. cbv beta iota.
    rw Hg16. fold t'. tr_norm. cbn [app] in Hb', Hs'.
    revert Hb' Hs'. tr_norm. intros Hb' Hs'. rw Hb'. tr_norm. rw Hs'. tr_norm.
    destruct (send_raw_transaction w _ t'); reflexivity.
  - intros gas e tr1 m' f g16 Hg t Hb Hs tr0 Hsend msg Hsig Hm Hbind Hg16 t' Hb' Hs' tr2.
    destruct (sender_report t tr0) as (evs1 & E1 & R1 & A1 & _).
    rewrite Hsend in E1, A1. cbn [fst snd sent_once] in E1, A1.
    destruct (sender_report t' tr2) as (evs2 & E2 & R2 & A2 & N2).
    exists evs1, evs2.
    rewrite (sell_submit_first w mk sf rb min_out ge gp nonce tr gas Hg Hb Hs).
    fold t. fold tr0. rewrite Hsend. cbv zeta. fold msg. rewrite Hsig.
    unfold bind at 1, lift at 1. rw Hm.
    unfold bind at 1, attempt at 1. unfold bind at 1.
    rewrite (rebind_swap_run rb (mk m') f tr1 Hbind). cbv beta iota.
    munfold. rw Hg16. fold t'. rw Hb'. rw Hs'. tr_norm. fold tr2.
    destruct (_send_transaction_with_retry w t' 3 tr2) as [[h|e2] tr3];
      cbn [fst snd sent_once] in E2, A2; subst tr3; cbv beta iota.
    + exists (SellSuccess h ge). repeat split; auto.
    + eexists (Failure _). repeat split; auto. eexists. reflexivity.
Qed.
End Claims.

(* ================================================================== *)
(** * Quotes                                                        *)
(* ================================================================== *)

Section Quote.
Variable tm : TradingManager.
Variable w : World.







End Quote.

(* ================================================================== *)
(** * Binary64 rounding                                             *)
(* ================================================================== *)

Lemma fexp53_eq e : fexp 53 1024 e = fexp53 e.
Proof. reflexivity. Qed.

Lemma fexp53_mono a b : a <= b -> fexp53 a <= fexp53 b.
Proof. unfold fexp53. lia. Qed.

Lemma digits2_size m : digits2_pos m = Pos.size m.
Proof. induction m; simpl; congruence. Qed.

Lemma Zdigits2_nonneg m : 0 <= Zdigits2 m.
Proof. destruct m; simpl; lia. Qed.

(** [2^(d-1) <= m < 2^d] for [d] the number of binary digits of [m]. *)
Lemma Zdigits2_bounds m :
  0 < m -> 2 ^ (Zdigits2 m - 1) <= m < 2 ^ Zdigits2 m.
Proof.
  destruct m as [|p|p]; try lia. intros _. cbn [Zdigits2]. rewrite digits2_size.
  pose proof (Pos.size_gt p) as Hgt. pose proof (Pos.size_le p) as Hle.
  apply Pos2Z.pos_lt_pos in Hgt. apply Pos2Z.pos_le_pos in Hle.
  rewrite Pos2Z.inj_pow in Hgt, Hle. change (Z.pos p~0) with (2 * Z.pos p) in Hle.
  split; [|exact Hgt].
  replace (Z.pos (Pos.size p)) with (Z.succ (Z.pos (Pos.size p) - 1)) in Hle by lia.
  rewrite Z.pow_succ_r in Hle by lia. lia.
Qed.

Lemma Zdigits2_pos m : 0 < m -> 0 < Zdigits2 m.
Proof. destruct m; simpl; lia. Qed.

(** The digit count from a bracketing by powers of two. *)
Lemma Zdigits2_unique m d :
  0 < d -> 2 ^ (d - 1) <= m < 2 ^ d -> Zdigits2 m = d.
Proof.
  intros Hd [H1 H2].
  assert (Hm : 0 < m) by (pose proof (Z.pow_pos_nonneg 2 (d - 1)); lia).
  destruct (Zdigits2_bounds m Hm) as [B1 B2].
  pose proof (Zdigits2_pos m Hm) as Hp.
  destruct (Z.lt_trichotomy (Zdigits2 m) d) as [L|[L|L]]; [|exact L|].
  - assert (2 ^ Zdigits2 m <= 2 ^ (d - 1)) by (apply Z.pow_le_mono_r; lia). lia.
  - assert (2 ^ d <= 2 ^ (Zdigits2 m - 1)) by (apply Z.pow_le_mono_r; lia). lia.
Qed.

Lemma Zdigits2_le m d : 0 <= m -> 0 <= d -> m < 2 ^ d -> Zdigits2 m <= d.
Proof.
  intros Hm Hd H. destruct (Z.eq_dec m 0) as [->|]; [simpl; lia|].
  destruct (Zdigits2_bounds m ltac:(lia)) as [B1 _].
  destruct (Z_le_gt_dec (Zdigits2 m) d); [lia|].
  assert (2 ^ d <= 2 ^ (Zdigits2 m - 1)) by (apply Z.pow_le_mono_r; lia). lia.
Qed.

Lemma Zdigits2_ge m d : 0 <= d -> 2 ^ d <= m -> d + 1 <= Zdigits2 m.
Proof.
  intros Hd H.
  assert (Hm : 0 < m) by (pose proof (Z.pow_pos_nonneg 2 d); lia).
  destruct (Zdigits2_bounds m Hm) as [_ B2].
  destruct (Z_le_gt_dec (d + 1) (Zdigits2 m)); [lia|].
  assert (2 ^ Zdigits2 m <= 2 ^ d) by (apply Z.pow_le_mono_r; [lia|]; pose proof (Zdigits2_nonneg m); lia).
  lia.
Qed.

Lemma Zdigits2_mono a b : 0 <= a <= b -> Zdigits2 a <= Zdigits2 b.
Proof.
  intros [Ha Hab]. destruct (Z.eq_dec a 0) as [->|]; [apply Zdigits2_nonneg|].
  destruct (Zdigits2_bounds b ltac:(lia)) as [_ B2].
  apply Zdigits2_le; try lia. apply Zdigits2_nonneg.
Qed.

(** Digits of a shifted mantissa. *)
Lemma Zdigits2_mul_pow2 m k : 0 < m -> 0 <= k -> Zdigits2 (m * 2 ^ k) = Zdigits2 m + k.
Proof.
  intros Hm Hk. destruct (Zdigits2_bounds m Hm) as [B1 B2].
  pose proof (Zdigits2_pos m Hm).
  apply Zdigits2_unique; [lia|].
  replace (Zdigits2 m + k - 1) with ((Zdigits2 m - 1) + k) by lia.
  rewrite !Z.pow_add_r by lia.
  pose proof (Z.pow_pos_nonneg 2 k ltac:(lia) Hk). split; nia.
Qed.

Lemma Zdigits2_div_pow2 m k :
  0 <= m -> 0 <= k -> Zdigits2 (m / 2 ^ k) = Z.max 0 (Zdigits2 m - k).
Proof.
  intros Hm Hk.
  pose proof (Z.pow_pos_nonneg 2 k ltac:(lia) Hk) as Hp.
  destruct (Z.eq_dec m 0) as [->|Hne].
  { rewrite Z.div_0_l by lia. simpl. lia. }
  destruct (Zdigits2_bounds m ltac:(lia)) as [B1 B2].
  destruct (Z_le_gt_dec (Zdigits2 m) k) as [L|G].
  - assert (m < 2 ^ k).
    { assert (2 ^ Zdigits2 m <= 2 ^ k) by (apply Z.pow_le_mono_r; lia). lia. }
    rewrite Z.div_small by lia. simpl. lia.
  - rewrite Z.max_r by lia. apply Zdigits2_unique; [lia|]. split.
    + apply Z.div_le_lower_bound; [lia|].
      rewrite <- Z.pow_add_r by lia. now replace (k + (Zdigits2 m - k - 1)) with (Zdigits2 m - 1) by lia.
    + apply Z.div_lt_upper_bound; [lia|].
      rewrite <- Z.pow_add_r by lia. now replace (k + (Zdigits2 m - k)) with (Zdigits2 m) by lia.
Qed.

Lemma shr_1_spec m r s :
  0 <= m ->
  shr_1 {| shr_m := m; shr_r := r; shr_s := s |}
  = {| shr_m := m / 2; shr_r := Z.odd m; shr_s := r || s |}.
Proof.
  intros Hm. rewrite <- Z.div2_div.
  destruct m as [|[p|p|]|p]; try lia; reflexivity.
Qed.

Lemma mod_nonzero_compose a b c :
  0 <= a -> 0 < b -> 0 < c -> (a / b) mod c <> 0 -> a mod (b * c) <> 0.
Proof.
  intros Ha Hb Hc H. rewrite Z.rem_mul_r by lia.
  pose proof (Z.mod_pos_bound a b Hb). pose proof (Z.mod_pos_bound (a / b) c Hc). nia.
Qed.

Lemma pow2_pos k : 0 <= k -> 0 < 2 ^ k.
Proof. intros. apply Z.pow_pos_nonneg; lia. Qed.

(** [p] right shifts: the mantissa is divided by [2^p], and the round
    bit is only set when bits were lost. *)
Lemma iter_shr_spec p : forall rec,
  0 <= shr_m rec ->
  shr_m (SpecFloat.iter_pos shr_1 p rec) = shr_m rec / 2 ^ Z.pos p
  /\ (shr_r (SpecFloat.iter_pos shr_1 p rec) = true -> shr_m rec mod 2 ^ Z.pos p <> 0).
Proof.
  induction p as [p IH|p IH|]; intros [m r s] Hm; cbn [SpecFloat.iter_pos shr_m] in *.
  - (* 2p+1 *)
    rewrite shr_1_spec by exact Hm.
    set (r0 := {| shr_m := m / 2; shr_r := Z.odd m; shr_s := r || s |}).
    assert (H0 : 0 <= shr_m r0) by (cbn; apply Z.div_pos; lia).
    destruct (IH r0 H0) as [E1 _]. cbn [shr_m r0] in E1.
    set (r1 := SpecFloat.iter_pos shr_1 p r0) in *.
    assert (H1 : 0 <= shr_m r1).
    { rewrite E1. apply Z.div_pos; [apply Z.div_pos; lia | apply pow2_pos; lia]. }
    destruct (IH r1 H1) as [E2 R2]. rewrite E1 in E2, R2.
    pose proof (pow2_pos (Z.pos p) ltac:(lia)) as Hp.
    assert (Epow : 2 ^ Z.pos p~1 = (2 * 2 ^ Z.pos p) * 2 ^ Z.pos p).
    { assert (E : Z.pos p~1 = 1 + Z.pos p + Z.pos p) by lia.
      rewrite E. rewrite !Z.pow_add_r by lia. now rewrite Z.pow_1_r. }
    split.
    + rewrite E2, !Z.div_div by lia. f_equal. rewrite Epow. ring.
    + intros Hr. specialize (R2 Hr). rewrite Epow.
      apply mod_nonzero_compose; try lia.
      rewrite <- Z.div_div by lia. exact R2.
  - (* 2p *)
    destruct (IH {| shr_m := m; shr_r := r; shr_s := s |} Hm) as [E1 _].
    cbn [shr_m] in E1.
    set (r1 := SpecFloat.iter_pos shr_1 p _) in *.
    pose proof (pow2_pos (Z.pos p) ltac:(lia)) as Hp.
    assert (H1 : 0 <= shr_m r1) by (rewrite E1; apply Z.div_pos; lia).
    destruct (IH r1 H1) as [E2 R2]. rewrite E1 in E2, R2.
    assert (Epow : 2 ^ Z.pos p~0 = 2 ^ Z.pos p * 2 ^ Z.pos p).
    { assert (E : Z.pos p~0 = Z.pos p + Z.pos p) by lia.
      rewrite E. now rewrite Z.pow_add_r by lia. }
    split.
    + rewrite E2, Z.div_div by lia. now rewrite Epow.
    + intros Hr. specialize (R2 Hr). rewrite Epow.
      apply mod_nonzero_compose; try lia.
  - (* 1 *)
    rewrite shr_1_spec by exact Hm. cbn [shr_m shr_r]. change (2 ^ 1) with 2.
    split; [reflexivity|]. intros Ho. rewrite Zmod_odd, Ho. lia.
Qed.

Lemma round_nearest_even_cases m (rec : shr_record) :
  shr_m rec = m ->
  round_nearest_even m (loc_of_shr_record rec) = m
  \/ (round_nearest_even m (loc_of_shr_record rec) = m + 1 /\ shr_r rec = true).
Proof.
  intros <-. destruct rec as [m r s]. cbn [shr_m shr_r].
  destruct r, s; cbn; auto. destruct (Z.even m); auto.
Qed.

(** What [binary_round_aux] returns for the rounded mantissa [M2] at
    exponent [E1]. *)
Lemma shr_record_of_loc_m m l : shr_m (shr_record_of_loc m l) = m.
Proof. destruct l as [|[]]; reflexivity. Qed.

Lemma shr_record_of_loc_r m l :
  shr_r (shr_record_of_loc m l) = true -> l = loc_Inexact Eq \/ l = loc_Inexact Gt.
Proof. destruct l as [|[]]; cbn; auto; discriminate. Qed.

Lemma second_shift sx M2 E1 :
  -1074 <= E1 -> 0 <= M2 <= 2 ^ 53 ->
  (let '(mrs, e) := shr_fexp 53 1024 M2 E1 loc_Exact in
   match shr_m mrs with
   | Z0 => S754_zero sx
   | Zpos m => if Z.leb e (Z.sub 1024 53) then S754_finite sx m e else S754_infinity sx
   | Zneg _ => S754_nan
   end) = bra_result sx M2 E1.
Proof.
  intros HE [H0 H53]. unfold shr_fexp, bra_result. rewrite fexp53_eq.
  change (Z.sub 1024 53) with 971.
  destruct (Z.eqb_spec M2 0) as [->|Hne].
  { cbn [Zdigits2]. unfold fexp53.
    destruct (Z.max (0 + E1 - 53) (-1074) - E1) eqn:Es; try lia; reflexivity. }
  destruct (Z.ltb_spec M2 (2 ^ 53)) as [Hlt|Hge].
  - assert (Hd : Zdigits2 M2 <= 53) by (apply Zdigits2_le; lia).
    unfold fexp53.
    destruct (Z.max (Zdigits2 M2 + E1 - 53) (-1074) - E1) eqn:Es; try lia;
      cbn [shr shr_record_of_loc shr_m]; destruct M2; try lia; reflexivity.
  - assert (M2 = 2 ^ 53) by lia. subst M2.
    change (Zdigits2 (2 ^ 53)) with 54. unfold fexp53.
    replace (Z.max (54 + E1 - 53) (-1074) - E1) with 1 by lia.
    cbn [shr shr_record_of_loc SpecFloat.iter_pos]. rewrite shr_1_spec by lia.
    cbn [shr_m]. change (2 ^ 53 / 2) with (Z.pos (Z.to_pos (2 ^ 52))).
    cbv beta iota. reflexivity.
Qed.

Lemma BRA_cases sx mx E l :
  0 <= mx -> E <= fexp53 (Zdigits2 mx + E) ->
  let E1 := fexp53 (Zdigits2 mx + E) in
  let n := E1 - E in
  let M1 := mx / 2 ^ n in
  exists M2,
    (M2 = M1
     \/ (M2 = M1 + 1
         /\ ((0 < n /\ mx mod 2 ^ n <> 0)
             \/ (n = 0 /\ (l = loc_Inexact Eq \/ l = loc_Inexact Gt)))))
    /\ 0 <= M1 < 2 ^ 53
    /\ binary_round_aux 53 1024 sx mx E l = bra_result sx M2 E1.
Proof.
  intros Hm Hpre E1 n M1.
  assert (HE1 : -1074 <= E1) by (unfold E1, fexp53; lia).
  assert (Hn : 0 <= n) by (unfold n; lia).
  assert (Hn_def : n = E1 - E) by reflexivity.
  assert (HM1_def : M1 = mx / 2 ^ n) by reflexivity.
  clearbody M1 n.
  assert (HM1 : 0 <= M1 < 2 ^ 53).
  { rewrite HM1_def. pose proof (pow2_pos n Hn). split; [apply Z.div_pos; lia|].
    apply Z.div_lt_upper_bound; [lia|].
    destruct (Z.eq_dec mx 0) as [->|]; [nia|].
    destruct (Zdigits2_bounds mx ltac:(lia)) as [_ B].
    rewrite <- Z.pow_add_r by lia.
    eapply Z.lt_le_trans; [exact B|]. apply Z.pow_le_mono_r; [lia|].
    rewrite Hn_def. unfold E1, fexp53. lia. }
  unfold binary_round_aux. unfold shr_fexp at 1. rewrite fexp53_eq.
  fold E1. rewrite <- Hn_def.
  assert (Hfirst : exists mrs,
             shr (shr_record_of_loc mx l) E n = (mrs, E1)
             /\ shr_m mrs = M1
             /\ (shr_r mrs = true ->
                 (0 < n /\ mx mod 2 ^ n <> 0)
                 \/ (n = 0 /\ (l = loc_Inexact Eq \/ l = loc_Inexact Gt)))).
  { unfold shr. destruct n as [|p|p] eqn:En; try lia.
    - exists (shr_record_of_loc mx l). split; [f_equal; lia|]. split.
      + rewrite shr_record_of_loc_m. rewrite HM1_def. now rewrite Z.div_1_r.
      + intros Hr. right. split; [reflexivity|]. now apply shr_record_of_loc_r in Hr.
    - destruct (iter_shr_spec p (shr_record_of_loc mx l)) as [A B].
      { now rewrite shr_record_of_loc_m. }
      rewrite shr_record_of_loc_m in A, B.
      exists (SpecFloat.iter_pos shr_1 p (shr_record_of_loc mx l)). split; [f_equal; lia|].
      split; [now rewrite HM1_def|].
      intros Hr. left. split; [lia|]. auto. }
  destruct Hfirst as (mrs & -> & Hm1 & Hr).
  destruct (round_nearest_even_cases M1 mrs Hm1) as [R|[R Hru]].
  - exists M1. split; [now left|]. split; [exact HM1|].
    rewrite Hm1, R. apply second_shift; lia.
  - exists (M1 + 1). split; [right; split; [reflexivity | auto]|]. split; [exact HM1|].
    rewrite Hm1, R. apply second_shift; lia.
Qed.

(** The result of [binary_round_aux] is canonical. *)
Lemma BRA_canonical mx E M2 :
  0 <= mx -> E <= fexp53 (Zdigits2 mx + E) ->
  let E1 := fexp53 (Zdigits2 mx + E) in
  let M1 := mx / 2 ^ (E1 - E) in
  M2 = M1 \/ M2 = M1 + 1 ->
  0 < M2 < 2 ^ 53 ->
  fexp53 (Zdigits2 M2 + E1) = E1.
Proof.
  intros Hm Hpre E1 M1 HM2 Hrange.
  assert (Hn : 0 <= E1 - E) by (unfold E1; lia).
  assert (Hd2 : Zdigits2 M2 <= 53) by (apply Zdigits2_le; lia).
  pose proof (Zdigits2_div_pow2 mx (E1 - E) Hm Hn) as Hd1. fold M1 in Hd1.
  assert (HM1 : 0 <= M1) by (apply Z.div_pos; [lia | apply pow2_pos; lia]).
  assert (Hmono : Zdigits2 M1 <= Zdigits2 M2) by (apply Zdigits2_mono; lia).
  unfold fexp53 in *. fold E1 in Hd1. lia.
Qed.

(** A positive mantissa / exponent pair in canonical form and range. *)
(** [x] is the float of sign [sx] and magnitude [m * 2^e]: a zero when
    [m = 0], a canonical finite number otherwise. *)
Lemma canon_digits m e : canon m e -> 0 < Zdigits2 m <= 53 /\ -1074 <= e.
Proof.
  intros (Hm & Hc & _). pose proof (Zdigits2_pos m Hm). unfold fexp53 in Hc. lia.
Qed.

Lemma canon_lt m e : canon m e -> m < 2 ^ 53.
Proof.
  intros H. destruct (canon_digits m e H) as [[_ Hd] _]. destruct H as (Hm & _).
  destruct (Zdigits2_bounds m Hm) as [_ B].
  eapply Z.lt_le_trans; [exact B|]. apply Z.pow_le_mono_r; lia.
Qed.

Lemma pow2_split a b : 0 <= a -> 0 <= b -> 2 ^ (a + b) = 2 ^ a * 2 ^ b.
Proof. intros. now rewrite Z.pow_add_r. Qed.

(** Rounding never goes above a representable number that bounds the
    exact value. *)
Lemma BRA_upper sx mx E l mb eb :
  0 <= mx -> E <= fexp53 (Zdigits2 mx + E) ->
  canon mb eb -> E <= eb ->
  mx <= mb * 2 ^ (eb - E) ->
  (l = loc_Inexact Eq \/ l = loc_Inexact Gt -> mx < mb * 2 ^ (eb - E)) ->
  exists m e K,
    float_is sx (binary_round_aux 53 1024 sx mx E l) m e
    /\ K <= e /\ K <= eb /\ E <= K
    /\ m * 2 ^ (e - K) <= mb * 2 ^ (eb - K).
Proof.
  intros Hm Hpre Hb HEb Hle Hstrict.
  destruct (BRA_cases sx mx E l Hm Hpre) as (M2 & HM2 & HM1 & ->).
  pose proof (BRA_canonical mx E M2 Hm Hpre) as Hcan. cbv zeta in Hcan.
  set (E1 := fexp53 (Zdigits2 mx + E)) in *.
  set (n := E1 - E) in *.
  set (M1 := mx / 2 ^ n) in *.
  assert (Hn : 0 <= n) by (unfold n; lia).
  destruct (canon_digits mb eb Hb) as [[Hdb0 Hdb] Heb].
  pose proof (canon_lt mb eb Hb) as Hmb53.
  destruct Hb as (Hmb & Hcb & Heb971).
  pose proof (pow2_pos (eb - E) ltac:(lia)) as Hpw.
  pose proof (pow2_pos n Hn) as Hpn.
  (* the bound lies on the grid of the result *)
  assert (HE1 : E1 <= eb).
  { rewrite <- Hcb. apply fexp53_mono.
    destruct (Z.eq_dec mx 0) as [->|]; [cbn; lia|].
    assert (Zdigits2 mx <= Zdigits2 mb + (eb - E)); [|lia].
    apply Zdigits2_le; try lia.
    destruct (Zdigits2_bounds mb Hmb) as [_ B].
    rewrite pow2_split by lia. nia. }
  set (U := mb * 2 ^ (eb - E1)).
  assert (HU : mb * 2 ^ (eb - E) = U * 2 ^ n).
  { unfold U. rewrite <- Z.mul_assoc, <- pow2_split by (unfold n; lia).
    do 2 f_equal. unfold n. lia. }
  assert (HM1U : M1 <= U).
  { unfold M1. apply Z.div_le_upper_bound; [lia|]. rewrite Z.mul_comm, <- HU. exact Hle. }
  assert (HM2U : M2 <= U).
  { destruct HM2 as [->|[-> Hup]]; [exact HM1U|].
    destruct (Z.eq_dec M1 U) as [Heq|]; [|lia]. exfalso.
    assert (Hmx : mx = U * 2 ^ n).
    { pose proof (Z.mul_div_le mx (2 ^ n) Hpn). fold M1 in H. nia. }
    destruct Hup as [[_ Hmod]|[Hn0 Hl]].
    - apply Hmod. rewrite Hmx. apply Z.mod_mul. lia.
    - specialize (Hstrict Hl). lia. }
  pose proof (pow2_pos (eb - E1) ltac:(lia)) as HpU.
  unfold bra_result.
  destruct (Z.eqb_spec M2 0) as [H0|H0].
  { exists 0, E1, E1. split; [left; auto|]. repeat split; lia. }
  assert (HM2pos : 0 < M2) by lia.
  destruct (Z.ltb_spec M2 (2 ^ 53)) as [Hlt|Hge].
  - destruct (Z.leb_spec E1 971) as [_|]; [|lia].
    exists M2, E1, E1. split.
    + right. split; [|reflexivity]. repeat split; try lia.
      all: try (apply Hcan; [|lia]; destruct HM2 as [->|[-> _]]; auto).
    + repeat split; try lia.
      all: try (rewrite Z.sub_diag, Z.mul_1_r; exact HM2U).
  - assert (M2 = 2 ^ 53) by lia. subst M2.
    assert (E1 < eb).
    { destruct (Z.eq_dec E1 eb) as [Heq|]; [|lia]. exfalso.
      unfold U in HM2U. rewrite Heq, Z.sub_diag, Z.mul_1_r in HM2U. lia. }
    destruct (Z.leb_spec (E1 + 1) 971) as [_|]; [|lia].
    exists (2 ^ 52), (E1 + 1), E1. split.
    + right. split; [|reflexivity]. repeat split; try lia.
      all: try (change (Zdigits2 (2 ^ 52)) with 53; unfold fexp53;
                assert (-1074 <= E1) by (unfold E1, fexp53; lia); lia).
    + repeat split; try lia.
      all: try (replace (E1 + 1 - E1) with 1 by lia;
                change (2 ^ 52 * 2 ^ 1) with (2 ^ 53); exact HM2U).
Qed.

Lemma float_is_inj sx x m e m' e' :
  float_is sx x m e -> float_is sx x m' e' -> m = m' /\ (0 < m -> e = e').
Proof.
  intros [[-> ->]|[(Hm & _) ->]] [[-> H]|[(Hm' & _) H]]; try discriminate; try lia.
  injection H as Hp He. apply Z2Pos.inj in Hp; lia.
Qed.

Lemma float_is_bra sx M2 E1 m e :
  0 <= M2 <= 2 ^ 53 ->
  float_is sx (bra_result sx M2 E1) m e ->
  (m = 0 /\ M2 = 0)
  \/ (0 < M2 < 2 ^ 53 /\ m = M2 /\ e = E1)
  \/ (M2 = 2 ^ 53 /\ m = 2 ^ 52 /\ e = E1 + 1).
Proof.
  intros HM2 H. unfold bra_result in H.
  destruct (Z.eqb_spec M2 0) as [H0|H0].
  { destruct H as [[-> _]|[(Hm & _) H]]; [auto | discriminate]. }
  destruct (Z.ltb_spec M2 (2 ^ 53)) as [Hlt|Hge].
  - destruct (E1 <=? 971); destruct H as [[-> H]|[(Hm & _) H]]; try discriminate.
    injection H as Hp He. apply Z2Pos.inj in Hp; lia.
  - destruct (E1 + 1 <=? 971); destruct H as [[-> H]|[(Hm & _) H]]; try discriminate.
    injection H as Hp He. apply (f_equal Z.pos) in Hp.
    rewrite Z2Pos.id in Hp by lia. lia.
Qed.

(** Rounding never goes below a power of two that the exact value
    reaches. *)
Lemma BRA_lower sx mx E l k m e :
  0 <= mx -> E <= fexp53 (Zdigits2 mx + E) ->
  -1074 <= k ->
  (E <= k -> 2 ^ (k - E) <= mx) ->
  (k < E -> 1 <= mx) ->
  float_is sx (binary_round_aux 53 1024 sx mx E l) m e ->
  (e <= k -> 2 ^ (k - e) <= m) /\ (k < e -> 1 <= m).
Proof.
  intros Hm Hpre Hk Hv1 Hv2.
  destruct (BRA_cases sx mx E l Hm Hpre) as (M2 & HM2 & HM1 & ->).
  set (E1 := fexp53 (Zdigits2 mx + E)) in *.
  set (n := E1 - E) in *.
  set (M1 := mx / 2 ^ n) in *.
  assert (Hn : 0 <= n) by (unfold n; lia).
  pose proof (pow2_pos n Hn) as Hpn.
  assert (Hmx : 1 <= mx).
  { destruct (Z_le_gt_dec E k); [|lia].
    pose proof (pow2_pos (k - E) ltac:(lia)). specialize (Hv1 ltac:(lia)). lia. }
  destruct (Zdigits2_bounds mx ltac:(lia)) as [Bl _].
  pose proof (Zdigits2_pos mx ltac:(lia)) as Hd.
  assert (L1 : E1 <= k -> 2 ^ (k - E1) <= M1).
  { intros HEk. unfold M1. apply Z.div_le_lower_bound; [lia|].
    rewrite <- pow2_split by lia. replace (n + (k - E1)) with (k - E) by (unfold n; lia).
    apply Hv1. lia. }
  assert (L2 : k < E1 -> 1 <= M1).
  { intros HEk. unfold M1. apply Z.div_le_lower_bound; [lia|]. rewrite Z.mul_1_r.
    eapply Z.le_trans; [|exact Bl]. apply Z.pow_le_mono_r; [lia|].
    unfold n, E1, fexp53 in *. lia. }
  assert (HM2r : M1 <= M2 <= 2 ^ 53) by (destruct HM2 as [->|[-> _]]; lia).
  intros Hf. apply float_is_bra in Hf; [|lia].
  destruct Hf as [[-> H0]|[(Hr & -> & ->)|(-> & -> & ->)]].
  - exfalso. destruct (Z_le_gt_dec E1 k).
    + pose proof (pow2_pos (k - E1) ltac:(lia)). specialize (L1 ltac:(lia)). lia.
    + specialize (L2 ltac:(lia)). lia.
  - split; intros; [specialize (L1 ltac:(lia)) | specialize (L2 ltac:(lia))]; lia.
  - split; intros; [|lia].
    specialize (L1 ltac:(lia)).
    assert (k - E1 <= 53).
    { destruct (Z_le_gt_dec (k - E1) 53); [lia|].
      assert (2 ^ 54 <= 2 ^ (k - E1)) by (apply Z.pow_le_mono_r; lia).
      change (2 ^ 54) with (2 * 2 ^ 53) in H0. lia. }
    apply Z.pow_le_mono_r; lia.
Qed.

(** ** Truncation *)

Lemma trunc_mag_spec m e : 0 < m -> Float64.trunc_mag (Z.to_pos m) e = trunc m e.
Proof.
  intros Hm. unfold Float64.trunc_mag, trunc. rewrite Z2Pos.id by lia.
  destruct e as [|p|p].
  - cbn. lia.
  - rewrite Z.shiftl_mul_pow2 by lia. reflexivity.
  - rewrite Z.shiftr_div_pow2 by lia. reflexivity.
Qed.

(** Truncation as a floor at any finer grid [2^K]. *)
Lemma trunc_scaled m e K :
  0 <= m -> K <= e -> K <= 0 -> trunc m e = (m * 2 ^ (e - K)) / 2 ^ (- K).
Proof.
  intros Hm HK HK0. unfold trunc.
  pose proof (pow2_pos (- K) ltac:(lia)) as HpK.
  destruct (Z.leb_spec 0 e) as [He|He].
  - replace (e - K) with (e + - K) by lia. rewrite pow2_split by lia.
    rewrite Z.mul_assoc, Z.div_mul by lia. reflexivity.
  - replace (- K) with ((e - K) + - e) by lia. rewrite pow2_split by lia.
    pose proof (pow2_pos (e - K) ltac:(lia)). pose proof (pow2_pos (- e) ltac:(lia)).
    rewrite (Z.mul_comm (2 ^ (e - K))), Z.div_mul_cancel_r by lia. reflexivity.
Qed.

Lemma trunc_mono m1 e1 m2 e2 K :
  0 <= m1 -> 0 <= m2 -> K <= e1 -> K <= e2 ->
  m1 * 2 ^ (e1 - K) <= m2 * 2 ^ (e2 - K) ->
  trunc m1 e1 <= trunc m2 e2.
Proof.
  intros H1 H2 K1 K2 Hle.
  set (K' := Z.min K 0).
  assert (Hs : forall m e, 0 <= m -> K <= e ->
               m * 2 ^ (e - K') = (m * 2 ^ (e - K)) * 2 ^ (K - K')).
  { intros m e Hm He. rewrite <- Z.mul_assoc, <- pow2_split by (unfold K'; lia).
    do 2 f_equal. lia. }
  rewrite (trunc_scaled m1 e1 K'), (trunc_scaled m2 e2 K') by (unfold K'; lia).
  apply Z.div_le_mono; [apply pow2_pos; unfold K'; lia|].
  rewrite (Hs m1 e1), (Hs m2 e2) by lia.
  apply Z.mul_le_mono_nonneg_r; [|exact Hle].
  pose proof (pow2_pos (K - K') ltac:(unfold K'; lia)). lia.
Qed.

Lemma trunc_nonneg m e : 0 <= m -> 0 <= trunc m e.
Proof.
  intros Hm. unfold trunc. destruct (0 <=? e) eqn:He.
  - apply Z.leb_le in He. pose proof (pow2_pos e He). nia.
  - apply Z.leb_gt in He. apply Z.div_pos; [lia | apply pow2_pos; lia].
Qed.

(** Truncation of a number that is at least 1. *)
Lemma trunc_ge_1 m e :
  0 <= m -> (e <= 0 -> 2 ^ (0 - e) <= m) -> (0 < e -> 1 <= m) -> 1 <= trunc m e.
Proof.
  intros Hm H1 H2. unfold trunc. destruct (Z.leb_spec 0 e) as [He|He].
  - destruct (Z.eq_dec e 0) as [->|].
    + specialize (H1 ltac:(lia)). cbn in *. lia.
    + specialize (H2 ltac:(lia)). pose proof (pow2_pos e He). nia.
  - specialize (H1 ltac:(lia)). replace (0 - e) with (- e) in H1 by lia.
    apply Z.div_le_lower_bound; [apply pow2_pos; lia | lia].
Qed.

Lemma canon_normal_or_subnormal m e :
  canon m e -> Zdigits2 m = 53 \/ (e = -1074 /\ Zdigits2 m <= 53).
Proof. intros (Hm & Hc & _). unfold fexp53 in Hc. lia. Qed.

Lemma Zdigits2_product a b :
  0 < a -> 0 < b -> Zdigits2 a + Zdigits2 b - 1 <= Zdigits2 (a * b).
Proof.
  intros Ha Hb.
  destruct (Zdigits2_bounds a Ha) as [A _]. destruct (Zdigits2_bounds b Hb) as [B _].
  pose proof (Zdigits2_pos a Ha). pose proof (Zdigits2_pos b Hb).
  assert (2 ^ (Zdigits2 a - 1 + (Zdigits2 b - 1)) <= a * b).
  { rewrite pow2_split by lia.
    pose proof (pow2_pos (Zdigits2 a - 1) ltac:(lia)).
    pose proof (pow2_pos (Zdigits2 b - 1) ltac:(lia)). nia. }
  apply Zdigits2_ge in H1; lia.
Qed.

(** The product of two canonical numbers is an admissible input of the
    rounding. *)
Lemma product_admissible mx ex my ey :
  canon mx ex -> canon my ey ->
  ex + ey <= fexp53 (Zdigits2 (mx * my) + (ex + ey)).
Proof.
  intros Hx Hy.
  pose proof (canon_normal_or_subnormal _ _ Hx).
  pose proof (canon_normal_or_subnormal _ _ Hy).
  destruct (canon_digits _ _ Hx) as [Dx Ex]. destruct (canon_digits _ _ Hy) as [Dy Ey].
  destruct Hx as (Hmx & _). destruct Hy as (Hmy & _).
  pose proof (Zdigits2_product mx my Hmx Hmy). unfold fexp53. lia.
Qed.

Lemma mul_finite sx sy mx ex my ey :
  0 < mx -> 0 < my ->
  Float64.mul (S754_finite sx (Z.to_pos mx) ex) (S754_finite sy (Z.to_pos my) ey)
  = binary_round_aux 53 1024 (xorb sx sy) (mx * my) (ex + ey) loc_Exact.
Proof.
  intros Hx Hy. unfold Float64.mul, SFmul.
  rewrite Pos2Z.inj_mul, !Z2Pos.id by lia. reflexivity.
Qed.

(** [x * f <= x] for [f <= 1]. *)
Lemma mul_upper mx ex mf ef :
  canon mx ex -> canon mf ef -> ef <= 0 -> mf <= 2 ^ (- ef) ->
  exists m e K,
    float_is false (Float64.mul (S754_finite false (Z.to_pos mx) ex)
                                (S754_finite false (Z.to_pos mf) ef)) m e
    /\ K <= e /\ K <= ex /\ m * 2 ^ (e - K) <= mx * 2 ^ (ex - K).
Proof.
  intros Hx Hf Hef Hle.
  pose proof (product_admissible mx ex mf ef Hx Hf) as Hadm.
  assert (Hmx : 0 < mx) by apply Hx. assert (Hmf : 0 < mf) by apply Hf.
  rewrite mul_finite by lia. cbn [xorb].
  destruct (BRA_upper false (mx * mf) (ex + ef) loc_Exact mx ex) as (m & e & K & H);
    try assumption; try lia.
  - replace (ex - (ex + ef)) with (- ef) by lia. nia.
  - intros [?|?]; discriminate.
  - exists m, e, K. intuition.
Qed.

(** [x * f >= 1] when the exact product is. *)
Lemma mul_lower mx ex mf ef m e :
  canon mx ex -> canon mf ef ->
  (ex + ef <= 0 -> 2 ^ (0 - (ex + ef)) <= mx * mf) ->
  float_is false (Float64.mul (S754_finite false (Z.to_pos mx) ex)
                              (S754_finite false (Z.to_pos mf) ef)) m e ->
  (e <= 0 -> 2 ^ (0 - e) <= m) /\ (0 < e -> 1 <= m).
Proof.
  intros Hx Hf Hv.
  pose proof (product_admissible mx ex mf ef Hx Hf) as Hadm.
  assert (Hmx : 0 < mx) by apply Hx. assert (Hmf : 0 < mf) by apply Hf.
  rewrite mul_finite by lia. cbn [xorb].
  apply BRA_lower; try assumption; try lia; try nia.
Qed.

(** ** Normalisation *)

Lemma iter_xO m d : Z.pos (Pos.iter xO m d) = Z.pos m * 2 ^ Z.pos d.
Proof.
  induction d as [|d IH] using Pos.peano_ind.
  - cbn [Pos.iter]. rewrite Pos2Z.inj_xO. change (2 ^ 1) with 2. ring.
  - rewrite Pos.iter_succ, Pos2Z.inj_xO, IH, Pos2Z.inj_succ, Z.pow_succ_r by lia. ring.
Qed.

Lemma shl_align_spec m e e' :
  let '(mz, ez) := shl_align m e e' in
  ez = Z.min e e' /\ Z.pos mz = Z.pos m * 2 ^ (e - ez).
Proof.
  unfold shl_align. destruct (e' - e) as [|d|d] eqn:Hd.
  - split; [lia|]. replace (e - e) with 0 by lia. cbn. lia.
  - split; [lia|]. replace (e - e) with 0 by lia. cbn. lia.
  - split; [lia|]. rewrite iter_xO. do 2 f_equal. lia.
Qed.

Lemma shl_align_fst m e e' :
  e' <= e -> Z.pos (fst (shl_align m e e')) = Z.pos m * 2 ^ (e - e').
Proof.
  intros H. pose proof (shl_align_spec m e e') as S.
  destruct (shl_align m e e') as [mz ez]. destruct S as [He Hm].
  cbn [fst]. rewrite Hm, He, Z.min_r by lia. reflexivity.
Qed.

(** [binary_round] feeds [binary_round_aux] an admissible input of the
    same value. *)
Lemma binary_round_BRA sx D ez :
  0 < D ->
  exists mz ez',
    binary_round 53 1024 sx (Z.to_pos D) ez = binary_round_aux 53 1024 sx mz ez' loc_Exact
    /\ ez' <= ez /\ mz = D * 2 ^ (ez - ez')
    /\ ez' <= fexp53 (Zdigits2 mz + ez')
    /\ (ez' < ez -> ez' = fexp53 (Zdigits2 mz + ez')).
Proof.
  intros HD. unfold binary_round. rewrite fexp53_eq.
  change (Z.pos (digits2_pos (Z.to_pos D))) with (Zdigits2 (Z.pos (Z.to_pos D))).
  rewrite Z2Pos.id by lia.
  pose proof (shl_align_spec (Z.to_pos D) ez (fexp53 (Zdigits2 D + ez))) as S.
  destruct (shl_align (Z.to_pos D) ez (fexp53 (Zdigits2 D + ez))) as [mz ez'].
  destruct S as [He Hm]. rewrite Z2Pos.id in Hm by lia.
  exists (Z.pos mz), ez'. split; [reflexivity|].
  assert (Hdig : Zdigits2 (Z.pos mz) + ez' = Zdigits2 D + ez).
  { rewrite Hm, Zdigits2_mul_pow2 by lia. lia. }
  rewrite Hdig. repeat split; lia.
Qed.

Lemma BRA_exact sx mx E :
  0 < mx -> E = fexp53 (Zdigits2 mx + E) -> E <= 971 ->
  binary_round_aux 53 1024 sx mx E loc_Exact = S754_finite sx (Z.to_pos mx) E.
Proof.
  intros Hm HE H971.
  destruct (BRA_cases sx mx E loc_Exact) as (M2 & HM2 & HM1 & ->); [lia|lia|].
  rewrite <- HE in *. rewrite Z.sub_diag, Z.div_1_r in *.
  assert (M2 = mx).
  { destruct HM2 as [->|[-> [[? _]|[_ [?|?]]]]]; try reflexivity; try lia; discriminate. }
  subst M2. unfold bra_result.
  destruct (Z.eqb_spec mx 0); [lia|].
  destruct (Z.ltb_spec mx (2 ^ 53)); [|lia].
  destruct (Z.leb_spec E 971); [reflexivity | lia].
Qed.

(** [float(n)] for a positive int below [2^1023]. *)
Lemma of_Z_spec n :
  0 < n < 2 ^ 1023 ->
  exists m e,
    Float64.of_Z n = S754_finite false (Z.to_pos m) e
    /\ canon m e
    /\ (2 <= n -> (e <= 1 -> 2 ^ (1 - e) <= m))
    /\ (n < 2 ^ 53 -> trunc m e = n).
Proof.
  intros [Hn Hmax]. unfold Float64.of_Z, binary_normalize.
  destruct n as [|p|p]; try lia.
  cbv beta iota.
  change (binary_round Float64.prec Float64.emax false p 0)
    with (binary_round 53 1024 false p 0).
  destruct (binary_round_BRA false (Z.pos p) 0 Hn) as (mz & ez' & Hbr & Hez & Hmz & Hadm & Hsh).
  cbn [Z.to_pos] in Hbr. rewrite Hbr. clear Hbr.
  pose proof (pow2_pos (0 - ez') ltac:(lia)) as Hp.
  assert (Hmz0 : 0 < mz) by nia.
  assert (Hc0 : canon (2 ^ 52) 971) by (repeat split; try lia; reflexivity).
  assert (Hb : mz <= 2 ^ 52 * 2 ^ (971 - ez')).
  { rewrite Hmz. replace (971 - ez') with (971 + (0 - ez')) by lia.
    rewrite pow2_split by lia.
    assert (Z.pos p <= 2 ^ 52 * 2 ^ 971) by (change (2 ^ 52 * 2 ^ 971) with (2 ^ 1023); lia).
    nia. }
  assert (Hst : loc_Exact = loc_Inexact Eq \/ loc_Exact = loc_Inexact Gt ->
                mz < 2 ^ 52 * 2 ^ (971 - ez')) by (intros [?|?]; discriminate).
  destruct (BRA_upper false mz ez' loc_Exact (2 ^ 52) 971 ltac:(lia) Hadm Hc0 ltac:(lia) Hb Hst)
    as (m & e & K & Hf & K1 & K2 & K3 & Hle).
  clear Hst.
  assert (Hv0 : ez' <= 0 -> 2 ^ (0 - ez') <= mz) by (intros _; rewrite Hmz; nia).
  destruct (BRA_lower false mz ez' loc_Exact 0 m e ltac:(lia) Hadm ltac:(lia) Hv0 ltac:(lia) Hf)
    as [L1 L2].
  destruct Hf as [[-> _]|[Hc Hx]].
  { exfalso. destruct (Z_le_gt_dec e 0).
    - specialize (L1 ltac:(lia)). pose proof (pow2_pos (0 - e) ltac:(lia)). lia.
    - specialize (L2 ltac:(lia)). lia. }
  exists m, e. split; [exact Hx|]. split; [exact Hc|]. split.
  - intros H2 He.
    assert (Hv1 : ez' <= 1 -> 2 ^ (1 - ez') <= mz).
    { intros _. rewrite Hmz. replace (1 - ez') with (1 + (0 - ez')) by lia.
      rewrite pow2_split by lia. change (2 ^ 1) with 2. nia. }
    apply (BRA_lower false mz ez' loc_Exact 1 m e ltac:(lia) Hadm ltac:(lia) Hv1 ltac:(lia));
      [right; auto | exact He].
  - intros H53.
    assert (Hd : Zdigits2 (Z.pos p) <= 53) by (apply Zdigits2_le; lia).
    assert (Hdm : Zdigits2 mz + ez' = Zdigits2 (Z.pos p) + 0).
    { rewrite Hmz, Zdigits2_mul_pow2 by lia. lia. }
    assert (HE : ez' = fexp53 (Zdigits2 mz + ez')).
    { destruct (Z.eq_dec ez' 0) as [E0|]; [|apply Hsh; lia].
      rewrite Hdm in *. unfold fexp53 in *. lia. }
    rewrite (BRA_exact false mz ez' Hmz0 HE ltac:(lia)) in Hx.
    injection Hx as Hpm He. apply Z2Pos.inj in Hpm; try lia; try apply Hc.
    subst m e. rewrite Hmz.
    rewrite (trunc_scaled _ _ ez') by lia.
    rewrite Z.sub_diag, Z.mul_1_r. replace (0 - ez') with (- ez') by lia.
    rewrite Z.div_mul by lia. reflexivity.
Qed.

Lemma canon_one : canon (2 ^ 52) (-52).
Proof. repeat split; try lia; reflexivity. Qed.

Lemma le_one_direct m e : 0 < m -> le_one m e -> e <= 0 /\ m <= 2 ^ (- e).
Proof.
  intros Hm (K & K1 & K2 & H).
  rewrite <- pow2_split in H by lia. replace (52 + (-52 - K)) with (- K) in H by lia.
  pose proof (pow2_pos (e - K) ltac:(lia)) as Hp.
  assert (He : e <= 0).
  { destruct (Z_le_gt_dec e 0); [assumption|exfalso].
    assert (2 ^ (- K) < 2 ^ (e - K)) by (apply Z.pow_lt_mono_r; lia). nia. }
  split; [exact He|].
  replace (- K) with (- e + (e - K)) in H by lia. rewrite pow2_split in H by lia.
  apply Z.mul_le_mono_pos_r in H; assumption.
Qed.

Lemma Zdigits2_div a b :
  0 <= a -> 0 < b -> Zdigits2 a - Zdigits2 b <= Zdigits2 (a / b).
Proof.
  intros Ha Hb. pose proof (Zdigits2_nonneg (a / b)).
  destruct (Z_le_gt_dec (Zdigits2 a) (Zdigits2 b)); [lia|].
  assert (Ha0 : 0 < a).
  { destruct (Z.eq_dec a 0) as [->|]; [|lia]. pose proof (Zdigits2_pos b Hb). cbn in *. lia. }
  destruct (Zdigits2_bounds a Ha0) as [A _]. destruct (Zdigits2_bounds b Hb) as [_ B].
  pose proof (Zdigits2_pos b Hb).
  assert (2 ^ (Zdigits2 a - 1 - Zdigits2 b) <= a / b).
  { apply Z.div_le_lower_bound; [lia|].
    replace (Zdigits2 a - 1) with (Zdigits2 b + (Zdigits2 a - 1 - Zdigits2 b)) in A by lia.
    rewrite pow2_split in A by lia.
    pose proof (pow2_pos (Zdigits2 a - 1 - Zdigits2 b) ltac:(lia)). nia. }
  apply Zdigits2_ge in H1; lia.
Qed.

Lemma new_location_inexact nb r c : new_location nb r = loc_Inexact c -> r <> 0.
Proof.
  unfold new_location, new_location_even, new_location_odd.
  intros H ->. destruct (Z.even nb); discriminate.
Qed.

Lemma div_core_spec m1 e1 m2 e2 :
  0 < m1 -> 0 < m2 ->
  let e' := Z.min (fexp53 (Zdigits2 m1 + e1 - (Zdigits2 m2 + e2))) (e1 - e2) in
  let s := e1 - e2 - e' in
  SFdiv_core_binary 53 1024 m1 e1 m2 e2
  = ((m1 * 2 ^ s) / m2, e', new_location m2 ((m1 * 2 ^ s) mod m2)).
Proof.
  intros H1 H2 e' s. unfold SFdiv_core_binary. rewrite fexp53_eq. fold e'. fold s.
  assert (Hs : 0 <= s) by (unfold s, e'; lia).
  assert (Hm : match s with Z.pos _ => Z.shiftl m1 s | 0 => m1 | Z.neg _ => 0 end = m1 * 2 ^ s).
  { clearbody s. destruct s as [|p|p]; try lia.
    apply Z.shiftl_mul_pow2. lia. }
  rewrite Hm. unfold Z.div, Z.modulo.
  destruct (Z.div_eucl (m1 * 2 ^ s) m2) as [q r]. reflexivity.
Qed.

Lemma hundred_eq : Float64.hundred = S754_finite false (Z.to_pos mh) (-46).
Proof. reflexivity. Qed.

Lemma one_eq : Float64.one = S754_finite false (Z.to_pos (2 ^ 52)) (-52).
Proof. reflexivity. Qed.

(** [s / 100 <= 1] for [0 < s <= 100]. *)
Lemma div_hundred_upper ms es :
  canon ms es -> (es < -46 \/ (es = -46 /\ ms <= mh)) ->
  exists m e,
    float_is false (Float64.div (S754_finite false (Z.to_pos ms) es) Float64.hundred) m e
    /\ le_one m e.
Proof.
  intros Hc Hle. rewrite hundred_eq. unfold Float64.div, SFdiv.
  change Float64.prec with 53. change Float64.emax with 1024.
  assert (Hms : 0 < ms) by apply Hc.
  rewrite !Z2Pos.id by (try assumption; reflexivity).
  pose proof (div_core_spec ms es mh (-46) Hms ltac:(reflexivity)) as Hcore.
  cbv zeta in Hcore. rewrite Hcore. clear Hcore.
  change (Zdigits2 mh) with 53.
  set (e' := Z.min (fexp53 (Zdigits2 ms + es - (53 + -46))) (es - -46)).
  set (s := es - -46 - e').
  destruct (canon_digits _ _ Hc) as [[D0 D1] E0].
  assert (He' : e' <= -53) by (unfold e', fexp53; lia).
  assert (Hs : 0 <= s) by (unfold s, e'; lia).
  pose proof (pow2_pos s Hs) as Hps.
  assert (Hq0 : 0 <= ms * 2 ^ s / mh) by (apply Z.div_pos; [nia | reflexivity]).
  assert (Hadm : e' <= fexp53 (Zdigits2 (ms * 2 ^ s / mh) + e')).
  { pose proof (Zdigits2_div (ms * 2 ^ s) mh ltac:(nia) ltac:(reflexivity)) as Hd.
    rewrite Zdigits2_mul_pow2 in Hd by lia. change (Zdigits2 mh) with 53 in Hd.
    transitivity (fexp53 (Zdigits2 ms + es - (53 + -46))); [unfold e'; lia|].
    apply fexp53_mono. unfold s in Hd |- *. lia. }
  assert (Hnum : ms * 2 ^ s <= mh * 2 ^ (- e')).
  { replace (- e') with ((-46 - es) + s) by (unfold s; lia).
    rewrite pow2_split by lia.
    assert (ms <= mh * 2 ^ (-46 - es)).
    { destruct Hle as [Hlt|[-> Hm]].
      - pose proof (canon_lt _ _ Hc).
        assert (2 ^ 1 <= 2 ^ (-46 - es)) by (apply Z.pow_le_mono_r; lia).
        change (2 ^ 1) with 2 in *. unfold mh. change (2 ^ 53) with 9007199254740992 in *. nia.
      - change (-46 - -46) with 0. rewrite Z.pow_0_r. lia. }
    nia. }
  assert (Hb : ms * 2 ^ s / mh <= 2 ^ 52 * 2 ^ (-52 - e')).
  { rewrite <- pow2_split by lia. replace (52 + (-52 - e')) with (- e') by lia.
    apply Z.div_le_upper_bound; [reflexivity|]. lia. }
  assert (Hst : forall l, l = new_location mh ((ms * 2 ^ s) mod mh) ->
                l = loc_Inexact Eq \/ l = loc_Inexact Gt ->
                ms * 2 ^ s / mh < 2 ^ 52 * 2 ^ (-52 - e')).
  { intros l -> Hl.
    assert (Hr : (ms * 2 ^ s) mod mh <> 0).
    { destruct Hl as [Hl|Hl]; eapply new_location_inexact; exact Hl. }
    rewrite <- pow2_split by lia. replace (52 + (-52 - e')) with (- e') by lia.
    pose proof (Z.div_mod (ms * 2 ^ s) mh ltac:(discriminate)).
    pose proof (Z.mod_pos_bound (ms * 2 ^ s) mh ltac:(reflexivity)).
    apply Z.div_lt_upper_bound; [reflexivity|].
    destruct (Z.eq_dec (ms * 2 ^ s) (mh * 2 ^ (- e'))) as [E|]; [|lia].
    exfalso. apply Hr. rewrite E, Z.mul_comm. apply Z.mod_mul. discriminate. }
  destruct (BRA_upper false (ms * 2 ^ s / mh) e' (new_location mh ((ms * 2 ^ s) mod mh))
              (2 ^ 52) (-52) Hq0 Hadm canon_one ltac:(lia) Hb (Hst _ eq_refl))
    as (m & e & K & Hf & K1 & K2 & K3 & Hle').
  exists m, e. split; [exact Hf|]. exists K. auto.
Qed.

(** [0 <= 1 - q <= 1] for [0 < q <= 1]. *)
Lemma sub_one_upper mq eq :
  canon mq eq -> le_one mq eq ->
  exists m e,
    float_is false (Float64.sub Float64.one (S754_finite false (Z.to_pos mq) eq)) m e
    /\ le_one m e.
Proof.
  intros Hc (K0 & K1 & K2 & Hle). rewrite one_eq. unfold Float64.sub, SFsub.
  change Float64.prec with 53. change Float64.emax with 1024.
  assert (Hmq : 0 < mq) by apply Hc.
  set (ez := Z.min (-52) eq).
  rewrite !shl_align_fst by (unfold ez; lia).
  rewrite !Z2Pos.id by (try assumption; reflexivity).
  cbn [cond_Zopp].
  set (D := 2 ^ 52 * 2 ^ (-52 - ez) - mq * 2 ^ (eq - ez)).
  assert (HK : K0 <= ez) by (unfold ez; lia).
  pose proof (pow2_pos (ez - K0) ltac:(lia)) as HpK.
  pose proof (pow2_pos (eq - ez) ltac:(unfold ez; lia)) as Hp1.
  pose proof (pow2_pos (-52 - ez) ltac:(unfold ez; lia)) as Hp2.
  assert (HD : 0 <= D).
  { unfold D.
    replace (eq - K0) with ((eq - ez) + (ez - K0)) in Hle by lia.
    replace (-52 - K0) with ((-52 - ez) + (ez - K0)) in Hle by lia.
    rewrite !pow2_split in Hle by (unfold ez; lia).
    rewrite !Z.mul_assoc in Hle. apply Z.mul_le_mono_pos_r in Hle; [lia | assumption]. }
  assert (HDle : D <= 2 ^ 52 * 2 ^ (-52 - ez)) by (unfold D; nia).
  unfold binary_normalize.
  destruct D as [|p|p] eqn:ED; try lia.
  - exists 0, (-52). split; [left; auto|]. exists (-52). cbn. lia.
  - destruct (binary_round_BRA false (Z.pos p) ez ltac:(lia))
      as (mz & ez' & Hbr & Hez & Hmz & Hadm & _).
    cbn [Z.to_pos] in Hbr. rewrite Hbr. clear Hbr.
    pose proof (pow2_pos (ez - ez') ltac:(lia)) as Hp3.
    assert (Hb : mz <= 2 ^ 52 * 2 ^ (-52 - ez')).
    { rewrite Hmz. replace (-52 - ez') with ((-52 - ez) + (ez - ez')) by lia.
      rewrite pow2_split by (unfold ez; lia). nia. }
    assert (Hst : loc_Exact = loc_Inexact Eq \/ loc_Exact = loc_Inexact Gt ->
                  mz < 2 ^ 52 * 2 ^ (-52 - ez')) by (intros [?|?]; discriminate).
    destruct (BRA_upper false mz ez' loc_Exact (2 ^ 52) (-52) ltac:(nia) Hadm canon_one
                ltac:(unfold ez in *; lia) Hb Hst)
      as (m & e & K & Hf & K3 & K4 & K5 & Hle').
    exists m, e. split; [exact Hf|]. exists K. auto.
Qed.

Lemma lit_95_eq : Float64.lit 95 100 = S754_finite false (Z.to_pos m95) (-53).
Proof. vm_compute. reflexivity. Qed.

Lemma canon_95 : canon m95 (-53).
Proof. repeat split; try lia; reflexivity. Qed.

Lemma le_one_95 : le_one m95 (-53).
Proof. exists (-53). repeat split; try lia. vm_compute. discriminate. Qed.

Lemma le_one_one : le_one (2 ^ 52) (-52).
Proof. exists (-52). repeat split; try lia. Qed.

Lemma leb_finite m1 e1 m2 e2 :
  Float64.leb (S754_finite false m1 e1) (S754_finite false m2 e2) = true ->
  e1 < e2 \/ (e1 = e2 /\ Z.pos m1 <= Z.pos m2).
Proof.
  unfold Float64.leb, SFleb, SFcompare.
  destruct (Z.compare_spec e1 e2) as [E|E|E]; try discriminate; [|lia].
  change (Pos.compare_cont Eq m1 m2) with (Pos.compare m1 m2).
  destruct (Pos.compare_spec m1 m2); try discriminate; lia.
Qed.

(** A valid binary64 between 0 and 100. *)
Lemma slippage_cases s :
  valid_binary Float64.prec Float64.emax s = true ->
  Float64.leb Float64.zero s = true ->
  Float64.leb s Float64.hundred = true ->
  (exists b, s = S754_zero b)
  \/ (exists ms es, s = S754_finite false (Z.to_pos ms) es /\ canon ms es
                    /\ (es < -46 \/ (es = -46 /\ ms <= mh))).
Proof.
  intros Hv H0 H100. rewrite hundred_eq in H100.
  destruct s as [b|b| |b m e]; try discriminate.
  - left. eauto.
  - destruct b; try discriminate.
  - destruct b; try discriminate. right. exists (Z.pos m), e.
    split; [reflexivity|]. split.
    + unfold valid_binary, bounded, canonical_mantissa in Hv.
      apply andb_true_iff in Hv. destruct Hv as [Hc He].
      apply Z.eqb_eq in Hc. apply Z.leb_le in He.
      change (fexp Float64.prec Float64.emax) with (fexp 53 1024) in Hc.
      rewrite fexp53_eq in Hc.
      repeat split; try lia. exact Hc. exact He.
    + apply leb_finite in H100. change (Z.pos (Z.to_pos mh)) with mh in H100. lia.
Qed.

(** [0 <= 1 - s / 100 <= 1]. *)
Lemma slippage_factor_le_one s :
  valid_binary Float64.prec Float64.emax s = true ->
  Float64.leb Float64.zero s = true ->
  Float64.leb s Float64.hundred = true ->
  exists mf ef, float_is false (slippage_factor s) mf ef /\ le_one mf ef.
Proof.
  intros Hv H0 H100.
  assert (Hone : forall b, exists mf ef,
             float_is false (Float64.sub Float64.one (S754_zero b)) mf ef /\ le_one mf ef).
  { intros b. exists (2 ^ 52), (-52). split; [|exact le_one_one].
    right. split; [exact canon_one|]. rewrite one_eq. reflexivity. }
  destruct (slippage_cases s Hv H0 H100) as [[b ->]|(ms & es & -> & Hc & Hle)].
  - unfold slippage_factor. rewrite hundred_eq. cbn [Float64.div SFdiv]. apply Hone.
  - unfold slippage_factor.
    destruct (div_hundred_upper ms es Hc Hle) as (mq & eq & [[-> Hq]|[Hcq Hq]] & Hlq).
    + rewrite Hq. apply Hone.
    + rewrite Hq. apply sub_one_upper; assumption.
Qed.

(** [int(n * f)] for a factor [f] in [0, 1]: between 0 and [int(float(n))]. *)
Lemma int_scale_le n f mf ef :
  0 < n < 2 ^ 1023 ->
  float_is false f mf ef -> le_one mf ef ->
  exists mx ex,
    py_float n = Ok (S754_finite false (Z.to_pos mx) ex) /\ canon mx ex
    /\ exists r, int_scale n f = Ok r /\ 0 <= r <= trunc mx ex.
Proof.
  intros Hn Hf Hle.
  destruct (of_Z_spec n Hn) as (mx & ex & Hx & Hc & _).
  assert (Hmx : 0 < mx) by apply Hc.
  exists mx, ex.
  assert (Hpf : py_float n = Ok (S754_finite false (Z.to_pos mx) ex)).
  { unfold py_float. rewrite Hx. reflexivity. }
  split; [exact Hpf|]. split; [exact Hc|].
  unfold int_scale. rewrite Hpf. cbn [rbind].
  pose proof (trunc_nonneg mx ex ltac:(lia)) as Hnn.
  destruct Hf as [[-> ->]|[Hcf ->]].
  - exists 0. split; [reflexivity | lia].
  - destruct (le_one_direct mf ef ltac:(apply Hcf) Hle) as [He Hm].
    destruct (mul_upper mx ex mf ef Hc Hcf He Hm) as (m & e & K & Hmul & K1 & K2 & Hb).
    destruct Hmul as [[-> ->]|[Hcm ->]].
    + exists 0. split; [reflexivity | lia].
    + assert (Hm0 : 0 < m) by apply Hcm.
      exists (trunc m e). split.
      * cbn [py_int]. rewrite trunc_mag_spec by assumption. reflexivity.
      * split; [apply trunc_nonneg; lia|].
        apply (trunc_mono m e mx ex K); try lia.
Qed.

(** The clamp [int(n * 0.95)] is positive from 2 wei on. *)
Lemma clamp_positive n r :
  2 <= n < 2 ^ 1023 -> int_scale n (Float64.lit 95 100) = Ok r -> 0 < r.
Proof.
  intros Hn. rewrite lit_95_eq.
  destruct (of_Z_spec n ltac:(lia)) as (mx & ex & Hx & Hc & Hlow & _).
  specialize (Hlow ltac:(lia)).
  assert (Hmx : 0 < mx) by apply Hc.
  unfold int_scale, py_float. rewrite Hx. cbn [rbind].
  pose proof canon_95 as H95. pose proof le_one_95 as L95.
  destruct (le_one_direct _ _ ltac:(apply H95) L95) as [He Hm].
  destruct (mul_upper mx ex m95 (-53) Hc H95 He Hm) as (m & e & K & Hmul & _).
  assert (Hprod : ex + -53 <= 0 -> 2 ^ (0 - (ex + -53)) <= mx * m95).
  { intros Hex. replace (0 - (ex + -53)) with (53 - ex) by lia.
    destruct (Z_le_gt_dec ex 1) as [H1|H1].
    - specialize (Hlow H1). replace (53 - ex) with ((1 - ex) + 52) by lia.
      rewrite pow2_split by lia.
      pose proof (pow2_pos (1 - ex) ltac:(lia)).
      assert (2 ^ 52 <= m95) by (vm_compute; discriminate). nia.
    - assert (2 ^ (53 - ex) <= 2 ^ 52) by (apply Z.pow_le_mono_r; lia).
      assert (2 ^ 52 <= m95) by (vm_compute; discriminate). nia. }
  pose proof (mul_lower mx ex m95 (-53) m e Hc H95 Hprod Hmul) as [L1 L2].
  destruct Hmul as [[-> _]|[Hcm ->]].
  - exfalso. destruct (Z_le_gt_dec e 0).
    + specialize (L1 ltac:(lia)). pose proof (pow2_pos (0 - e) ltac:(lia)). lia.
    + specialize (L2 ltac:(lia)). lia.
  - cbn [py_int]. rewrite trunc_mag_spec by apply Hcm.
    intros [= <-]. pose proof (trunc_ge_1 m e ltac:(destruct Hcm; lia) L1 L2). lia.
Qed.

Lemma min_output_range out s :
  2 <= out < 2 ^ 1023 ->
  valid_binary Float64.prec Float64.emax s = true ->
  Float64.leb Float64.zero s = true ->
  Float64.leb s Float64.hundred = true ->
  exists m q,
    min_output out s = Ok m /\ as_float out = Ok q
    /\ 0 < m <= q /\ (out < 2 ^ 53 -> q = out).
Proof.
  intros Hout Hv H0 H100.
  destruct (slippage_factor_le_one s Hv H0 H100) as (mf & ef & Hf & Hle).
  destruct (int_scale_le out _ mf ef ltac:(lia) Hf Hle) as (mx & ex & Hpf & Hc & r & Hr & Hrange).
  pose proof canon_95 as H95.
  destruct (int_scale_le out (Float64.lit 95 100) m95 (-53) ltac:(lia)
              ltac:(right; split; [exact H95 | exact lit_95_eq]) le_one_95)
    as (mx' & ex' & Hpf' & Hc' & r' & Hr' & Hrange').
  rewrite Hpf in Hpf'. injection Hpf' as Hmx Hex.
  apply Z2Pos.inj in Hmx; try apply Hc; try apply Hc'.
  subst mx' ex'.
  assert (Hq : as_float out = Ok (trunc mx ex)).
  { unfold as_float. rewrite Hpf. cbn [rbind py_int].
    rewrite trunc_mag_spec by apply Hc. reflexivity. }
  assert (Hexact : out < 2 ^ 53 -> trunc mx ex = out).
  { intros H53. destruct (of_Z_spec out ltac:(lia)) as (mx2 & ex2 & Hx2 & Hc2 & _ & Hex2).
    unfold py_float in Hpf. rewrite Hx2 in Hpf.
    injection Hpf as Hm He. apply Z2Pos.inj in Hm; try apply Hc; try apply Hc2.
    subst. auto. }
  unfold min_output. rewrite Hr. cbn [rbind].
  destruct (Z.leb_spec r 0) as [Hz|Hz].
  - exists r', (trunc mx ex). rewrite Hr'.
    pose proof (clamp_positive out r' Hout Hr'). repeat split; auto; lia.
  - exists r, (trunc mx ex). repeat split; auto; lia.
Qed.

(** C1 (amended).  For a quoted output of at least 2 base units (below
    [2^1023]) and a tolerance between 0 and 100 percent, the minimum of
    the slippage guard is positive and at most the quote as converted
    to a float, which is the quote itself below [2^53]; the sell path
    uses the same guard on its quote, and sets the minimum to 0 when
    the sell quote cannot be obtained. *)
Theorem slippage_guard_bounds out s :
  2 <= out < 2 ^ 1023 ->
  valid_binary Float64.prec Float64.emax s = true ->
  Float64.leb Float64.zero s = true ->
  Float64.leb s Float64.hundred = true ->
  (exists m q,
      min_output out s = Ok m /\ as_float out = Ok q
      /\ 0 < m <= q /\ (out < 2 ^ 53 -> q = out))
  /\ (forall est, native_out_wei est = out ->
                  min_native (Some est) s = min_output out s)
  /\ min_native None s = Ok 0.
Proof.
  intros Hout Hv H0 H100. split; [|split].
  - now apply min_output_range.
  - intros est <-. reflexivity.
  - reflexivity.
Qed.


(* ================================================================== *)
(** * Rounding errors                                               *)
(* ================================================================== *)

Lemma pow2R_pos e : (0 < pow2 e)%R.
Proof. apply powerRZ_lt. lra. Qed.

Lemma pow2R_add a b : pow2 (a + b) = (pow2 a * pow2 b)%R.
Proof. apply powerRZ_add. lra. Qed.

Lemma pow2_0 : pow2 0 = 1%R.
Proof. reflexivity. Qed.

Lemma pow2_1 : pow2 1 = 2%R.
Proof. unfold pow2. simpl. lra. Qed.

Lemma IZR_pow2 n : 0 <= n -> IZR (2 ^ n) = pow2 n.
Proof.
  intros Hn. unfold pow2. rewrite <- (Z2Nat.id n Hn) at 1.
  rewrite <- pow_IZR, pow_powerRZ, Z2Nat.id by exact Hn. reflexivity.
Qed.

Lemma pow2R_le a b : a <= b -> (pow2 a <= pow2 b)%R.
Proof.
  intros H. replace b with (a + (b - a)) by lia. rewrite pow2R_add.
  rewrite <- (IZR_pow2 (b - a)) by lia.
  pose proof (pow2_pos (b - a) ltac:(lia)) as Hp.
  assert (Hp1 : 1 <= 2 ^ (b - a)) by lia.
  apply IZR_le in Hp1.
  pose proof (pow2R_pos a). nra.
Qed.

Lemma F2R_scale m e K :
  K <= e -> F2R m e = (IZR (m * 2 ^ (e - K)) * pow2 K)%R.
Proof.
  intros H. unfold F2R. rewrite mult_IZR, IZR_pow2 by lia.
  replace e with ((e - K) + K) at 1 by lia. rewrite pow2R_add. ring.
Qed.

Lemma F2R_le m1 e1 m2 e2 K :
  K <= e1 -> K <= e2 -> m1 * 2 ^ (e1 - K) <= m2 * 2 ^ (e2 - K) ->
  (F2R m1 e1 <= F2R m2 e2)%R.
Proof.
  intros H1 H2 H. rewrite (F2R_scale m1 e1 K H1), (F2R_scale m2 e2 K H2).
  apply IZR_le in H. pose proof (pow2R_pos K). nra.
Qed.

Lemma F2R_nonneg m e : 0 <= m -> (0 <= F2R m e)%R.
Proof.
  intros H. unfold F2R. apply IZR_le in H. pose proof (pow2R_pos e). nra.
Qed.

(** Rounding moves a number by at most one unit of the resulting
    exponent. *)
Lemma BRA_error sx mx E l v m e :
  0 <= mx -> E <= fexp53 (Zdigits2 mx + E) ->
  (F2R mx E <= v <= F2R (mx + 1) E)%R ->
  float_is sx (binary_round_aux 53 1024 sx mx E l) m e ->
  (Rabs (F2R m e - v) <= pow2 (fexp53 (Zdigits2 mx + E)))%R.
Proof.
  intros Hm Hpre Hv.
  destruct (BRA_cases sx mx E l Hm Hpre) as (M2 & HM2 & HM1 & ->).
  set (E1 := fexp53 (Zdigits2 mx + E)) in *.
  set (n := E1 - E) in *.
  set (M1 := mx / 2 ^ n) in *.
  assert (Hn : 0 <= n) by (unfold n; lia).
  pose proof (pow2_pos n Hn) as Hpn.
  intros Hf.
  assert (HM2r : 0 <= M2 <= 2 ^ 53) by (destruct HM2 as [->|[-> _]]; lia).
  assert (Hval : F2R m e = F2R M2 E1).
  { destruct (float_is_bra sx M2 E1 m e HM2r Hf) as [[-> ->]|[(_ & -> & ->)|(-> & -> & ->)]].
    - unfold F2R. lra.
    - reflexivity.
    - unfold F2R. replace (E1 + 1) with (1 + E1) by lia. rewrite pow2R_add.
      rewrite pow2_1.
      change (2 ^ 53) with (2 * 2 ^ 52). rewrite (mult_IZR 2). lra. }
  rewrite Hval.
  assert (Hlo : (F2R M1 E1 <= F2R mx E)%R).
  { apply (F2R_le M1 E1 mx E E); try lia. fold n.
    rewrite Z.sub_diag, Z.mul_1_r. pose proof (Z.mul_div_le mx (2 ^ n) Hpn).
    fold M1 in H. lia. }
  assert (Hhi : (F2R (mx + 1) E <= F2R (M1 + 1) E1)%R).
  { apply (F2R_le (mx + 1) E (M1 + 1) E1 E); try lia. fold n.
    rewrite Z.sub_diag, Z.mul_1_r.
    pose proof (Z.mul_succ_div_gt mx (2 ^ n) Hpn). fold M1 in H. lia. }
  assert (Hstep : F2R (M1 + 1) E1 = (F2R M1 E1 + pow2 E1)%R).
  { unfold F2R. rewrite plus_IZR. ring. }
  apply Rabs_le.
  destruct HM2 as [->|[-> _]]; rewrite ?Hstep in *; lra.
Qed.

(** Truncation toward zero. *)
Lemma trunc_R m e :
  0 <= m -> (IZR (trunc m e) <= F2R m e < IZR (trunc m e) + 1)%R.
Proof.
  intros Hm. unfold trunc, F2R. destruct (Z.leb_spec 0 e) as [He|He].
  - rewrite mult_IZR, IZR_pow2 by lia. lra.
  - pose proof (pow2_pos (- e) ltac:(lia)) as Hp.
    pose proof (Z.mul_div_le m (2 ^ (- e)) Hp) as H1.
    pose proof (Z.mul_succ_div_gt m (2 ^ (- e)) Hp) as H2.
    set (t := m / 2 ^ (- e)) in *.
    apply IZR_le in H1. apply IZR_lt in H2.
    rewrite mult_IZR, IZR_pow2 in H1, H2 by lia.
    unfold Z.succ in H2. rewrite plus_IZR in H2.
    assert (Hinv : (pow2 (- e) * pow2 e = 1)%R).
    { rewrite <- pow2R_add. replace (- e + e) with 0 by lia. apply pow2_0. }
    pose proof (pow2R_pos e). pose proof (pow2R_pos (- e)).
    assert (Hm' : (IZR m * pow2 e * pow2 (- e) = IZR m)%R).
    { rewrite Rmult_assoc, (Rmult_comm (pow2 e)), Hinv. ring. }
    split.
    + apply Rmult_le_reg_r with (pow2 (- e)); [assumption|]. rewrite Hm'. lra.
    + apply Rmult_lt_reg_r with (pow2 (- e)); [assumption|]. rewrite Hm'. lra.
Qed.

Lemma Rabs_le_inv x a : (Rabs x <= a)%R -> (- a <= x <= a)%R.
Proof. unfold Rabs. destruct (Rcase_abs x); lra. Qed.

Lemma F2R_mul m1 e1 m2 e2 :
  F2R (m1 * m2) (e1 + e2) = (F2R m1 e1 * F2R m2 e2)%R.
Proof. unfold F2R. rewrite mult_IZR, pow2R_add. ring. Qed.

Lemma F2R_succ m e : F2R (m + 1) e = (F2R m e + pow2 e)%R.
Proof. unfold F2R. rewrite plus_IZR. ring. Qed.

Lemma F2R_shift m e K : K <= e -> F2R (m * 2 ^ (e - K)) K = F2R m e.
Proof. intros H. rewrite (F2R_scale m e K H). reflexivity. Qed.

Lemma pow2_inv e : (pow2 e * pow2 (- e) = 1)%R.
Proof. rewrite <- pow2R_add. replace (e + - e) with 0 by lia. apply pow2_0. Qed.

Lemma F2R_one : F2R (2 ^ 52) (-52) = 1%R.
Proof. unfold F2R. rewrite IZR_pow2 by lia. apply (pow2_inv 52). Qed.

Lemma pow2_double e : pow2 (e + 1) = (2 * pow2 e)%R.
Proof. rewrite pow2R_add, pow2_1. ring. Qed.

(** [float(n)] is within [n * 2^-52] of [n]. *)
Lemma of_Z_error n mx ex :
  0 < n ->
  Float64.of_Z n = S754_finite false (Z.to_pos mx) ex -> canon mx ex ->
  (Rabs (F2R mx ex - IZR n) <= IZR n * pow2 (-52))%R.
Proof.
  intros Hn Hx Hc.
  assert (Hf : float_is false (Float64.of_Z n) mx ex) by (right; auto).
  clear Hx. unfold Float64.of_Z, binary_normalize in Hf.
  destruct n as [|p|p]; try lia. cbv beta iota in Hf.
  change (binary_round Float64.prec Float64.emax false p 0)
    with (binary_round 53 1024 false p 0) in Hf.
  destruct (binary_round_BRA false (Z.pos p) 0 Hn) as (mz & ez' & Hbr & Hez & Hmz & Hadm & _).
  cbn [Z.to_pos] in Hbr. rewrite Hbr in Hf. clear Hbr.
  pose proof (pow2_pos (0 - ez') ltac:(lia)) as Hp.
  assert (Hv : F2R mz ez' = IZR (Z.pos p)).
  { rewrite Hmz, F2R_shift by lia. unfold F2R. rewrite pow2_0. ring. }
  pose proof (BRA_error false mz ez' loc_Exact (IZR (Z.pos p)) mx ex ltac:(nia) Hadm) as He.
  rewrite F2R_succ, Hv in He. pose proof (pow2R_pos ez').
  specialize (He ltac:(lra) Hf).
  assert (Hd : Zdigits2 mz + ez' = Zdigits2 (Z.pos p)).
  { rewrite Hmz, Zdigits2_mul_pow2 by lia. lia. }
  rewrite Hd in He.
  eapply Rle_trans; [exact He|].
  pose proof (Zdigits2_pos (Z.pos p) Hn) as Hd0.
  destruct (Zdigits2_bounds (Z.pos p) Hn) as [B _].
  replace (fexp53 (Zdigits2 (Z.pos p))) with ((Zdigits2 (Z.pos p) - 1) + -52)
    by (unfold fexp53; lia).
  rewrite pow2R_add, <- IZR_pow2 by lia.
  apply IZR_le in B. pose proof (pow2R_pos (-52)). nra.
Qed.

(** The product of two floats is rounded by at most the unit of the
    larger one when the other is at most 1. *)
Lemma mul_error mx ex mf ef m e :
  canon mx ex -> canon mf ef -> ef <= 0 -> mf <= 2 ^ (- ef) ->
  float_is false (Float64.mul (S754_finite false (Z.to_pos mx) ex)
                              (S754_finite false (Z.to_pos mf) ef)) m e ->
  (Rabs (F2R m e - F2R mx ex * F2R mf ef) <= pow2 ex)%R.
Proof.
  intros Hx Hf Hef Hle.
  pose proof (product_admissible mx ex mf ef Hx Hf) as Hadm.
  assert (Hmx : 0 < mx) by apply Hx. assert (Hmf : 0 < mf) by apply Hf.
  rewrite mul_finite by lia. cbn [xorb]. intros Hr.
  pose proof (BRA_error false (mx * mf) (ex + ef) loc_Exact (F2R mx ex * F2R mf ef)
                m e ltac:(nia) Hadm) as He.
  rewrite F2R_succ, F2R_mul in He. pose proof (pow2R_pos (ex + ef)).
  specialize (He ltac:(lra) Hr).
  eapply Rle_trans; [exact He|]. apply pow2R_le.
  destruct Hx as (_ & Hcx & _). rewrite <- Hcx at 2. apply fexp53_mono.
  assert (Zdigits2 (mx * mf) <= Zdigits2 mx + - ef); [|lia].
  rewrite <- Zdigits2_mul_pow2 by lia. apply Zdigits2_mono.
  pose proof (pow2_pos (- ef) ltac:(lia)). nia.
Qed.

Lemma normal_ulp mx ex :
  2 ^ 52 <= mx -> (pow2 ex <= F2R mx ex * pow2 (-52))%R.
Proof.
  intros H. apply IZR_le in H. rewrite IZR_pow2 in H by lia.
  unfold F2R.
  assert (Hinv : (pow2 52 * pow2 (-52) = 1)%R) by exact (pow2_inv 52).
  pose proof (pow2R_pos ex). pose proof (pow2R_pos (-52)).
  assert (H2 : (0 <= (IZR mx - pow2 52) * (pow2 ex * pow2 (-52)))%R)
    by (apply Rmult_le_pos; nra).
  assert (H3 : (pow2 52 * (pow2 ex * pow2 (-52)) = pow2 ex)%R).
  { replace (pow2 52 * (pow2 ex * pow2 (-52)))%R
      with ((pow2 52 * pow2 (-52)) * pow2 ex)%R by ring.
    rewrite Hinv. ring. }
  nra.
Qed.

Lemma pow2_46 : pow2 46 = 70368744177664%R.
Proof. rewrite <- IZR_pow2 by lia. reflexivity. Qed.

Lemma IZR_mh : IZR mh = (100 * pow2 46)%R.
Proof. rewrite pow2_46. unfold mh. lra. Qed.

(** [s / 100] is rounded by at most [2^-52] for [0 < s <= 100]. *)
Lemma div_hundred_error ms es m e :
  canon ms es -> (es < -46 \/ (es = -46 /\ ms <= mh)) ->
  float_is false (Float64.div (S754_finite false (Z.to_pos ms) es) Float64.hundred) m e ->
  (Rabs (F2R m e - F2R ms es / 100) <= pow2 (-52))%R.
Proof.
  intros Hc Hle. rewrite hundred_eq. unfold Float64.div, SFdiv.
  change Float64.prec with 53. change Float64.emax with 1024.
  assert (Hms : 0 < ms) by apply Hc.
  rewrite !Z2Pos.id by (try assumption; reflexivity).
  pose proof (div_core_spec ms es mh (-46) Hms ltac:(reflexivity)) as Hcore.
  cbv zeta in Hcore. rewrite Hcore. clear Hcore.
  change (Zdigits2 mh) with 53.
  set (e' := Z.min (fexp53 (Zdigits2 ms + es - (53 + -46))) (es - -46)).
  set (s := es - -46 - e').
  destruct (canon_digits _ _ Hc) as [[D0 D1] E0].
  assert (He' : e' <= -53) by (unfold e', fexp53; lia).
  assert (Hs : 0 <= s) by (unfold s, e'; lia).
  pose proof (pow2_pos s Hs) as Hps.
  set (Q := ms * 2 ^ s / mh).
  assert (Hq0 : 0 <= Q) by (apply Z.div_pos; [nia | reflexivity]).
  assert (Hadm : e' <= fexp53 (Zdigits2 Q + e')).
  { pose proof (Zdigits2_div (ms * 2 ^ s) mh ltac:(nia) ltac:(reflexivity)) as Hd.
    rewrite Zdigits2_mul_pow2 in Hd by lia. change (Zdigits2 mh) with 53 in Hd.
    transitivity (fexp53 (Zdigits2 ms + es - (53 + -46))); [unfold e'; lia|].
    apply fexp53_mono. fold Q in Hd.
    assert (s = es + 46 - e') by (unfold s; lia). lia. }
  assert (Hnum : ms * 2 ^ s <= mh * 2 ^ (- e')).
  { replace (- e') with ((-46 - es) + s) by (unfold s; lia).
    rewrite pow2_split by lia.
    assert (ms <= mh * 2 ^ (-46 - es)).
    { destruct Hle as [Hlt|[-> Hm]].
      - pose proof (canon_lt _ _ Hc).
        assert (2 ^ 1 <= 2 ^ (-46 - es)) by (apply Z.pow_le_mono_r; lia).
        change (2 ^ 1) with 2 in *. unfold mh. change (2 ^ 53) with 9007199254740992 in *. nia.
      - change (-46 - -46) with 0. rewrite Z.pow_0_r. lia. }
    nia. }
  assert (Hb : Q <= 2 ^ (- e')).
  { apply Z.div_le_upper_bound; [reflexivity|]. lia. }
  intros Hf.
  (* the exact quotient lies between [Q] and [Q + 1] units *)
  pose proof (Z.mul_div_le (ms * 2 ^ s) mh ltac:(reflexivity)) as H1.
  pose proof (Z.mul_succ_div_gt (ms * 2 ^ s) mh ltac:(reflexivity)) as H2.
  fold Q in H1, H2.
  apply IZR_le in H1. apply IZR_lt in H2.
  unfold Z.succ in H2. rewrite !mult_IZR, ?plus_IZR, IZR_pow2 in H1, H2 by lia.
  assert (Hinv46 : pow2 (-46) = (/ pow2 46)%R).
  { pose proof (pow2_inv 46) as Hi. cbn [Z.opp] in Hi.
    pose proof (pow2R_pos 46).
    apply Rmult_eq_reg_l with (pow2 46); [|lra].
    rewrite Hi, Rinv_r by lra. reflexivity. }
  assert (Hes : pow2 es = (pow2 s * pow2 e' * / pow2 46)%R).
  { replace es with (s + e' + -46) at 1 by (unfold s; lia).
    rewrite !pow2R_add, Hinv46. reflexivity. }
  assert (Hv : (F2R ms es / 100 = (IZR ms * pow2 s / IZR mh) * pow2 e')%R).
  { unfold F2R. rewrite Hes, IZR_mh. field. pose proof (pow2R_pos 46). lra. }
  set (A := (IZR ms * pow2 s)%R) in *.
  rewrite ?plus_IZR in H2.
  assert (Hmhpos : (0 < IZR mh)%R) by (unfold mh; lra).
  assert (Hlo : (IZR Q <= A / IZR mh)%R).
  { unfold Rdiv. apply Rmult_le_reg_r with (IZR mh); [lra|].
    rewrite Rmult_assoc, Rinv_l by lra. lra. }
  assert (Hhi : (A / IZR mh <= IZR Q + 1)%R).
  { unfold Rdiv. apply Rmult_le_reg_r with (IZR mh); [lra|].
    rewrite Rmult_assoc, Rinv_l by lra. lra. }
  pose proof (pow2R_pos e') as Hpe.
  pose proof (BRA_error false Q e' (new_location mh ((ms * 2 ^ s) mod mh))
                (F2R ms es / 100) m e Hq0 Hadm) as He.
  rewrite F2R_succ, Hv in He. unfold F2R in He at 1 2.
  specialize (He ltac:(split; nra) Hf).
  rewrite <- Hv in He.
  eapply Rle_trans; [exact He|]. apply pow2R_le.
  assert (Zdigits2 Q <= - e' + 1).
  { apply Zdigits2_le; try lia.
    replace (- e' + 1) with (1 + - e') by lia. rewrite pow2_split by lia.
    pose proof (pow2_pos (- e') ltac:(lia)). change (2 ^ 1) with 2. lia. }
  unfold fexp53. lia.
Qed.

(** [1 - q] is rounded by at most [2^-52] for [0 < q <= 1]. *)
Lemma sub_one_error mq eq m e :
  canon mq eq -> le_one mq eq ->
  float_is false (Float64.sub Float64.one (S754_finite false (Z.to_pos mq) eq)) m e ->
  (Rabs (F2R m e - (1 - F2R mq eq)) <= pow2 (-52))%R.
Proof.
  intros Hc (K0 & K1 & K2 & Hle). rewrite one_eq. unfold Float64.sub, SFsub.
  change Float64.prec with 53. change Float64.emax with 1024.
  assert (Hmq : 0 < mq) by apply Hc.
  set (ez := Z.min (-52) eq).
  rewrite !shl_align_fst by (unfold ez; lia).
  rewrite !Z2Pos.id by (try assumption; reflexivity).
  cbn [cond_Zopp].
  set (D := 2 ^ 52 * 2 ^ (-52 - ez) - mq * 2 ^ (eq - ez)).
  assert (HK : K0 <= ez) by (unfold ez; lia).
  pose proof (pow2_pos (ez - K0) ltac:(lia)) as HpK.
  pose proof (pow2_pos (eq - ez) ltac:(unfold ez; lia)) as Hp1.
  pose proof (pow2_pos (-52 - ez) ltac:(unfold ez; lia)) as Hp2.
  assert (HD : 0 <= D).
  { unfold D.
    replace (eq - K0) with ((eq - ez) + (ez - K0)) in Hle by lia.
    replace (-52 - K0) with ((-52 - ez) + (ez - K0)) in Hle by lia.
    rewrite !pow2_split in Hle by (unfold ez; lia).
    rewrite !Z.mul_assoc in Hle. apply Z.mul_le_mono_pos_r in Hle; [lia | assumption]. }
  assert (HDle : D <= 2 ^ (- ez)).
  { unfold D. replace (- ez) with (52 + (-52 - ez)) by lia.
    rewrite pow2_split by (unfold ez; lia). nia. }
  assert (HDv : F2R D ez = (1 - F2R mq eq)%R).
  { unfold D. unfold F2R at 1. rewrite minus_IZR, Rmult_minus_distr_r.
    fold (F2R (2 ^ 52 * 2 ^ (-52 - ez)) ez). fold (F2R (mq * 2 ^ (eq - ez)) ez).
    rewrite !F2R_shift by (unfold ez; lia). rewrite F2R_one. reflexivity. }
  unfold binary_normalize. intros Hf.
  destruct D as [|p|p] eqn:ED; try lia.
  - assert (m = 0) as -> by (destruct Hf as [[? _]|[_ ?]]; [assumption | discriminate]).
    rewrite <- HDv. unfold F2R. rewrite !Rmult_0_l, Rminus_0_r, Rabs_R0.
    pose proof (pow2R_pos (-52)). lra.
  - destruct (binary_round_BRA false (Z.pos p) ez ltac:(lia))
      as (mz & ez' & Hbr & Hez & Hmz & Hadm & _).
    cbn [Z.to_pos] in Hbr. rewrite Hbr in Hf. clear Hbr.
    pose proof (pow2_pos (ez - ez') ltac:(lia)) as Hp3.
    assert (Hv : F2R mz ez' = (1 - F2R mq eq)%R).
    { rewrite Hmz, F2R_shift by lia. exact HDv. }
    pose proof (BRA_error false mz ez' loc_Exact (1 - F2R mq eq) m e ltac:(nia) Hadm) as He.
    rewrite F2R_succ, Hv in He. pose proof (pow2R_pos ez').
    specialize (He ltac:(lra) Hf).
    eapply Rle_trans; [exact He|]. apply pow2R_le.
    assert (Hd : Zdigits2 mz + ez' = Zdigits2 (Z.pos p) + ez).
    { rewrite Hmz, Zdigits2_mul_pow2 by lia. lia. }
    rewrite Hd.
    assert (Zdigits2 (Z.pos p) <= - ez + 1).
    { apply Zdigits2_le; try lia; try (unfold ez; lia).
      replace (- ez + 1) with (1 + - ez) by lia. rewrite pow2_split by (unfold ez; lia).
      pose proof (pow2_pos (- ez) ltac:(unfold ez; lia)). change (2 ^ 1) with 2. lia. }
    unfold fexp53. lia.
Qed.

Lemma le_one_R mf ef : le_one mf ef -> (F2R mf ef <= 1)%R.
Proof.
  intros (K & K1 & K2 & H). rewrite <- F2R_one.
  now apply (F2R_le mf ef (2 ^ 52) (-52) K).
Qed.

Lemma pow2_m52_small : (0 < pow2 (-52) <= 1)%R.
Proof.
  split; [apply pow2R_pos|]. rewrite <- pow2_0. apply pow2R_le. lia.
Qed.

Lemma pow2_m51 : pow2 (-51) = (2 * pow2 (-52))%R.
Proof. exact (pow2_double (-52)). Qed.

Lemma pow2_m50 : pow2 (-50) = (4 * pow2 (-52))%R.
Proof. change (-50) with (-51 + 1). rewrite pow2_double, pow2_m51. ring. Qed.

Lemma pow2_m49 : pow2 (-49) = (8 * pow2 (-52))%R.
Proof. change (-49) with (-50 + 1). rewrite pow2_double, pow2_m50. ring. Qed.

(** [1 - s / 100] is computed within [2^-51]. *)
Lemma slippage_factor_error s :
  valid_binary Float64.prec Float64.emax s = true ->
  Float64.leb Float64.zero s = true ->
  Float64.leb s Float64.hundred = true ->
  exists mf ef,
    float_is false (slippage_factor s) mf ef /\ le_one mf ef
    /\ (Rabs (F2R mf ef - (1 - B2R s / 100)) <= pow2 (-51))%R.
Proof.
  intros Hv H0 H100. pose proof pow2_m52_small as Hu. pose proof pow2_m51 as H51.
  assert (Hone : forall b,
             float_is false (Float64.sub Float64.one (S754_zero b)) (2 ^ 52) (-52)).
  { intros b. right. split; [exact canon_one|]. rewrite one_eq. reflexivity. }
  destruct (slippage_cases s Hv H0 H100) as [[b ->]|(ms & es & -> & Hc & Hle)].
  - exists (2 ^ 52), (-52). split; [|split].
    + unfold slippage_factor. rewrite hundred_eq. cbn [Float64.div SFdiv].
      apply Hone.
    + exact le_one_one.
    + rewrite F2R_one. cbn [B2R].
      replace (1 - (1 - 0 / 100))%R with 0%R by lra. rewrite Rabs_R0. lra.
  - assert (Hms : 0 < ms) by apply Hc.
    assert (HB : B2R (S754_finite false (Z.to_pos ms) es) = F2R ms es).
    { cbn [B2R]. rewrite Z2Pos.id by lia. reflexivity. }
    rewrite HB. unfold slippage_factor.
    destruct (div_hundred_upper ms es Hc Hle) as (mq & eq & Hq & Hlq).
    pose proof (div_hundred_error ms es mq eq Hc Hle Hq) as Eq.
    destruct Hq as [[-> Hq]|[Hcq Hq]].
    + rewrite Hq. exists (2 ^ 52), (-52). split; [apply Hone|]. split; [exact le_one_one|].
      rewrite F2R_one. unfold F2R in Eq at 1. rewrite Rmult_0_l in Eq.
      apply Rabs_le. apply Rabs_le_inv in Eq. lra.
    + destruct (sub_one_upper mq eq Hcq Hlq) as (mf & ef & Hf & Hlf).
      rewrite Hq. exists mf, ef. split; [exact Hf|]. split; [exact Hlf|].
      pose proof (sub_one_error mq eq mf ef Hcq Hlq Hf) as Ef.
      apply Rabs_le. apply Rabs_le_inv in Eq. apply Rabs_le_inv in Ef. lra.
Qed.

(** [int(n * f)] for a float [f] in [0, 1] is within [1 + n * 2^-50] of
    the exact product. *)
Lemma int_scale_error n f mf ef :
  2 <= n < 2 ^ 1023 ->
  float_is false f mf ef -> le_one mf ef ->
  exists r,
    int_scale n f = Ok r
    /\ (Rabs (IZR r - IZR n * F2R mf ef) <= 1 + IZR n * pow2 (-50))%R.
Proof.
  intros Hn Hf Hle. pose proof pow2_m52_small as Hu. rewrite pow2_m50.
  destruct (of_Z_spec n ltac:(lia)) as (mx & ex & Hx & Hc & Hlow & _).
  specialize (Hlow ltac:(lia)).
  assert (Hmx : 0 < mx) by apply Hc.
  assert (Hnorm : 2 ^ 52 <= mx).
  { destruct (canon_normal_or_subnormal _ _ Hc) as [Hd|[He Hd]].
    - destruct (Zdigits2_bounds mx Hmx) as [B _]. rewrite Hd in B. exact B.
    - exfalso. specialize (Hlow ltac:(lia)). pose proof (canon_lt _ _ Hc).
      assert (2 ^ 53 <= 2 ^ (1 - ex)) by (apply Z.pow_le_mono_r; lia). lia. }
  pose proof (of_Z_error n mx ex ltac:(lia) Hx Hc) as EX.
  pose proof (normal_ulp mx ex Hnorm) as Hulp.
  assert (HN : (2 <= IZR n)%R) by (apply IZR_le; lia).
  assert (HF1 : (F2R mf ef <= 1)%R) by now apply le_one_R.
  unfold int_scale, py_float. rewrite Hx. cbn [rbind].
  apply Rabs_le_inv in EX.
  set (X := F2R mx ex) in *. set (N := IZR n) in *. set (u := pow2 (-52)) in *.
  destruct Hf as [[-> ->]|[Hcf ->]].
  - exists 0. split; [reflexivity|]. unfold F2R. rewrite Rmult_0_l, Rmult_0_r.
    replace (0 - 0)%R with 0%R by ring. rewrite Rabs_R0. nra.
  - assert (HF0 : (0 <= F2R mf ef)%R) by (apply F2R_nonneg; destruct Hcf; lia).
    set (F := F2R mf ef) in *.
    destruct (le_one_direct mf ef ltac:(apply Hcf) Hle) as [He Hm].
    destruct (mul_upper mx ex mf ef Hc Hcf He Hm) as (m & e & K & Hmul & _).
    pose proof (mul_error mx ex mf ef m e Hc Hcf He Hm Hmul) as EP.
    fold X F in EP. apply Rabs_le_inv in EP.
    assert (HXF : (- (N * u) <= (X - N) * F <= N * u)%R) by nra.
    assert (HXu : (X * u <= 2 * N * u)%R) by nra.
    destruct Hmul as [[-> ->]|[Hcm ->]].
    + exists 0. split; [reflexivity|].
      unfold F2R in EP at 1 2. rewrite Rmult_0_l in EP.
      apply Rabs_le. nra.
    + assert (Hm0 : 0 < m) by apply Hcm.
      exists (trunc m e). split.
      * cbn [py_int]. rewrite trunc_mag_spec by assumption. reflexivity.
      * pose proof (trunc_R m e ltac:(lia)) as HT.
        apply Rabs_le. nra.
Qed.

Lemma F2R_95 : (Rabs (F2R m95 (-53) - 95 / 100) <= pow2 (-51))%R.
Proof.
  pose proof (pow2_inv 53) as Hi. cbn [Z.opp] in Hi.
  rewrite <- IZR_pow2 in Hi by lia. change (2 ^ 53) with 9007199254740992 in Hi.
  rewrite pow2_m51.
  replace (pow2 (-52)) with (2 * pow2 (-53))%R by (symmetry; exact (pow2_double (-53))).
  unfold F2R, m95. pose proof (pow2R_pos (-53)). apply Rabs_le. lra.
Qed.

(** C2 (amended).  For a quote of at least 2 base units (below
    [2^1023]) and a tolerance [s] between 0 and 100 percent, the guard
    computes [r = int(float(out) * (1 - s / 100))] in binary64
    arithmetic, truncated toward zero, and returns [r] when it is
    positive and the clamp [int(float(out) * 0.95)] otherwise.  [r] is
    within [1 + out / 2^49] of the exact value [out * (1 - s / 100)],
    which is [out * (10000 - bps) / 10000] for [bps = 100 * s], and the
    clamp is within the same distance of [out * 95 / 100]. *)
Theorem slippage_guard_error out s :
  2 <= out < 2 ^ 1023 ->
  valid_binary Float64.prec Float64.emax s = true ->
  Float64.leb Float64.zero s = true ->
  Float64.leb s Float64.hundred = true ->
  exists r m,
    int_scale out (slippage_factor s) = Ok r
    /\ min_output out s = Ok m
    /\ (Rabs (IZR r - IZR out * (1 - B2R s / 100)) <= 1 + IZR out * pow2 (-49))%R
    /\ (0 < r -> m = r)
    /\ (r <= 0 ->
        (Rabs (IZR m - IZR out * (95 / 100)) <= 1 + IZR out * pow2 (-49))%R).
Proof.
  intros Hout Hv H0 H100.
  pose proof pow2_m52_small as Hu. pose proof pow2_m51 as H51.
  pose proof pow2_m50 as H50. pose proof pow2_m49 as H49.
  assert (HN : (2 <= IZR out)%R) by (apply IZR_le; lia).
  destruct (slippage_factor_error s Hv H0 H100) as (mf & ef & Hf & Hle & EF).
  destruct (int_scale_error out _ mf ef Hout Hf Hle) as (r & Hr & ER).
  destruct (int_scale_error out (Float64.lit 95 100) m95 (-53) Hout
              ltac:(right; split; [exact canon_95 | exact lit_95_eq]) le_one_95)
    as (c & Hc & EC).
  pose proof F2R_95 as E95.
  apply Rabs_le_inv in EF, ER, EC, E95.
  assert (Hr_err : (Rabs (IZR r - IZR out * (1 - B2R s / 100))
                    <= 1 + IZR out * pow2 (-49))%R).
  { apply Rabs_le. nra. }
  unfold min_output. rewrite Hr. cbn [rbind].
  destruct (Z.leb_spec r 0) as [Hz|Hz].
  - exists r, c. split; [reflexivity|]. split; [exact Hc|]. split; [exact Hr_err|].
    split; [lia|]. intros _. apply Rabs_le. nra.
  - exists r, r. split; [reflexivity|]. split; [reflexivity|]. split; [exact Hr_err|].
    split; [reflexivity | lia].
Qed.

(* ================================================================== *)
(** * Runs on stub clients                                          *)
(* ================================================================== *)


Lemma cascade_state_one_run :
  estimate_gas_with_retries panic_world Buy tenth (10 ^ 17) 995
    buy_call (buy_call 995 TradingContract) false []
  = (Ok (inl (Failure InvalidAmounts)),
     [EstimateGas (buy_call 995 TradingContract) (10 ^ 17)])
  /\ exists evs,
      snd (estimate_gas_with_retries (k_once_world 1000) Buy tenth (10 ^ 17) 995
             buy_call (buy_call 995 TradingContract) false [])
      = [EstimateGas (buy_call 995 TradingContract) (10 ^ 17);
         EstimateGas (buy_call 696 TradingContract) (10 ^ 17)] ++ evs.
Proof.
  split.
  - exact (proj1 (cascade_state_one panic_world Buy tenth (10 ^ 17) 995
                    buy_call (buy_call 995 TradingContract) false []
                    panic_revert eq_refl) eq_refl).
  - destruct (cascade_state_one (k_once_world 1000) Buy tenth (10 ^ 17) 995
                buy_call (buy_call 995 TradingContract) false []
                pool_invariant_revert eq_refl) as [_ H].
    destruct (H eq_refl 696 eq_refl eq_refl) as (evs & E & _).
    exists evs. exact E.
Defined.

Lemma state_one_minimum_is_not_seventy_percent_of_output :
  map amount_out_min
    (simulated (snd (buy_tokens all_chains (k_once_world 1000) BSC token tenth wallet
                       None [])))
  = [Some 995; Some 696]
  /\ 1000 * 70 / 100 = 700
  /\ map amount_out_min
       (simulated (snd (buy_tokens all_chains (k_once_world 90) BSC token tenth wallet
                          (Some Float64.zero) [])))
     = [Some 90; Some 62]
  /\ 90 * 70 / 100 = 63.
Proof. vm_compute. repeat split. Qed.

Lemma liquidity_too_shallow_run :
  buy_execute shallow_world BSC tenth buy_call (buy_call 995 TradingContract) false
    (10 ^ 17) 995 []
  = (Ok (Failure (SevereLiquidityIssue Buy (Float64.mul tenth (Float64.lit 1 10)) tenth)),
     [EstimateGas (buy_call 995 TradingContract) (10 ^ 17);
      EstimateGas (buy_call 696 TradingContract) (10 ^ 17);
      EstimateGas (buy_call 497 TradingContract) (10 ^ 17)]).
Proof.
  exact (proj1 (liquidity_too_shallow shallow_world BSC Buy tenth (10 ^ 17) 995
                  buy_call (buy_call 995 TradingContract) false []
                  pool_invariant_revert pool_invariant_revert pool_invariant_revert
                  _ _ eq_refl eq_refl eq_refl eq_refl)).
Defined.

Lemma approval_gate_noop_run :
  _ensure_token_approval_for_contract all_chains approved_world BSC token wallet
    (5 * 10 ^ 18) spender []
  = (Ok AlreadyApproved, [Allowance spender]).
Proof.
  apply (approval_gate_noop all_chains approved_world BSC token wallet
           (5 * 10 ^ 18) spender [] (10 ^ 30)); try reflexivity.
  vm_compute. discriminate.
Defined.

Lemma approval_nonce_and_gas_price_run :
  snd (_ensure_token_approval_for_contract all_chains calm_world BSC token wallet
         (5 * 10 ^ 18) spender [])
  = [Allowance spender; EstimateGas approve_call 0; GasPrice; GetTransactionCount true;
     BuildTransaction (approve_tx 100 7); SignTransaction (approve_tx 100 7);
     SendRawTransaction (approve_tx 100 7)].
Proof.
  refine (proj1 (approval_nonce_and_gas_price all_chains calm_world BSC token wallet
                   (5 * 10 ^ 18) spender [] 0 100 7 _ 180000
                   eq_refl eq_refl eq_refl eq_refl eq_refl _ eq_refl eq_refl eq_refl
                   eq_refl eq_refl eq_refl)).
  vm_compute. reflexivity.
Defined.

Lemma approval_gas_price_is_not_boosted :
  map tx_gasPrice
    (sent (snd (_ensure_token_approval_for_contract all_chains calm_world BSC token wallet
                  (5 * 10 ^ 18) spender [])))
  = [100]
  /\ gas_price calm_world [] = Ok 100
  /\ int_scale 100 (Float64.lit 15 10) = Ok 150
  /\ map tx_gasPrice
       (sent (snd (buy_tokens all_chains calm_world BSC token tenth wallet None [])))
     = [150].
Proof. vm_compute. repeat split. Qed.

Lemma nonce_zero_run :
  resolve_nonce no_nonce_world [] = (Ok 0, [GetTransactionCount true; GetTransactionCount false]).
Proof.
  exact (proj1 (nonce_zero_when_both_reads_fail all_chains no_nonce_world []
                  (rpc_error "timeout") (rpc_error "timeout") eq_refl eq_refl)).
Defined.

Lemma nonce_too_low_run :
  let s := SendRawTransaction (sell_tx 995 180000) in
  sell_submit stale_once_world sell_call (sell_call 995 TradingContract) false 995
    150000 150 7 []
  = (Ok (SellSuccess 4242 150000),
     [BuildTransaction (sell_tx 995 180000); SignTransaction (sell_tx 995 180000);
      s; Sleep 2; s])
  /\ sell_submit stale_nonce_world sell_call (sell_call 995 TradingContract) false 995
       150000 150 7 []
     = (Ok (Failure (SellTransactionError
                       (exn_msg (nonce_issue 3 (exn_msg stale_nonce))))),
        [BuildTransaction (sell_tx 995 180000); SignTransaction (sell_tx 995 180000);
         s; Sleep 2; s; Sleep 2; s]).
Proof.
  split.
  - exact (proj1 (nonce_too_low_resends_same_transaction stale_once_world
                    sell_call (sell_call 995 TradingContract) false 995 150000 150 7 []
                    180000 stale_nonce eq_refl eq_refl eq_refl eq_refl eq_refl)
             4242 eq_refl).
  - exact (proj2 (nonce_too_low_resends_same_transaction stale_nonce_world
                    sell_call (sell_call 995 TradingContract) false 995 150000 150 7 []
                    180000 stale_nonce eq_refl eq_refl eq_refl eq_refl eq_refl)
             stale_nonce stale_nonce eq_refl eq_refl eq_refl eq_refl eq_refl).
Defined.

Lemma nonce_is_not_read_again :
  let tr := snd (sell_tokens all_chains stale_nonce_world BSC token five wallet None []) in
  count_sends tr = 3%nat
  /\ existsb is_nonce_read (after_first_send tr) = false
  /\ map tx_nonce (sent tr) = [7; 7; 7].
Proof. vm_compute. repeat split. Qed.



Lemma slippage_guard_bounds_run :
  exists m, min_output 1000 (Float64.lit 5 10) = Ok m /\ 0 < m <= 1000.
Proof.
  destruct (slippage_guard_bounds 1000 (Float64.lit 5 10)
              ltac:(split; [lia | reflexivity]) eq_refl eq_refl eq_refl)
    as [(m & q & Hm & Hq & Hr & Hex) _].
  exists m. split; [exact Hm|].
  rewrite <- (Hex eq_refl). exact Hr.
Defined.

(** The guard at a missing sell quote, at a quote of 1 base unit and at
    a quote above [2^53] with tolerance 0. *)
Lemma slippage_guard_not_positive :
  min_native None (default_slippage BSC) = Ok 0
  /\ min_output 1 (default_slippage BSC) = Ok 0
  /\ min_output (2 ^ 53 + 3) Float64.zero = Ok (2 ^ 53 + 4).
Proof. vm_compute. repeat split. Qed.

(** The guard against the integer formula: 30% of tolerance on a quote
    of 90, and 0.5% on a quote of [10^21 + 7]. *)
Lemma slippage_guard_is_not_the_integer_formula :
  min_output 90 (Float64.lit 3000 100) = Ok 62
  /\ spec_min_output 90 3000 = 63
  /\ min_output (10 ^ 21 + 7) (Float64.lit 50 100) = Ok 995000000000000000000
  /\ spec_min_output (10 ^ 21 + 7) 50 = 995000000000000000006.
Proof. vm_compute. repeat split. Qed.

Lemma slippage_guard_error_run :
  exists r m,
    int_scale 1000 (slippage_factor (Float64.lit 5 10)) = Ok r
    /\ min_output 1000 (Float64.lit 5 10) = Ok m
    /\ (Rabs (IZR r - 1000 * (1 - B2R (Float64.lit 5 10) / 100))
         <= 1 + 1000 * pow2 (-49))%R.
Proof.
  destruct (slippage_guard_error 1000 (Float64.lit 5 10)
              ltac:(split; [lia | reflexivity]) eq_refl eq_refl eq_refl)
    as (r & m & Hr & Hm & E & _).
  exists r, m. split; [exact Hr|]. split; [exact Hm | exact E].
Defined.

(* ================================================================== *)
(** * Sends of a trade                                               *)
(* ================================================================== *)

Lemma count_sends_app a b : count_sends (a ++ b) = (count_sends a + count_sends b)%nat.
Proof. unfold count_sends. now rewrite filter_app, length_app. Qed.

Lemma sends_ret n {A} (a : A) : sends_at_most n (ret a).
Proof. intros tr. exists []. rewrite app_nil_r. split; [reflexivity | cbn; lia]. Qed.

Lemma sends_raise n {A} e : sends_at_most n (@raise A e).
Proof. intros tr. exists []. rewrite app_nil_r. split; [reflexivity | cbn; lia]. Qed.

Lemma sends_lift n {A} (r : result A) : sends_at_most n (lift r).
Proof. intros tr. exists []. rewrite app_nil_r. split; [reflexivity | cbn; lia]. Qed.

Lemma sends_remote n {A} c (f : trace -> result A) :
  is_send c = false -> sends_at_most n (remote c f).
Proof.
  intros Hc tr. exists [c]. split; [reflexivity|].
  unfold count_sends. cbn. destruct c; try discriminate; cbn; lia.
Qed.

Lemma sends_weaken n n' {A} (m : M A) :
  (n <= n')%nat -> sends_at_most n m -> sends_at_most n' m.
Proof. intros Hn H tr. destruct (H tr) as (evs & E & C). exists evs. split; [exact E | lia]. Qed.

Lemma sends_bind n1 n2 {A B} (m : M A) (k : A -> M B) :
  sends_at_most n1 m -> (forall a, sends_at_most n2 (k a)) ->
  sends_at_most (n1 + n2) (bind m k).
Proof.
  intros Hm Hk tr. unfold bind. destruct (Hm tr) as (e1 & H1 & C1).
  destruct (m tr) as [[a|e] tr1]; simpl in H1; subst tr1.
  - destruct (Hk a (tr ++ e1)) as (e2 & H2 & C2). exists (e1 ++ e2).
    rewrite H2, app_assoc, count_sends_app. split; [reflexivity | lia].
  - exists e1. split; [reflexivity | lia].
Qed.

Lemma sends_bind0 n {A B} (m : M A) (k : A -> M B) :
  sends_at_most 0 m -> (forall a, sends_at_most n (k a)) ->
  sends_at_most n (bind m k).
Proof. intros Hm Hk. exact (sends_bind 0 n m k Hm Hk). Qed.

Lemma sends_attempt n {A} (m : M A) : sends_at_most n m -> sends_at_most n (attempt m).
Proof.
  intros Hm tr. unfold attempt. destruct (Hm tr) as (e1 & H1 & C1).
  destruct (m tr) as [r tr1]. now exists e1.
Qed.

Lemma sends_try_except n1 n2 {A} (m : M A) h :
  sends_at_most n1 m -> (forall e, sends_at_most n2 (h e)) ->
  sends_at_most (n1 + n2) (try_except m h).
Proof.
  intros Hm Hh tr. unfold try_except. destruct (Hm tr) as (e1 & H1 & C1).
  destruct (m tr) as [[a|e] tr1]; simpl in H1; subst tr1.
  - exists e1. split; [reflexivity | lia].
  - destruct (Hh e (tr ++ e1)) as (e2 & H2 & C2). exists (e1 ++ e2).
    rewrite H2, app_assoc, count_sends_app. split; [reflexivity | lia].
Qed.

Lemma sends_try_except0 n {A} (m : M A) h :
  sends_at_most n m -> (forall e, sends_at_most 0 (h e)) ->
  sends_at_most n (try_except m h).
Proof.
  intros Hm Hh. apply (sends_weaken (n + 0)); [lia|]. now apply sends_try_except.
Qed.

(** Computations made of reads only. *)
Ltac quiet :=
  repeat first
    [ apply sends_ret | apply sends_raise | apply sends_lift
    | apply sends_remote; reflexivity
    | apply sends_attempt
    | apply sends_bind0; [| intros ?]
    | apply sends_try_except0; [| intros ?]
    | match goal with
      | |- sends_at_most _ (match ?x with _ => _ end) => destruct x
      | |- sends_at_most _ (if ?x then _ else _) => destruct x
      | |- sends_at_most _ (let _ := _ in _) => cbv zeta
      end ].

Section Sends.
Variable tm : TradingManager.
Variable w : World.

Lemma sends_send n t : sends_at_most (S n) (send w t).
Proof.
  intros tr. exists [SendRawTransaction t]. split; [reflexivity|]. cbn. lia.
Qed.

Lemma quiet_price_estimate n c token amount :
  sends_at_most n (get_token_price_estimate tm w c token amount).
Proof.
  unfold get_token_price_estimate, _get_fallback_price_estimate, web3_of, checksum. quiet.
Qed.

Lemma quiet_sell_estimate n c token amount :
  sends_at_most n (get_token_sell_estimate tm w c token amount).
Proof. unfold get_token_sell_estimate, web3_of, checksum. quiet. Qed.

Lemma quiet_balance n c token user :
  sends_at_most n (_get_token_balance tm w c token user).
Proof. unfold _get_token_balance, checksum. quiet. Qed.

Lemma quiet_nonce n : sends_at_most n (resolve_nonce w).
Proof. unfold resolve_nonce. quiet. Qed.

Lemma quiet_gas_price n c : sends_at_most n (resolve_gas_price w c).
Proof. unfold resolve_gas_price. quiet. Qed.

Lemma quiet_deadline n : sends_at_most n (resolve_deadline w).
Proof. unfold resolve_deadline. quiet. Qed.

Lemma quiet_bind_swap n c mk : sends_at_most n (bind_swap tm w c mk).
Proof. unfold bind_swap. quiet. Qed.

Lemma quiet_rebind n rb mk : sends_at_most n (rebind_swap w rb mk).
Proof. unfold rebind_swap. quiet. Qed.

Lemma quiet_estimation n d amount value min_out mk sf rb :
  sends_at_most n (estimate_gas_with_retries w d amount value min_out mk sf rb).
Proof.
  unfold estimate_gas_with_retries, relaxed_simulation, simulate.
  quiet; apply quiet_rebind.
Qed.

Lemma quiet_check n : sends_at_most n (check_trading_contract w).
Proof. unfold check_trading_contract. quiet. Qed.

(** The sender makes at most as many sends as it has attempts. *)
Lemma sends_send_attempts t n l :
  sends_at_most (List.length l) (send_attempts w t n l).
Proof.
  induction l as [|i l IH]; cbn [send_attempts List.length]; [quiet|].
  change (S (List.length l)) with (1 + List.length l)%nat.
  apply sends_bind; [apply sends_attempt, sends_send|].
  intros [h|e]; [quiet|]. cbv zeta.
  destruct (has_nonce_too_low (exn_msg e)); [|quiet].
  destruct (i <? n - 1)%nat; [|quiet].
  apply sends_bind0; [quiet|]. intros _. exact IH.
Qed.

Lemma sends_sender t n : sends_at_most n (_send_transaction_with_retry w t n).
Proof.
  unfold _send_transaction_with_retry.
  apply (sends_weaken (List.length (seq 0 n))); [rewrite length_seq; lia|].
  apply sends_send_attempts.
Qed.

Lemma sends_buy_submit mk sf rb wei m g p n :
  sends_at_most 2 (buy_submit w mk sf rb wei m g p n).
Proof.
  unfold buy_submit, build, sign.
  apply sends_bind0; [quiet|]. intros [t|e]; [|quiet].
  apply sends_bind0; [quiet|]. intros _.
  apply (sends_bind 1 1); [apply sends_attempt, sends_send|].
  intros [h|e]; [quiet|]. cbv zeta.
  destruct (_ || _); [|quiet].
  apply sends_bind0; [quiet|]. intros m'.
  apply (sends_bind 1 0).
  - apply sends_attempt. apply sends_bind0; [apply quiet_rebind|]. intros f.
    apply sends_bind0; [quiet|]. intros g'. cbv zeta.
    apply sends_bind0; [quiet|]. intros _.
    apply sends_bind0; [quiet|]. intros _. apply sends_send.
  - intros [h|e2]; quiet.
Qed.

Lemma sends_sell_submit mk sf rb m g p n :
  sends_at_most 6 (sell_submit w mk sf rb m g p n).
Proof.
  unfold sell_submit, build, sign.
  apply sends_bind0; [quiet|]. intros gas. cbv zeta.
  apply sends_bind0; [quiet|]. intros _.
  apply sends_bind0; [quiet|]. intros _.
  apply (sends_bind 3 3); [apply sends_attempt, sends_sender|].
  intros [h|e]; [quiet|]. cbv zeta.
  destruct (_ || _); [|quiet].
  apply sends_bind0; [quiet|]. intros m'.
  apply (sends_bind 3 0).
  - apply sends_attempt. apply sends_bind0; [apply quiet_rebind|]. intros f.
    apply sends_bind0; [quiet|]. intros g'. cbv zeta.
    apply sends_bind0; [quiet|]. intros _.
    apply sends_bind0; [quiet|]. intros _. apply sends_sender.
  - intros [h|e2]; quiet.
Qed.

Lemma sends_approval c token user amount spender :
  sends_at_most 1 (_ensure_token_approval_for_contract tm w c token user amount spender).
Proof.
  unfold _ensure_token_approval_for_contract, checksum, build, sign, simulate.
  apply sends_try_except0; [|intros e; quiet].
  destruct (negb _); [quiet|].
  do 4 (apply sends_bind0; [quiet|]; intros ?).
  destruct (_ <=? _); [quiet|].
  do 2 (apply sends_bind0; [quiet|]; intros ?). cbv zeta.
  do 2 (apply sends_bind0; [quiet|]; intros ?).
  apply sends_bind0; [apply quiet_nonce|]. intros ?.
  do 4 (apply sends_bind0; [quiet|]; intros ?).
  apply (sends_bind 1 0); [apply sends_send | intros ?; quiet].
Qed.

Lemma sends_buy_execute c amount mk sf rb wei m :
  sends_at_most 2 (buy_execute w c amount mk sf rb wei m).
Proof.
  unfold buy_execute.
  apply sends_bind0; [apply quiet_estimation|]. intros [early|g]; [quiet|].
  apply sends_bind0; [apply quiet_gas_price|]. intros p.
  apply sends_bind0; [apply quiet_nonce|]. intros n.
  apply sends_buy_submit.
Qed.

Lemma sends_sell_execute c amount mk sf rb m :
  sends_at_most 6 (sell_execute w c amount mk sf rb m).
Proof.
  unfold sell_execute.
  apply sends_bind0; [apply quiet_estimation|]. intros [early|g]; [quiet|].
  apply sends_bind0; [apply quiet_gas_price|]. intros p.
  apply sends_bind0; [apply quiet_nonce|]. intros n.
  apply sends_sell_submit.
Qed.

Lemma quiet_buy_handlers n e : sends_at_most n (buy_handlers e).
Proof. unfold buy_handlers. quiet. Qed.

Lemma quiet_sell_handlers n e : sends_at_most n (sell_handlers e).
Proof. unfold sell_handlers. quiet. Qed.

Lemma sends_buy_tokens c token amount user slippage :
  sends_at_most 2 (buy_tokens tm w c token amount user slippage).
Proof.
  unfold buy_tokens, web3_of, checksum.
  apply sends_try_except0; [|intros e; apply quiet_buy_handlers].
  destruct (negb _); [quiet|]. cbv zeta.
  apply sends_bind0; [quiet|]. intros _.
  apply sends_bind0; [apply quiet_check|]. intros [early|]; [quiet|].
  destruct (negb _); [quiet|].
  destruct (Float64.leb _ _); [quiet|].
  apply sends_bind0; [apply quiet_price_estimate|]. intros [q|]; [|quiet].
  do 2 (apply sends_bind0; [quiet|]; intros ?).
  destruct (wrapped_native c); [|quiet].
  do 3 (apply sends_bind0; [quiet|]; intros ?).
  apply sends_bind0; [apply quiet_deadline|]. intros dl. cbv zeta.
  apply sends_bind0; [apply quiet_bind_swap|]. intros sf.
  apply sends_buy_execute.
Qed.

Lemma sends_sell_swap c token amount wei slippage dl :
  sends_at_most 6 (sell_swap tm w c token amount wei slippage dl).
Proof.
  unfold sell_swap.
  apply sends_bind0; [apply quiet_sell_estimate|]. intros est.
  apply sends_bind0; [quiet|]. intros m. cbv zeta.
  apply sends_bind0; [apply quiet_bind_swap|]. intros sf.
  apply sends_sell_execute.
Qed.

Lemma sends_sell_tokens c token amount user slippage :
  sends_at_most 7 (sell_tokens tm w c token amount user slippage).
Proof.
  unfold sell_tokens, web3_of, checksum.
  apply sends_try_except0; [|intros e; apply quiet_sell_handlers].
  destruct (negb _); [quiet|]. cbv zeta.
  apply sends_bind0; [quiet|]. intros _.
  apply sends_bind0; [apply quiet_check|]. intros [early|]; [quiet|].
  destruct (negb _); [quiet|].
  destruct (Float64.leb _ _); [quiet|].
  apply sends_bind0; [quiet|]. intros d.
  apply sends_bind0; [quiet|]. intros wei.
  apply sends_bind0; [apply quiet_balance|]. intros bal.
  destruct (Float64.ltb _ _); [quiet|].
  destruct (trading_contract_address c) as [sp|]; [|quiet].
  apply (sends_bind 1 6); [apply sends_approval|]. intros [|h|e]; [| |quiet].
  all: destruct (wrapped_native c); [|quiet].
  all: do 2 (apply sends_bind0; [quiet|]; intros ?).
  all: apply sends_bind0; [apply quiet_deadline|]; intros dl; apply sends_sell_swap.
Qed.
End Sends.

(** X2.  Whatever the client answers, a buy sends at most two
    transactions: the swap and its single resubmission.  The bound is
    reached when the node rejects both on the pool invariant. *)
Theorem buy_sends_at_most_two :
  (forall tm w c token amount user slippage,
      sends_at_most 2 (buy_tokens tm w c token amount user slippage))
  /\ count_sends (snd (buy_tokens all_chains moving_pool_world BSC token tenth wallet
                         None [])) = 2%nat.
Proof. split; [exact sends_buy_tokens | vm_compute; reflexivity]. Qed.

(** X3.  Whatever the client answers, a sell sends at most seven
    transactions: one approval, three attempts of the swap and three of
    its resubmission.  The bound is reached on [worst_sell_world]. *)
Theorem sell_sends_at_most_seven :
  (forall tm w c token amount user slippage,
      sends_at_most 7 (sell_tokens tm w c token amount user slippage))
  /\ count_sends (snd (sell_tokens all_chains worst_sell_world BSC token five wallet
                         None [])) = 7%nat.
Proof. split; [exact sends_sell_tokens | vm_compute; reflexivity]. Qed.

(* ================================================================== *)
(** * Exceptions and what is known of returned values                *)
(* ================================================================== *)

Lemma never_raises_try_except {A} (m : M A) h :
  (forall e, never_raises (h e)) -> never_raises (try_except m h).
Proof.
  intros Hh tr. unfold try_except. destruct (m tr) as [[a|e] tr1]; [reflexivity|].
  apply Hh.
Qed.

Lemma never_raises_ret {A} (a : A) : never_raises (ret a).
Proof. intros tr. reflexivity. Qed.

Lemma post_ret {A} (P : A -> trace -> Prop) a : (forall tr, P a tr) -> post P (ret a).
Proof. intros H tr a' tr' [= <- <-]. apply H. Qed.

Lemma post_raise {A} (P : A -> trace -> Prop) e : post P (raise e).
Proof. intros tr a tr' [=]. Qed.

Lemma post_bind {A B} (P : B -> trace -> Prop) (m : M A) (k : A -> M B) :
  (forall a, post P (k a)) -> post P (bind m k).
Proof.
  intros Hk tr b tr'. unfold bind. destruct (m tr) as [[a|e] tr1]; [|discriminate].
  apply Hk.
Qed.

Lemma post_try_except {A} (P : A -> trace -> Prop) (m : M A) h :
  post P m -> (forall e, post P (h e)) -> post P (try_except m h).
Proof.
  intros Hm Hh tr a tr'. unfold try_except.
  destruct (m tr) as [[a1|e] tr1] eqn:E.
  - intros [= <- <-]. now apply (Hm tr).
  - apply Hh.
Qed.

Lemma post_bind_val {A B} (Q : A -> Prop) (P : B -> trace -> Prop)
    (m : M A) (k : A -> M B) :
  post (fun a _ => Q a) m -> (forall a, Q a -> post P (k a)) -> post P (bind m k).
Proof.
  intros Hm Hk tr b tr'. unfold bind. destruct (m tr) as [[a|e] tr1] eqn:E; [|discriminate].
  apply Hk. now apply (Hm tr a tr1).
Qed.

Section Success.
Variable tm : TradingManager.
Variable w : World.

Lemma check_fails :
  post (fun chk _ => forall early, chk = Some early -> is_failure early)
       (check_trading_contract w).
Proof.
  unfold check_trading_contract. apply post_bind. intros [[|]|e];
    apply post_ret; intros tr early [= <-]; reflexivity.
Qed.

Lemma estimation_fails d amount value min_out mk sf rb :
  post (fun g _ => forall early, g = inl early -> is_failure early)
       (estimate_gas_with_retries w d amount value min_out mk sf rb).
Proof.
  unfold estimate_gas_with_retries.
  apply post_bind. intros [g|e]; [apply post_ret; intros tr early [=]|].
  destruct (classify (exn_msg e)).
  - apply post_ret. intros tr early [= <-]. reflexivity.
  - apply post_ret. intros tr early [= <-]. reflexivity.
  - apply post_bind. intros [g1|e1]; [apply post_ret; intros tr early [=]|].
    apply post_bind. intros [g2|e2]; [apply post_ret; intros tr early [=]|].
    cbv zeta. apply post_ret. intros tr early [= <-]. reflexivity.
  - apply post_ret. intros tr early [=].
Qed.

(** X1.  The trade functions, the approval step, the two estimates and
    the balance read turn every exception into a returned value: none of
    them raises, whatever the client answers. *)
Theorem engine_never_raises c token amount user slippage n spender :
  never_raises (buy_tokens tm w c token amount user slippage)
  /\ never_raises (sell_tokens tm w c token amount user slippage)
  /\ never_raises (_ensure_token_approval_for_contract tm w c token user n spender)
  /\ never_raises (get_token_price_estimate tm w c token amount)
  /\ never_raises (get_token_sell_estimate tm w c token amount)
  /\ never_raises (_get_token_balance tm w c token user).
Proof.
  repeat split.
  - apply never_raises_try_except. intros e. unfold buy_handlers.
    destruct (exn_cls e); try apply never_raises_ret.
    destruct (_ && _); apply never_raises_ret.
  - apply never_raises_try_except. intros e. unfold sell_handlers.
    destruct (exn_cls e); apply never_raises_ret.
  - apply never_raises_try_except. intros e. apply never_raises_ret.
  - apply never_raises_try_except. intros e.
    apply never_raises_try_except. intros e'. apply never_raises_ret.
  - apply never_raises_try_except. intros e. apply never_raises_ret.
  - apply never_raises_try_except. intros e. apply never_raises_ret.
Qed.
End Success.

(* ================================================================== *)
(** * Edges of the engine                                            *)
(* ================================================================== *)

Section Edges.
Variable tm : TradingManager.
Variable w : World.

(** X9.  On a chain the manager has no entry for, nothing is asked of
    the node: the trades and the approval end with the unsupported-chain
    error, the estimates are [None] and the balance is 0, with the
    history unchanged. *)
Theorem unsupported_chain_makes_no_call c token amount user slippage n spender tr :
  trading_contracts tm c = false ->
  router_contracts tm c = false ->
  web3_instances tm c = false ->
  buy_tokens tm w c token amount user slippage tr = (Ok (Failure ChainNotSupported), tr)
  /\ sell_tokens tm w c token amount user slippage tr = (Ok (Failure ChainNotSupported), tr)
  /\ _ensure_token_approval_for_contract tm w c token user n spender tr
     = (Ok (ApprovalError ChainNotSupported), tr)
  /\ get_token_price_estimate tm w c token amount tr = (Ok None, tr)
  /\ get_token_sell_estimate tm w c token amount tr = (Ok None, tr)
  /\ _get_token_balance tm w c token user tr = (Ok Float64.zero, tr).
Proof.
  intros Ht Hr Hw.
  unfold buy_tokens, sell_tokens, _ensure_token_approval_for_contract,
    get_token_price_estimate, get_token_sell_estimate, _get_token_balance.
  unfold try_except, ret. rewrite Ht, Hr, Hw. cbn [negb]. repeat split.
Qed.

(** X10.  When the first simulation reverts with the
    insufficient-output signature (and no arithmetic panic), the trade
    ends at once with the insufficient-output error: no relaxed
    simulation, nothing built, signed or sent. *)
Theorem insufficient_output_ends_the_trade c amount value min_out mk sf rb tr e :
  estimate_gas w tr sf value = Raise e ->
  has_panic (exn_msg e) = false ->
  has_insufficient_output (exn_msg e) = true ->
  buy_execute w c amount mk sf rb value min_out tr
  = (Ok (Failure InsufficientOutput), tr ++ [EstimateGas sf value])
  /\ (value = 0 ->
      sell_execute w c amount mk sf rb min_out tr
      = (Ok (Failure InsufficientOutput), tr ++ [EstimateGas sf value])).
Proof.
  intros H0 Hp Hi.
  assert (Hc : classify (exn_msg e) = InsufficientOutputRevert).
  { unfold classify. now rewrite Hp, Hi. }
  split; [|intros ->]; unfold buy_execute, sell_execute, estimate_gas_with_retries;
    munfold; rw H0; rw Hc; reflexivity.
Qed.

(** What the estimation hands on: the State 0 estimate, or 300000. *)
Lemma estimation_gas d amount value min_out mk sf rb tr g trg :
  estimate_gas_with_retries w d amount value min_out mk sf rb tr = (Ok (inr g), trg) ->
  estimate_gas w tr sf value = Ok g \/ g = 300000.
Proof.
  unfold estimate_gas_with_retries. munfold.
  destruct (estimate_gas w tr sf value) as [g0|e]; cbv beta iota.
  - intros [= <- _]. now left.
  - destruct (classify (exn_msg e)); cbv beta iota; try discriminate.
    + destruct (relaxed_simulation w rb mk value min_out (Float64.lit 70 100) _)
        as [[g1|e1] tr1]; cbv beta iota.
      * intros [= <- _]. now right.
      * destruct (relaxed_simulation w rb mk value min_out (Float64.lit 50 100) _)
          as [[g2|e2] tr2]; cbv beta iota; [|discriminate].
        intros [= <- _]. now right.
    + intros [= <- _]. now right.
Qed.

(** X11.  The relaxed simulations only serve the gas limit: the gas
    handed on is the first simulation's estimate or 300000, and the
    transaction built, signed and sent after the estimation carries the
    call of the first simulation, with its unrelaxed minimum, and the
    gas limit [int(gas * 1.5)]. *)
Theorem estimation_only_sets_the_gas_limit c amount mk sf rb wei m tr g trg p trp n trn gas :
  estimate_gas_with_retries w Buy amount wei m mk sf rb tr = (Ok (inr g), trg) ->
  resolve_gas_price w c trg = (Ok p, trp) ->
  resolve_nonce w trp = (Ok n, trn) ->
  int_scale g (Float64.lit 15 10) = Ok gas ->
  let t := {| tx_call := sf; tx_value := wei; tx_gas := gas;
              tx_gasPrice := p; tx_nonce := n |} in
  build_transaction w trn t = Ok tt ->
  sign_transaction w (trn ++ [BuildTransaction t]) t = Ok tt ->
  (estimate_gas w tr sf wei = Ok g \/ g = 300000)
  /\ exists rest,
      snd (buy_execute w c amount mk sf rb wei m tr)
      = trn ++ [BuildTransaction t; SignTransaction t; SendRawTransaction t] ++ rest.
Proof.
  intros He Hp Hn Hg t Hb Hs. split; [eapply estimation_gas; exact He|].
  destruct (buy_submit_reaches_send w mk sf rb wei m g p n trn gas Hg Hb Hs) as [rest Hr].
  exists rest. etransitivity; [| exact Hr]. f_equal. unfold buy_execute.
  unfold bind at 1. rw He. unfold bind at 1. rw Hp. unfold bind at 1. rw Hn.
  reflexivity.
Qed.
End Edges.

(* ================================================================== *)
(** * The slippage setting of the bot                                *)
(* ================================================================== *)

(** X13.  The tolerance stored for [user_id] is replaced exactly when
    the handler gets to send 'Slippage Updated', and is then the value
    read back; on 'custom', on an unparsable text and on a value outside
    the range it is left as it was.  No other user's tolerance changes,
    and a user without a stored tolerance gets 0.5.  The value is stored
    before its confirmation is sent: when that send fails the value
    stays stored and the reply is the error message. *)
Theorem slippage_setting_roundtrip net st user_id input :
  let r := handle_set_slippage net st user_id input in
  (forall v, In (SlippageUpdated v) (outbox r) ->
     store r = set_user_slippage st user_id v
     /\ get_user_slippage (store r) user_id = v)
  /\ ((forall v, ~ In (SlippageUpdated v) (outbox r)) -> store r = st)
  /\ (forall u, u <> user_id ->
        get_user_slippage (store r) u = get_user_slippage st u)
  /\ (forall u, st u = None -> get_user_slippage st u = Float64.lit 5 10)
  /\ (forall v m,
        input = SlippageText (Some v) ->
        Float64.ltb v (Float64.lit 1 10) || Float64.ltb (Float64.of_Z 50) v = false ->
        net [] (SlippageUpdated v) = SendError m ->
        net [SlippageUpdated v] (SlippageError m) = Delivered ->
        store r = set_user_slippage st user_id v
        /\ outbox r = [SlippageUpdated v; SlippageError m]
        /\ escaped r = None).
Proof.
  cbv zeta.
  assert (Hset : forall v, get_user_slippage (set_user_slippage st user_id v) user_id = v).
  { intros v. unfold get_user_slippage, set_user_slippage. now rewrite Z.eqb_refl. }
  assert (Hother : forall v u, u <> user_id ->
             get_user_slippage (set_user_slippage st user_id v) u = get_user_slippage st u).
  { intros v u Hu. unfold get_user_slippage, set_user_slippage.
    destruct (Z.eqb_spec u user_id); [contradiction | reflexivity]. }
  assert (Hdef : forall u, st u = None -> get_user_slippage st u = Float64.lit 5 10).
  { intros u Hu. unfold get_user_slippage. now rewrite Hu. }
  (* the store and the replies of a send that the outer [try] guards *)
  assert (Hsend : forall st0 reply,
            store (send_and_return net st0 [] reply) = st0
            /\ exists rest, outbox (send_and_return net st0 [] reply) = reply :: rest
                            /\ forall v, ~ In (SlippageUpdated v) rest).
  { intros st0 reply. unfold send_and_return, report_error.
    destruct (net [] reply); cbn [store outbox app]; (split; [reflexivity|]);
      eexists; (split; [reflexivity|]); intros v H; cbn in H; intuition discriminate. }
  unfold handle_set_slippage.
  destruct input as [|[v0|]].
  - destruct (Hsend st EnterCustomSlippage) as (Hs & rest & Ho & Hn).
    rewrite Hs, Ho. split; [|split; [|split; [|split]]].
    + intros v [H|H]; [discriminate | now apply Hn in H].
    + reflexivity.
    + reflexivity.
    + exact Hdef.
    + intros v m [=].
  - destruct (Float64.ltb v0 (Float64.lit 1 10) || Float64.ltb (Float64.of_Z 50) v0) eqn:Hchk.
    + assert (Hrej : store (match net [] SlippageOutOfRange with
                            | Delivered =>
                                {| store := st; outbox := [SlippageOutOfRange];
                                   escaped := None |}
                            | SendValueError _ =>
                                send_and_return net st [SlippageOutOfRange]
                                  InvalidSlippageValue
                            | SendError m => report_error net st [SlippageOutOfRange] m
                            end) = st
                     /\ forall v, ~ In (SlippageUpdated v)
                                    (outbox (match net [] SlippageOutOfRange with
                                             | Delivered =>
                                                 {| store := st;
                                                    outbox := [SlippageOutOfRange];
                                                    escaped := None |}
                                             | SendValueError _ =>
                                                 send_and_return net st
                                                   [SlippageOutOfRange]
                                                   InvalidSlippageValue
                                             | SendError m =>
                                                 report_error net st
                                                   [SlippageOutOfRange] m
                                             end))).
      { unfold send_and_return, report_error.
        destruct (net [] SlippageOutOfRange); cbn [store outbox app].
        - split; [reflexivity|]. intros v [H|[]]; discriminate.
        - destruct (net [SlippageOutOfRange] InvalidSlippageValue);
            cbn [store outbox app]; (split; [reflexivity|]);
            intros v H; cbn in H; intuition discriminate.
        - split; [reflexivity|]. intros v H; cbn in H; intuition discriminate. }
      destruct Hrej as [Hs Hn]. rewrite Hs. split; [|split; [|split; [|split]]].
      * intros v H. now apply Hn in H.
      * reflexivity.
      * reflexivity.
      * exact Hdef.
      * intros v m [= <-] Hacc. congruence.
    + destruct (Hsend (set_user_slippage st user_id v0) (SlippageUpdated v0))
        as (Hs & rest & Ho & Hn).
      rewrite Hs. split; [|split; [|split; [|split]]].
      * rewrite Ho. intros v [[= <-]|H]; [auto | now apply Hn in H].
      * rewrite Ho. intros H. exfalso. apply (H v0). now left.
      * intros u Hu. now apply Hother.
      * exact Hdef.
      * intros v m [= <-] _ H1 H2. split; [reflexivity|].
        unfold send_and_return, report_error. rewrite H1. cbn [outbox escaped app].
        now rewrite H2.
  - destruct (Hsend st InvalidSlippageValue) as (Hs & rest & Ho & Hn).
    rewrite Hs, Ho. split; [|split; [|split; [|split]]].
    + intros v [H|H]; [discriminate | now apply Hn in H].
    + reflexivity.
    + reflexivity.
    + exact Hdef.
    + intros v m [=].
Qed.

Lemma fifty_eq : Float64.of_Z 50 = S754_finite false 7036874417766400 (-47).
Proof. reflexivity. Qed.

Lemma tenth_eq : Float64.lit 1 10 = S754_finite false 7205759403792794 (-56).
Proof. vm_compute. reflexivity. Qed.

(** A tolerance that passes the check is a NaN or lies between 0 and
    100. *)
Lemma accepted_slippage_range v :
  Float64.ltb v (Float64.lit 1 10) || Float64.ltb (Float64.of_Z 50) v = false ->
  Float64.is_nan v = false ->
  Float64.leb Float64.zero v = true /\ Float64.leb v Float64.hundred = true.
Proof.
  rewrite fifty_eq, tenth_eq, hundred_eq. intros H Hn.
  apply orb_false_iff in H. destruct H as [H1 H2].
  destruct v as [b|b| |b m e]; try discriminate.
  - destruct b; discriminate.
  - destruct b; try discriminate.
    unfold Float64.ltb, SFltb, SFcompare in H2.
    unfold Float64.leb, SFleb, SFcompare. split; [reflexivity|].
    cbn [Z.to_pos mh].
    destruct (Z.compare_spec (-47) e) as [E|E|E]; try discriminate.
    + subst e. reflexivity.
    + destruct (Z.compare_spec e (-46)) as [E'|E'|E']; try reflexivity; lia.
Qed.

Lemma pow2_m52_value : (pow2 (-52) * 4503599627370496 = 1)%R.
Proof.
  pose proof (pow2_inv 52) as Hi. cbn [Z.opp] in Hi.
  rewrite <- IZR_pow2 in Hi by lia. change (2 ^ 52) with 4503599627370496 in Hi.
  lra.
Qed.

Lemma ltb_finite_false m1 e1 m2 e2 :
  Float64.ltb (S754_finite false m1 e1) (S754_finite false m2 e2) = false ->
  e2 < e1 \/ (e1 = e2 /\ Z.pos m2 <= Z.pos m1).
Proof.
  unfold Float64.ltb, SFltb, SFcompare.
  destruct (Z.compare_spec e1 e2) as [E|E|E]; try discriminate; [|lia].
  change (Pos.compare_cont Eq m1 m2) with (Pos.compare m1 m2).
  destruct (Pos.compare_spec m1 m2); try discriminate; lia.
Qed.

(** A binary64 that is not below [0.1] is at least one tenth. *)
Lemma not_below_tenth ms es :
  canon ms es ->
  Float64.ltb (S754_finite false (Z.to_pos ms) es) (Float64.lit 1 10) = false ->
  (1 / 10 <= F2R ms es)%R.
Proof.
  intros Hc Hlt. rewrite tenth_eq in Hlt.
  assert (Hms : 0 < ms) by apply Hc.
  apply ltb_finite_false in Hlt. rewrite Z2Pos.id in Hlt by lia.
  set (mt := 7205759403792794) in *.
  assert (Ht : (1 / 10 <= F2R mt (-56))%R).
  { unfold F2R, mt. pose proof (pow2_inv 56) as Hi. cbn [Z.opp] in Hi.
    rewrite <- IZR_pow2 in Hi by lia. change (2 ^ 56) with 72057594037927936 in Hi.
    pose proof (pow2R_pos (-56)). lra. }
  assert (Hmt : mt <= 2 ^ 52 * 2) by (vm_compute; discriminate).
  eapply Rle_trans; [exact Ht|].
  apply (F2R_le _ _ _ _ (-56)); try lia.
  change (-56 - -56) with 0. rewrite Z.pow_0_r, Z.mul_1_r.
  destruct Hlt as [E|[E Hm]].
  - destruct (canon_normal_or_subnormal _ _ Hc) as [Hd|[He _]]; [|lia].
    destruct (Zdigits2_bounds ms Hms) as [B _]. rewrite Hd in B.
    assert (2 ^ 1 <= 2 ^ (es - -56)) by (apply Z.pow_le_mono_r; lia).
    change (2 ^ 1) with 2 in *. change (53 - 1) with 52 in B.
    clearbody mt. nia.
  - subst es. change (-56 - -56) with 0. rewrite Z.pow_0_r, Z.mul_1_r. exact Hm.
Qed.

(** For a tolerance between 0.1 and 100 the minimum is at most the
    quote itself, also where [float(out)] is above the quote. *)
Lemma min_output_at_most_quote out s :
  2 <= out < 2 ^ 1023 ->
  valid_binary Float64.prec Float64.emax s = true ->
  Float64.leb Float64.zero s = true ->
  Float64.leb s Float64.hundred = true ->
  Float64.ltb s (Float64.lit 1 10) = false ->
  exists m, min_output out s = Ok m /\ 0 < m <= out.
Proof.
  intros Hout Hv H0 H100 Hlt.
  destruct (min_output_range out s Hout Hv H0 H100) as (m & q & Hm & Hq & Hr & Hex).
  exists m. split; [exact Hm|]. split; [lia|].
  destruct (Z_lt_ge_dec out (2 ^ 53)) as [Hs|Hb]; [rewrite <- (Hex Hs); lia|].
  destruct (slippage_factor_error s Hv H0 H100) as (mf & ef & Hf & Hle & EF).
  destruct (int_scale_error out _ mf ef Hout Hf Hle) as (r & Hir & ER).
  destruct (int_scale_error out (Float64.lit 95 100) m95 (-53) Hout
              ltac:(right; split; [exact canon_95 | exact lit_95_eq]) le_one_95)
    as (c & Hc & EC).
  pose proof F2R_95 as E95. pose proof pow2_m52_value as Hu.
  pose proof pow2_m51 as H51. pose proof pow2_m50 as H50.
  assert (HB : (1 / 10 <= B2R s)%R).
  { destruct (slippage_cases s Hv H0 H100) as [[b ->]|(ms & es & -> & Hcs & _)].
    - exfalso. rewrite tenth_eq in Hlt. destruct b; discriminate.
    - cbn [B2R]. rewrite Z2Pos.id by apply Hcs. now apply not_below_tenth. }
  assert (HX : (9007199254740992 <= IZR out)%R).
  { change 9007199254740992%R with (IZR (2 ^ 53)). apply IZR_le. lia. }
  apply Rabs_le_inv in EF. apply Rabs_le_inv in ER. apply Rabs_le_inv in EC.
  apply Rabs_le_inv in E95.
  rewrite H50 in ER, EC. rewrite H51 in EF, E95.
  set (X := IZR out) in *. set (u := pow2 (-52)) in *.
  set (F := F2R mf ef) in *. set (G := F2R m95 (-53)) in *.
  assert (Hu0 : (0 < u)%R) by (unfold u; apply pow2R_pos).
  assert (HXu : (X * u <= X / 4503599627370496)%R).
  { apply Rmult_le_reg_r with 4503599627370496%R; [lra|].
    replace (X * u * 4503599627370496)%R with (X * (u * 4503599627370496))%R by ring.
    rewrite Hu. lra. }
  assert (HXu0 : (0 <= X * u)%R) by (apply Rmult_le_pos; lra).
  unfold min_output in Hm. rewrite Hir in Hm. cbn [rbind] in Hm.
  apply le_IZR. fold X.
  destruct (Z.leb_spec r 0).
  - rewrite Hc in Hm. injection Hm as <-.
    assert (X * G <= X * (95 / 100 + 2 * u))%R by (apply Rmult_le_compat_l; lra).
    lra.
  - injection Hm as <-.
    assert (X * F <= X * (1 - 1 / 1000 + 2 * u))%R by (apply Rmult_le_compat_l; lra).
    lra.
Qed.

(** X14.  A tolerance set through the bot, unless it is a NaN, keeps
    the minimum of the slippage guard positive and at most the quote
    itself, for every quote of at least 2 base units (also above [2^53],
    where [float(out)] can exceed the quote). *)
Theorem accepted_slippage_is_guarded net st user_id v out :
  valid_binary Float64.prec Float64.emax v = true ->
  Float64.is_nan v = false ->
  2 <= out < 2 ^ 1023 ->
  let r := handle_set_slippage net st user_id (SlippageText (Some v)) in
  In (SlippageUpdated v) (outbox r) ->
  get_user_slippage (store r) user_id = v
  /\ exists m, min_output out (get_user_slippage (store r) user_id) = Ok m
               /\ 0 < m <= out.
Proof.
  intros Hv Hn Hout r Hin. subst r. unfold handle_set_slippage in *.
  destruct (Float64.ltb v (Float64.lit 1 10) || Float64.ltb (Float64.of_Z 50) v) eqn:Hchk.
  - exfalso. revert Hin. unfold send_and_return, report_error.
    destruct (net [] SlippageOutOfRange); cbn [outbox app].
    + intros [H|[]]; discriminate.
    + destruct (net [SlippageOutOfRange] InvalidSlippageValue); cbn [outbox app];
        intros H; cbn in H; intuition discriminate.
    + intros H; cbn in H; intuition discriminate.
  - assert (Hs : store (send_and_return net (set_user_slippage st user_id v) []
                          (SlippageUpdated v)) = set_user_slippage st user_id v).
    { unfold send_and_return, report_error. now destruct (net [] (SlippageUpdated v)). }
    rewrite Hs. unfold get_user_slippage, set_user_slippage. rewrite Z.eqb_refl.
    split; [reflexivity|].
    destruct (accepted_slippage_range v Hchk Hn) as [H0 H100].
    apply orb_false_iff in Hchk. destruct Hchk as [Hlt _].
    now apply min_output_at_most_quote.
Qed.

Lemma min_output_nan out : exists e, min_output out S754_nan = Raise e.
Proof.
  unfold min_output, int_scale, py_float.
  change (slippage_factor S754_nan) with S754_nan.
  destruct (Float64.of_Z out); cbn [rbind Float64.mul SFmul py_int]; eauto.
Qed.

Lemma sends_bind_raise n {A B} e (k : A -> M B) :
  sends_at_most n (bind (lift (Raise e)) k).
Proof.
  intros tr. exists []. rewrite app_nil_r. split; [reflexivity | cbn; lia].
Qed.

Lemma post_bind_raise {A B} (P : B -> trace -> Prop) e (k : A -> M B) :
  post P (bind (lift (Raise e)) k).
Proof. intros tr b tr' [=]. Qed.

Section NaN.
Variable tm : TradingManager.
Variable w : World.

(** X15.  The check of the settings lets a NaN through: whatever the
    sends meet, the NaN is stored and 'Slippage Updated' is the first
    reply, the only one when it is delivered.  With a NaN tolerance
    every buy ends in a failed result without sending. *)
Theorem nan_slippage_fails_every_buy net st user_id c token amount user :
  let r := handle_set_slippage net st user_id (SlippageText (Some S754_nan)) in
  store r = set_user_slippage st user_id S754_nan
  /\ hd_error (outbox r) = Some (SlippageUpdated S754_nan)
  /\ (net [] (SlippageUpdated S754_nan) = Delivered ->
      outbox r = [SlippageUpdated S754_nan] /\ escaped r = None)
  /\ sends_at_most 0 (buy_tokens tm w c token amount user (Some S754_nan))
  /\ post (fun r _ => is_failure r) (buy_tokens tm w c token amount user (Some S754_nan)).
Proof.
  cbv zeta. unfold handle_set_slippage.
  change (Float64.ltb S754_nan (Float64.lit 1 10)
          || Float64.ltb (Float64.of_Z 50) S754_nan) with false. cbv iota.
  unfold send_and_return, report_error.
  split; [now destruct (net [] (SlippageUpdated S754_nan))|].
  split; [now destruct (net [] (SlippageUpdated S754_nan))|].
  split; [intros ->; split; reflexivity|].
  split.
  - unfold buy_tokens, web3_of, checksum.
    apply sends_try_except0; [|intros e; apply quiet_buy_handlers].
    destruct (negb _); [quiet|]. cbv zeta.
    apply sends_bind0; [quiet|]. intros _.
    apply sends_bind0; [apply quiet_check|]. intros [early|]; [quiet|].
    destruct (negb _); [quiet|].
    destruct (Float64.leb _ _); [quiet|].
    apply sends_bind0; [apply quiet_price_estimate|]. intros [q|]; [|quiet].
    destruct (min_output_nan (token_amount_wei q)) as [e ->].
    apply sends_bind_raise.
  - unfold buy_tokens.
    apply post_try_except.
    + destruct (negb _); [apply post_ret; reflexivity|]. cbv zeta.
      apply post_bind. intros _.
      apply (post_bind_val _ _ _ _ (check_fails w)).
      intros [early|] Hc; [apply post_ret; intros _; now apply Hc|].
      destruct (negb _); [apply post_ret; reflexivity|].
      destruct (Float64.leb _ _); [apply post_ret; reflexivity|].
      apply post_bind. intros [q|]; [|apply post_ret; reflexivity].
      destruct (min_output_nan (token_amount_wei q)) as [e ->].
      apply post_bind_raise.
    + intros e. unfold buy_handlers. cbv zeta.
      destruct (exn_cls e); try (apply post_ret; reflexivity).
      destruct (_ && _); apply post_ret; reflexivity.
Qed.
End NaN.

(* ================================================================== *)
(** * Start-up                                                       *)
(* ================================================================== *)

Lemma chain_eqb_eq a b : chain_eqb a b = true <-> a = b.
Proof. destruct a, b; cbn; split; congruence. Qed.

Lemma initialize_chain_well_formed env tm c :
  c <> OtherChain -> well_formed env tm -> well_formed env (initialize_chain env tm c).
Proof.
  intros Hc Hwf k. destruct (Hwf k) as (H1 & H2 & H3).
  unfold initialize_chain.
  destruct (web3_built env c); cbn [negb]; [|auto].
  destruct (chain_eqb c BSC && negb (poa_injected env));
    [|destruct (is_connected env c) as [[|]|] eqn:Hconn;
      [destruct (router_built env c); cbn [negb];
       [destruct (trading_built env c); cbn [negb]|]| |]];
    cbn; unfold dict_set;
    (destruct (chain_eqb k c) eqn:E; [apply chain_eqb_eq in E; subst k|]);
    intuition congruence.
Qed.

Lemma initialize_well_formed env : well_formed env (_initialize_contracts env).
Proof.
  unfold _initialize_contracts. cbn [fold_left].
  repeat (apply initialize_chain_well_formed; [discriminate|]).
  intros c. cbn. repeat split; discriminate.
Qed.

(** X16.  After start-up a chain with a trading contract has a router,
    a chain with a router has a client that answered [is_connected()]
    with [True], and no chain outside BSC, ETH and SEPOLIA has a
    client, whatever the start-up steps met. *)
Theorem initialised_manager_invariant env c :
  let tm := _initialize_contracts env in
  (trading_contracts tm c = true -> router_contracts tm c = true)
  /\ (router_contracts tm c = true ->
      web3_instances tm c = true /\ is_connected env c = Some true)
  /\ (web3_instances tm c = true -> c <> OtherChain).
Proof. exact (initialize_well_formed env c). Qed.

(** X17.  A chain whose node did not answer at start-up is never
    traded on or quoted: every later buy, sell and quote on it ends at
    the first check, with no call. *)
Theorem disconnected_chain_never_trades env w c token amount user slippage tr :
  is_connected env c <> Some true ->
  let tm := _initialize_contracts env in
  buy_tokens tm w c token amount user slippage tr = (Ok (Failure ChainNotSupported), tr)
  /\ sell_tokens tm w c token amount user slippage tr = (Ok (Failure ChainNotSupported), tr)
  /\ get_token_price_estimate tm w c token amount tr = (Ok None, tr)
  /\ get_token_sell_estimate tm w c token amount tr = (Ok None, tr).
Proof.
  intros Hc tm. destruct (initialize_well_formed env c) as (H1 & H2 & _). fold tm in H1, H2.
  assert (Hr : router_contracts tm c = false).
  { destruct (router_contracts tm c); [|reflexivity]. now destruct (H2 eq_refl). }
  assert (Ht : trading_contracts tm c = false).
  { destruct (trading_contracts tm c); [|reflexivity]. rewrite H1 in Hr; congruence. }
  unfold buy_tokens, sell_tokens, get_token_price_estimate, get_token_sell_estimate.
  unfold try_except, ret. rewrite Ht, Hr. cbn [negb]. repeat split.
Qed.

(* ================================================================== *)
(** * The ends of the tolerance range                                *)
(* ================================================================== *)

Lemma slippage_factor_zero : slippage_factor Float64.zero = Float64.one.
Proof. vm_compute. reflexivity. Qed.

Lemma slippage_factor_hundred : slippage_factor Float64.hundred = S754_zero false.
Proof. vm_compute. reflexivity. Qed.

(** Multiplying by [1.0] is exact. *)
Lemma mul_one mx ex :
  canon mx ex ->
  Float64.mul (S754_finite false (Z.to_pos mx) ex) Float64.one
  = S754_finite false (Z.to_pos mx) ex.
Proof.
  intros Hc. pose proof Hc as (Hm & Hfe & H971).
  pose proof (canon_lt _ _ Hc) as Hlt.
  rewrite one_eq, mul_finite by lia. cbn [xorb].
  assert (Hd : Zdigits2 (mx * 2 ^ 52) + (ex + -52) = Zdigits2 mx + ex).
  { rewrite Zdigits2_mul_pow2 by lia. lia. }
  destruct (BRA_cases false (mx * 2 ^ 52) (ex + -52) loc_Exact) as (M2 & HM2 & _ & ->).
  - lia.
  - rewrite Hd, Hfe. lia.
  - rewrite Hd, Hfe in HM2. replace (ex - (ex + -52)) with 52 in HM2 by lia.
    rewrite Z.div_mul in HM2 by lia. rewrite Z.mod_mul in HM2 by lia.
    assert (M2 = mx).
    { destruct HM2 as [->|[_ [[_ ?]|[? _]]]]; [reflexivity|congruence|lia]. }
    subst M2. rewrite Hd, Hfe. unfold bra_result.
    destruct (Z.eqb_spec mx 0); [lia|].
    destruct (Z.ltb_spec mx (2 ^ 53)); [|lia].
    destruct (Z.leb_spec ex 971); [reflexivity|lia].
Qed.

(** X12.  At tolerance 0 the guard asks the whole quote (the quote as
    a binary64, the quote itself below [2^53]); at tolerance 100 the
    scaled minimum is 0 and the guard falls back on [int(out * 0.95)]. *)
Theorem slippage_guard_endpoints out :
  0 < out < 2 ^ 1023 ->
  min_output out Float64.zero = as_float out
  /\ (out < 2 ^ 53 -> min_output out Float64.zero = Ok out)
  /\ min_output out Float64.hundred = int_scale out (Float64.lit 95 100).
Proof.
  intros Hout.
  destruct (Z.eq_dec out 1) as [->|Hne].
  { split; [|split; [intros _|]]; vm_compute; reflexivity. }
  assert (H2 : 2 <= out) by lia.
  destruct (of_Z_spec out Hout) as (mx & ex & Hx & Hc & Hge & Htr).
  assert (Hm : 0 < mx) by apply Hc.
  assert (Hpf : py_float out = Ok (S754_finite false (Z.to_pos mx) ex)).
  { unfold py_float. rewrite Hx. reflexivity. }
  assert (Hpos : 1 <= trunc mx ex).
  { apply trunc_ge_1; [lia| |lia].
    intros He. specialize (Hge H2 ltac:(lia)).
    assert (2 ^ (0 - ex) <= 2 ^ (1 - ex)) by (apply Z.pow_le_mono_r; lia). lia. }
  assert (H0 : min_output out Float64.zero = Ok (trunc mx ex)).
  { unfold min_output, int_scale. rewrite slippage_factor_zero, Hpf. cbn [rbind].
    rewrite mul_one by assumption. cbn [py_int]. rewrite trunc_mag_spec by lia.
    cbn [rbind]. destruct (Z.leb_spec (trunc mx ex) 0); [lia | reflexivity]. }
  split; [|split].
  - rewrite H0. unfold as_float. rewrite Hpf. cbn [rbind py_int].
    now rewrite trunc_mag_spec by lia.
  - intros H53. rewrite H0, (Htr H53). reflexivity.
  - unfold min_output. unfold int_scale at 1.
    rewrite slippage_factor_hundred, Hpf. cbn [rbind].
    unfold Float64.mul, SFmul. cbn [xorb py_int]. reflexivity.
Qed.

(* ================================================================== *)
(** * Sends the node answered                                        *)
(* ================================================================== *)

Section Answered.
Variable tm : TradingManager.
Variable w : World.

Lemma answered_app pre a b :
  answered w pre (a ++ b) = answered w pre a ++ answered w (pre ++ a) b.
Proof.
  revert pre. induction a as [|ev a IH]; intros pre; cbn [answered app].
  - now rewrite app_nil_r.
  - rewrite IH, <- !app_assoc. reflexivity.
Qed.

Lemma answered_quiet pre evs : count_sends evs = 0%nat -> answered w pre evs = [].
Proof.
  revert pre. induction evs as [|ev evs IH]; intros pre H; [reflexivity|].
  unfold count_sends in *. cbn [filter answered] in *.
  destruct ev; cbn [List.length] in H; try discriminate; cbn [app]; now apply IH.
Qed.

Lemma delivers_ret {A} (P : result A -> _ -> Prop) a : P (Ok a) [] -> delivers w P (ret a).
Proof. intros H tr. exists []. rewrite app_nil_r. now split. Qed.

Lemma delivers_raise {A} (P : result A -> _ -> Prop) e : P (Raise e) [] -> delivers w P (raise e).
Proof. intros H tr. exists []. rewrite app_nil_r. now split. Qed.

Lemma delivers_weaken {A} (P P' : result A -> _ -> Prop) m :
  delivers w P m -> (forall r l, P r l -> P' r l) -> delivers w P' m.
Proof. intros H HP tr. destruct (H tr) as (evs & E & p). exists evs. auto. Qed.

Lemma delivers_quiet {A} (P : result A -> _ -> Prop) m :
  sends_at_most 0 m -> (forall r, P r []) -> delivers w P m.
Proof.
  intros H HP tr. destruct (H tr) as (evs & E & C). exists evs. split; [exact E|].
  rewrite answered_quiet by lia. apply HP.
Qed.

Lemma delivers_bind {A B} (P1 : result A -> _ -> Prop) (P : result B -> _ -> Prop)
    (m : M A) (k : A -> M B) :
  delivers w P1 m ->
  (forall a l1, P1 (Ok a) l1 -> delivers w (fun r l2 => P r (l1 ++ l2)) (k a)) ->
  (forall e l1, P1 (Raise e) l1 -> P (Raise e) l1) ->
  delivers w P (bind m k).
Proof.
  intros Hm Hk He tr. unfold bind. destruct (Hm tr) as (e1 & E1 & p1).
  destruct (m tr) as [[a|e] tr1]; cbn [fst snd] in *; subst tr1.
  - destruct (Hk a _ p1 (tr ++ e1)) as (e2 & E2 & p2). exists (e1 ++ e2).
    rewrite E2, app_assoc, answered_app. now split.
  - exists e1. split; [reflexivity|]. now apply He.
Qed.

(** A prefix of reads, with what is known of its value. *)
Lemma delivers_bind0 {A B} (Q : A -> Prop) (P : result B -> _ -> Prop)
    (m : M A) (k : A -> M B) :
  sends_at_most 0 m -> post (fun a _ => Q a) m ->
  (forall a, Q a -> delivers w P (k a)) ->
  (forall e, P (Raise e) []) ->
  delivers w P (bind m k).
Proof.
  intros Hs Hq Hk He.
  apply (delivers_bind (fun r l => l = [] /\ forall a, r = Ok a -> Q a)).
  - intros tr. destruct (Hs tr) as (evs & E & C). exists evs. split; [exact E|].
    split; [apply answered_quiet; lia|].
    intros a Ha. destruct (m tr) as [r tr1] eqn:Em. cbn [fst] in Ha. subst r.
    exact (Hq tr a tr1 Em).
  - intros a l1 [-> Ha]. cbn [app]. apply Hk. now apply Ha.
  - intros e l1 [-> _]. apply He.
Qed.

Lemma post_any {A} (m : M A) : post (fun _ _ => True) m.
Proof. intros tr a tr' _. exact I. Qed.

Lemma delivers_skip {A B} (P : result B -> _ -> Prop) (m : M A) (k : A -> M B) :
  sends_at_most 0 m ->
  (forall a, delivers w P (k a)) ->
  (forall e, P (Raise e) []) ->
  delivers w P (bind m k).
Proof.
  intros Hs Hk He. apply (delivers_bind0 (fun _ => True)); auto using post_any.
Qed.

Lemma delivers_attempt {A} (P : result (result A) -> _ -> Prop) (m : M A) :
  delivers w (fun r l => P (Ok r) l) m -> delivers w P (attempt m).
Proof.
  intros H tr. unfold attempt. destruct (H tr) as (evs & E & p).
  destruct (m tr) as [r tr1]. now exists evs.
Qed.

Lemma delivers_try_except {A} (P1 P : result A -> _ -> Prop) (m : M A) h :
  delivers w P1 m ->
  (forall a l, P1 (Ok a) l -> P (Ok a) l) ->
  (forall e l1, P1 (Raise e) l1 -> delivers w (fun r l2 => P r (l1 ++ l2)) (h e)) ->
  delivers w P (try_except m h).
Proof.
  intros Hm Hok Hh tr. unfold try_except. destruct (Hm tr) as (e1 & E1 & p1).
  destruct (m tr) as [[a|e] tr1]; cbn [fst snd] in *; subst tr1.
  - exists e1. split; [reflexivity|]. now apply Hok.
  - destruct (Hh e _ p1 (tr ++ e1)) as (e2 & E2 & p2). exists (e1 ++ e2).
    rewrite E2, app_assoc, answered_app. now split.
Qed.

Lemma delivers_send t : delivers w (sent_once t) (send w t).
Proof.
  intros tr. exists [SendRawTransaction t]. split; [reflexivity|].
  unfold send, remote. cbn [fst answered]. rewrite app_nil_r.
  destruct (send_raw_transaction w tr t); reflexivity.
Qed.

Lemma delivers_send_attempts t n l : delivers w (sent_once t) (send_attempts w t n l).
Proof.
  induction l as [|i l IH]; cbn [send_attempts]; [now apply delivers_raise|].
  apply (delivers_bind (fun r acc => match r with
                                     | Ok s => sent_once t s acc
                                     | Raise _ => False end)).
  - apply delivers_attempt, delivers_send.
  - intros [h|e] l1 H1; cbn in H1; subst l1.
    + now apply delivers_ret.
    + cbn [app]. cbv zeta. destruct (has_nonce_too_low (exn_msg e)); [|now apply delivers_raise].
      destruct (i <? n - 1)%nat; [|now apply delivers_raise].
      apply delivers_skip; [quiet| intros _; exact IH | reflexivity].
  - intros e l1 [].
Qed.

Lemma delivers_sender t n : delivers w (sent_once t) (_send_transaction_with_retry w t n).
Proof. apply delivers_send_attempts. Qed.

(** The call bound for a swap is one of the two the caller offers. *)
Lemma bind_swap_value c mk :
  post (fun sf _ => exists ctr, fst sf = mk ctr) (bind_swap tm w c mk).
Proof.
  unfold bind_swap. apply post_bind. intros [u|e].
  - apply post_ret. intros _. now exists TradingContract.
  - destruct (router_contracts tm c); [|apply post_raise].
    apply post_bind. intros _. apply post_ret. intros _. now exists Router.
Qed.

Lemma rebind_swap_value rb mk :
  post (fun f _ => exists ctr, f = mk ctr) (rebind_swap w rb mk).
Proof.
  unfold rebind_swap. apply post_bind. intros [u|e].
  - apply post_ret. intros _. now exists TradingContract.
  - destruct rb; [|apply post_raise].
    apply post_bind. intros _. apply post_ret. intros _. now exists Router.
Qed.

Section Resubmission.
Variable mk : Z -> contract -> contract_call.
Hypothesis mk_swap : forall m ctr, is_swap_call (mk m ctr) = true.

(** The resubmission, common to buys and sells up to the sender. *)
Lemma delivers_resubmit (sender : tx -> M tx_hash) rb m' g value p n
    (P : result (result tx_hash) -> list (tx * tx_hash) -> Prop) :
  (forall t, delivers w (sent_once t) (sender t)) ->
  (forall t h, is_swap t = true -> P (Ok (Ok h)) [(t, h)]) ->
  (forall e, P (Ok (Raise e)) []) ->
  delivers w P
    (attempt (swap_function_retry <- rebind_swap w rb (mk m') ;;
              gas <- lift (int_scale g (Float64.lit 16 10)) ;;
              let transaction_retry :=
                {| tx_call := swap_function_retry; tx_value := value;
                   tx_gas := gas; tx_gasPrice := p; tx_nonce := n |} in
              _ <- build w transaction_retry ;;
              _ <- sign w transaction_retry ;;
              sender transaction_retry)).
Proof.
  intros Hsender Hok Hraise. apply delivers_attempt.
  apply (delivers_bind0 (fun f => exists ctr, f = mk m' ctr));
    [apply quiet_rebind | apply rebind_swap_value | | intros e; apply Hraise].
  intros f [ctr ->].
  apply delivers_skip; [quiet | | intros e; apply Hraise]. intros gas. cbv zeta.
  apply delivers_skip; [unfold build; quiet | | intros e; apply Hraise]. intros _.
  apply delivers_skip; [unfold sign; quiet | | intros e; apply Hraise]. intros _.
  eapply delivers_weaken; [apply Hsender|].
  intros [h|e] l Hl; cbn in Hl; subst l; [|apply Hraise].
  apply Hok. apply mk_swap.
Qed.

Lemma buy_submit_outcome sf rb wei m g p n :
  is_swap_call sf = true ->
  delivers w trade_outcome (buy_submit w mk sf rb wei m g p n).
Proof.
  intros Hsf. unfold buy_submit.
  apply (delivers_bind0 (fun b => forall t, b = Ok t -> tx_call t = sf));
    [unfold build; quiet | | | reflexivity].
  { intros tr b tr'. unfold attempt, bind, lift.
    destruct (int_scale g (Float64.lit 15 10)) as [gas|e]; cbn.
    - unfold build, remote. destruct (build_transaction w tr _); cbn;
        intros [= <- _] t [= <-]; reflexivity.
    - intros [= <- _] t [=]. }
  intros [t|e] Ht; [|now apply delivers_ret].
  specialize (Ht t eq_refl).
  apply delivers_skip; [unfold sign; quiet | | reflexivity]. intros _.
  apply (delivers_bind (fun r acc => match r with
                                     | Ok s => sent_once t s acc
                                     | Raise _ => False end)).
  - apply delivers_attempt, delivers_send.
  - intros [h|e] l1 H1; cbn in H1; subst l1.
    + apply delivers_ret. cbn. exists t. split; [reflexivity|].
      unfold is_swap. now rewrite Ht.
    + cbn [app]. cbv zeta. destruct (_ || _); [|now apply delivers_ret].
      apply delivers_skip; [quiet | | reflexivity]. intros m'.
      apply (delivers_bind (fun r acc => match r with
                                         | Ok (Ok h) => exists t, acc = [(t, h)] /\ is_swap t = true
                                         | Ok (Raise _) => acc = []
                                         | Raise _ => False end)).
      * apply (delivers_resubmit (send w)); [apply delivers_send | | reflexivity].
        intros t' h Ht'. now exists t'.
      * intros [h|e2] l1 H1; apply delivers_ret; cbn; rewrite app_nil_r; exact H1.
      * intros e2 l1 [].
  - intros e l1 [].
Qed.

Lemma sell_submit_outcome sf rb m g p n :
  is_swap_call sf = true ->
  delivers w trade_outcome (sell_submit w mk sf rb m g p n).
Proof.
  intros Hsf. unfold sell_submit.
  apply delivers_skip; [quiet | | reflexivity]. intros gas. cbv zeta.
  apply delivers_skip; [unfold build; quiet | | reflexivity]. intros _.
  apply delivers_skip; [unfold sign; quiet | | reflexivity]. intros _.
  match goal with |- context [_send_transaction_with_retry w ?x 3] => set (t := x) end.
  apply (delivers_bind (fun r acc => match r with
                                     | Ok s => sent_once t s acc
                                     | Raise _ => False end)).
  - apply delivers_attempt, delivers_sender.
  - intros [h|e] l1 H1; cbn in H1; subst l1.
    + apply delivers_ret. cbn. exists t. split; [reflexivity|]. exact Hsf.
    + cbn [app]. cbv zeta. destruct (_ || _); [|now apply delivers_ret].
      apply delivers_skip; [quiet | | reflexivity]. intros m'.
      apply (delivers_bind (fun r acc => match r with
                                         | Ok (Ok h) => exists t, acc = [(t, h)] /\ is_swap t = true
                                         | Ok (Raise _) => acc = []
                                         | Raise _ => False end)).
      * apply (delivers_resubmit (fun t => _send_transaction_with_retry w t 3));
          [intros t'; apply delivers_sender | | reflexivity].
        intros t' h Ht'. now exists t'.
      * intros [h|e2] l1 H1; apply delivers_ret; cbn; rewrite app_nil_r; exact H1.
      * intros e2 l1 [].
  - intros e l1 [].
Qed.

Lemma buy_execute_outcome c amount sf rb wei m :
  is_swap_call sf = true ->
  delivers w trade_outcome (buy_execute w c amount mk sf rb wei m).
Proof.
  intros Hsf. unfold buy_execute.
  apply (delivers_bind0 _ _ _ _ (quiet_estimation w 0 _ _ _ _ _ _ _)
           (estimation_fails w _ _ _ _ _ _ _)); [|reflexivity].
  intros [early|g] Hg; [apply delivers_ret; cbn; now rewrite (Hg early eq_refl)|].
  apply delivers_skip; [apply quiet_gas_price | | reflexivity]. intros p.
  apply delivers_skip; [apply quiet_nonce | | reflexivity]. intros n.
  now apply buy_submit_outcome.
Qed.

Lemma sell_execute_outcome c amount sf rb m :
  is_swap_call sf = true ->
  delivers w trade_outcome (sell_execute w c amount mk sf rb m).
Proof.
  intros Hsf. unfold sell_execute.
  apply (delivers_bind0 _ _ _ _ (quiet_estimation w 0 _ _ _ _ _ _ _)
           (estimation_fails w _ _ _ _ _ _ _)); [|reflexivity].
  intros [early|g] Hg; [apply delivers_ret; cbn; now rewrite (Hg early eq_refl)|].
  apply delivers_skip; [apply quiet_gas_price | | reflexivity]. intros p.
  apply delivers_skip; [apply quiet_nonce | | reflexivity]. intros n.
  now apply sell_submit_outcome.
Qed.
End Resubmission.

Lemma delivers_handlers (h : exn -> M TradeResult) :
  (forall e, sends_at_most 0 (h e)) ->
  (forall e, post (fun r _ => is_failure r) (h e)) ->
  forall e, delivers w (fun r l2 => trade_outcome r ([] ++ l2)) (h e).
Proof.
  intros Hq Hf e tr. destruct (Hq e tr) as (evs & E & C). exists evs. split; [exact E|].
  cbn [app]. rewrite answered_quiet by lia.
  destruct (h e tr) as [[r|e'] tr1] eqn:Eh; cbn [fst]; [|reflexivity].
  cbn. now rewrite (Hf e tr r tr1 Eh).
Qed.

Lemma buy_handlers_report_failure e : post (fun r _ => is_failure r) (buy_handlers e).
Proof.
  unfold buy_handlers. cbv zeta.
  destruct (exn_cls e); try (apply post_ret; reflexivity).
  destruct (_ && _); apply post_ret; reflexivity.
Qed.

Lemma sell_handlers_report_failure e : post (fun r _ => is_failure r) (sell_handlers e).
Proof.
  unfold sell_handlers. cbv zeta. destruct (exn_cls e); apply post_ret; reflexivity.
Qed.

(** X5.  A buy reports a hash exactly when the node took one swap,
    whose hash it is; when it reports a failure the node took no
    transaction at all. *)
Theorem buy_takes_one_swap_or_nothing c token amount user slippage :
  delivers w trade_outcome (buy_tokens tm w c token amount user slippage).
Proof.
  unfold buy_tokens.
  apply (delivers_try_except
           (fun r l => match r with Ok _ => trade_outcome r l | Raise _ => l = [] end)).
  2: { intros a l H. exact H. }
  2: { intros e l1 ->. apply delivers_handlers;
         [intros e'; apply quiet_buy_handlers | apply buy_handlers_report_failure]. }
  destruct (negb _); [now apply delivers_ret|]. cbv zeta.
  apply delivers_skip; [unfold web3_of; quiet | | reflexivity]. intros _.
  apply (delivers_bind0 _ _ _ _ (quiet_check w 0) (check_fails w)); [|reflexivity].
  intros [early|] Hc; [apply delivers_ret; cbn; now rewrite (Hc early eq_refl)|].
  destruct (negb _); [now apply delivers_ret|].
  destruct (Float64.leb _ _); [now apply delivers_ret|].
  apply delivers_skip; [apply quiet_price_estimate | | reflexivity].
  intros [q|]; [|now apply delivers_ret].
  do 2 (apply delivers_skip; [quiet | intros ? | reflexivity]).
  destruct (wrapped_native c); [|now apply delivers_ret].
  do 3 (apply delivers_skip; [unfold checksum; quiet | intros ? | reflexivity]).
  apply delivers_skip; [apply quiet_deadline | | reflexivity]. intros dl. cbv zeta.
  apply (delivers_bind0 _ _ _ _ (quiet_bind_swap tm w 0 _ _) (bind_swap_value _ _));
    [|reflexivity].
  intros sf [ctr Hsf].
  eapply delivers_weaken.
  - apply buy_execute_outcome; [intros; reflexivity | rewrite Hsf; reflexivity].
  - intros [r|e] l H; exact H.
Qed.
End Answered.

Section Sell.
Variable tm : TradingManager.
Variable w : World.

(** The approval step and the sends the node answered. *)
Lemma approval_takes_one_approve_or_nothing_aux c token user amount spender :
  delivers w (approval_outcome spender amount)
    (_ensure_token_approval_for_contract tm w c token user amount spender).
Proof.
  unfold _ensure_token_approval_for_contract.
  apply (delivers_try_except w
           (fun r l => match r with
                       | Ok _ => approval_outcome spender amount r l
                       | Raise _ => l = [] end)).
  2: { intros a l H. exact H. }
  2: { intros e l1 ->. now apply delivers_ret. }
  destruct (negb _); [now apply delivers_ret|].
  do 3 (apply delivers_skip; [unfold checksum; quiet | intros ? | reflexivity]).
  apply delivers_skip; [quiet | intros current_allowance | reflexivity].
  destruct (_ <=? _); [now apply delivers_ret|].
  apply delivers_skip; [unfold checksum; quiet | intros ? | reflexivity]. cbv zeta.
  apply delivers_skip; [quiet | intros ? | reflexivity].
  apply delivers_skip; [unfold checksum, simulate; quiet | intros g | reflexivity].
  apply delivers_skip; [quiet | intros p | reflexivity].
  apply delivers_skip; [apply quiet_nonce | intros nonce | reflexivity].
  apply delivers_skip; [unfold checksum; quiet | intros ? | reflexivity].
  apply delivers_skip; [quiet | intros gas | reflexivity].
  apply delivers_skip; [unfold build; quiet | intros ? | reflexivity].
  apply delivers_skip; [unfold sign; quiet | intros ? | reflexivity].
  match goal with |- context [send w ?x] => set (t := x) end.
  apply (delivers_bind w (sent_once t)); [apply delivers_send | |].
  - intros h l1 H1. cbn in H1. subst l1. apply delivers_ret. cbn.
    exists t. split; reflexivity.
  - intros e l1 H1. exact H1.
Qed.

Lemma sell_swap_outcome c token amount wei slippage dl :
  delivers w trade_outcome (sell_swap tm w c token amount wei slippage dl).
Proof.
  unfold sell_swap.
  apply delivers_skip; [apply quiet_sell_estimate | | reflexivity]. intros est.
  apply delivers_skip; [quiet | | reflexivity]. intros m. cbv zeta.
  apply (delivers_bind0 w _ _ _ _ (quiet_bind_swap tm w 0 _ _) (bind_swap_value tm w _ _));
    [|reflexivity].
  intros sf [ctr Hsf].
  apply sell_execute_outcome; [intros; reflexivity | rewrite Hsf; reflexivity].
Qed.

Lemma sell_after_approval c token amount wei slippage :
  delivers w trade_outcome
    (match wrapped_native c with
     | None => ret (Failure UnsupportedChain)
     | Some wbnb_address =>
         _ <- checksum w token ;;
         _ <- checksum w wbnb_address ;;
         deadline <- resolve_deadline w ;;
         sell_swap tm w c token amount wei slippage deadline
     end).
Proof.
  destruct (wrapped_native c); [|now apply delivers_ret].
  do 2 (apply delivers_skip; [unfold checksum; quiet | intros ? | reflexivity]).
  apply delivers_skip; [apply quiet_deadline | | reflexivity]. intros dl.
  apply sell_swap_outcome.
Qed.

Lemma sell_outcome_nil r : trade_outcome r [] -> sell_outcome r [].
Proof. intros H. exists [], []. auto. Qed.

(** X7.  A sell reports a hash exactly when the node took its swap,
    whose hash it is; before the swap the node took at most one
    [approve], and a failed sell leaves nothing else behind. *)
Theorem sell_takes_one_swap_after_at_most_one_approve c token amount user slippage :
  delivers w sell_outcome (sell_tokens tm w c token amount user slippage).
Proof.
  unfold sell_tokens.
  apply (delivers_try_except w sell_outcome).
  2: { intros a l H. exact H. }
  2: { intros e l1 (a & s & -> & Ha & Hs). cbn in Hs. subst s.
       intros tr. destruct (quiet_sell_handlers 0 e tr) as (evs & E & C).
       exists evs. split; [exact E|]. rewrite (answered_quiet w) by lia.
       exists a, []. split; [now rewrite !app_nil_r|]. split; [exact Ha|].
       destruct (sell_handlers e tr) as [[r|e'] tr1] eqn:Eh; cbn [fst]; [|reflexivity].
       cbn. now rewrite (sell_handlers_report_failure e tr r tr1 Eh). }
  assert (Hr : forall e, sell_outcome (Raise e) []).
  { intros e. now apply sell_outcome_nil. }
  destruct (negb _); [now apply delivers_ret, sell_outcome_nil|]. cbv zeta.
  apply delivers_skip; [unfold web3_of; quiet | | exact Hr]. intros _.
  apply (delivers_bind0 w _ _ _ _ (quiet_check w 0) (check_fails w)); [|exact Hr].
  intros [early|] Hc.
  { apply delivers_ret, sell_outcome_nil. cbn. now rewrite (Hc early eq_refl). }
  destruct (negb _); [now apply delivers_ret, sell_outcome_nil|].
  destruct (Float64.leb _ _); [now apply delivers_ret, sell_outcome_nil|].
  apply delivers_skip; [unfold checksum; quiet | intros d | exact Hr].
  apply delivers_skip; [quiet | intros wei | exact Hr].
  apply delivers_skip; [apply quiet_balance | intros bal | exact Hr].
  destruct (Float64.ltb _ _); [now apply delivers_ret, sell_outcome_nil|].
  destruct (trading_contract_address c) as [sp|];
    [|now apply delivers_ret, sell_outcome_nil].
  apply (delivers_bind w (approval_outcome sp wei));
    [apply approval_takes_one_approve_or_nothing_aux | |].
  - intros [|h|e] l1 H1; cbn in H1.
    + subst l1. cbn [app]. eapply delivers_weaken; [apply sell_after_approval|].
      intros r l H. exists [], l. auto.
    + destruct H1 as (t & -> & Ht).
      eapply delivers_weaken; [apply sell_after_approval|].
      intros r l H. exists [(t, h)], l. split; [reflexivity|]. split; [|exact H].
      right. exists t, h. split; [reflexivity|]. unfold is_swap, is_swap_call.
      now rewrite Ht.
    + subst l1. now apply delivers_ret, sell_outcome_nil.
  - intros e l1 H1. cbn in H1. subst l1. apply Hr.
Qed.
End Sell.

Section Final.
Variable tm : TradingManager.
Variable w : World.

(** X6.  The approval step reports a hash exactly when the node took
    its one [approve] transaction, for the spender and the amount asked;
    otherwise the node took nothing. *)
Theorem approval_takes_one_approve_or_nothing c token user amount spender :
  delivers w (approval_outcome spender amount)
    (_ensure_token_approval_for_contract tm w c token user amount spender).
Proof. apply approval_takes_one_approve_or_nothing_aux. Qed.

(** X4.  The sender makes at most [max_retries] sends, returns a hash
    exactly when the node took the transaction, and took it once; with
    no attempt allowed it raises without a call. *)
Theorem sender_sends_until_taken t n :
  sends_at_most n (_send_transaction_with_retry w t n)
  /\ delivers w (sent_once t) (_send_transaction_with_retry w t n)
  /\ (forall tr, exists e, _send_transaction_with_retry w t 0 tr = (Raise e, tr)).
Proof.
  split; [apply sends_sender|]. split; [apply delivers_sender|].
  intros tr. eexists. reflexivity.
Qed.
End Final.

(* ================================================================== *)
(** * The origin of a buy's minimum                                  *)
(* ================================================================== *)

Lemma post_bind_lift {A B} (P : B -> trace -> Prop) (a : A) (k : A -> M B) :
  post P (k a) -> post P (bind (lift (Ok a)) k).
Proof. intros H tr b tr'. unfold bind, lift. apply H. Qed.

Ltac failed := apply post_ret; intros _ ? ? ? [=].

Section Origin.
Variable tm : TradingManager.
Variable w : World.

(** An estimate comes from the pool, or it is the substitute built
    after a checksum conversion failed. *)
Lemma price_estimate_origin c token amount :
  web3_instances tm c = true ->
  post (fun pe _ =>
          forall q, pe = Some q ->
            (is_fallback q = false /\ pool_quote w amount (token_amount_wei q))
            \/ (is_fallback q = true
                /\ exists wbnb e, wrapped_native c = Some wbnb
                     /\ (to_checksum_address w wbnb = Raise e
                         \/ to_checksum_address w token = Raise e)))
       (get_token_price_estimate tm w c token amount).
Proof.
  intros Hw3 tr pe tr'.
  unfold get_token_price_estimate, _get_fallback_price_estimate, web3_of, checksum.
  rewrite Hw3. cbn [negb].
  unfold try_except, bind, lift, ret, attempt, remote.
  destruct (router_contracts tm c); cbn [negb]; [|intros [= <- _] q [=]].
  destruct (to_wei w amount) as [wei|e0] eqn:Hwei.
  2: { intros [= <- _] q [=]. }
  destruct (wrapped_native c) as [wbnb|] eqn:Hwn; [|intros [= <- _] q [=]].
  destruct (to_checksum_address w wbnb) as [a1|e1] eqn:H1.
  2: { destruct (to_wei w (Float64.mul amount (Float64.of_Z 1000)));
         intros [= <- _] q [= <-]; right; split; [reflexivity|]; exists wbnb, e1; auto. }
  destruct (to_checksum_address w token) as [a2|e2] eqn:H2.
  2: { destruct (to_wei w (Float64.mul amount (Float64.of_Z 1000)));
         intros [= <- _] q [= <-]; right; split; [reflexivity|]; exists wbnb, e2; auto. }
  destruct (negb (is_address w wbnb)); [intros [= <- _] q [=]|].
  destruct (negb (is_address w token)); [intros [= <- _] q [=]|].
  destruct (getAmountsOut w tr Buy wei) as [amounts|e3] eqn:Hq; [|intros [= <- _] q [=]].
  destruct (2 <=? List.length amounts)%nat eqn:Hlen; [|intros [= <- _] q [=]].
  apply Nat.leb_le in Hlen.
  cbv beta iota. intros [= <- _] q [= <-]. left. split; [reflexivity|].
  exists tr, wei, amounts; cbn; auto.
Qed.

Lemma buy_submit_minimum mk sf rb wei m g p n :
  post (fun r _ => forall h m' g', r = BuySuccess h m' g' -> m' = m)
       (buy_submit w mk sf rb wei m g p n).
Proof.
  unfold buy_submit.
  apply post_bind. intros [t|e]; [|apply post_ret; intros _ h m' g' [=]].
  apply post_bind. intros _.
  apply post_bind. intros [h|e]; [apply post_ret; intros _ h' m' g' [= _ <- _]; reflexivity|].
  cbv zeta. destruct (_ || _); [|apply post_ret; intros _ h m' g' [=]].
  apply post_bind. intros m2.
  apply post_bind. intros [h|e2]; apply post_ret; intros _ h' m' g' [=]; auto.
Qed.

Lemma buy_execute_minimum c amount mk sf rb wei m :
  post (fun r _ => forall h m' g', r = BuySuccess h m' g' -> m' = m)
       (buy_execute w c amount mk sf rb wei m).
Proof.
  unfold buy_execute.
  apply (post_bind_val _ _ _ _ (estimation_fails w _ _ _ _ _ _ _)).
  intros [early|g] Hg.
  - apply post_ret. intros _ h m' g' ->. specialize (Hg _ eq_refl). discriminate.
  - do 2 (apply post_bind; intros ?). apply buy_submit_minimum.
Qed.

(** What a successful buy tells: the client of the chain is there, no
    checksum conversion of the trade fails, and the reported minimum is
    the guard's value for a quote of the pool. *)
Lemma buy_success_conditions c token amount user slippage :
  post (fun r _ =>
          forall h m g, r = BuySuccess h m g ->
            web3_instances tm c = true
            /\ (forall wbnb, wrapped_native c = Some wbnb ->
                  is_ok (to_checksum_address w wbnb) = true
                  /\ is_ok (to_checksum_address w token) = true)
            /\ exists out,
                 pool_quote w amount out
                 /\ min_output out
                      (match slippage with Some s => s | None => default_slippage c end)
                    = Ok m)
       (buy_tokens tm w c token amount user slippage).
Proof.
  unfold buy_tokens. apply post_try_except.
  2: { intros e. unfold buy_handlers. cbv zeta.
       destruct (exn_cls e); try failed. destruct (_ && _); failed. }
  destruct (negb _); [failed|]. cbv zeta.
  set (s := match slippage with Some s => s | None => default_slippage c end).
  unfold web3_of. destruct (web3_instances tm c) eqn:Hw3.
  2: { apply post_bind_raise. }
  apply post_bind. intros _.
  apply (post_bind_val _ _ _ _ (check_fails w)).
  intros [early|] Hc.
  { apply post_ret. intros _ h0 m0 g0 ->. specialize (Hc _ eq_refl). discriminate. }
  destruct (negb _); [failed|].
  destruct (Float64.leb _ _); [failed|].
  apply (post_bind_val _ _ _ _ (price_estimate_origin c token amount Hw3)).
  intros [q|] Hq; [|failed].
  destruct (min_output (token_amount_wei q) s) as [m0|e] eqn:Hm0; [|apply post_bind_raise].
  apply post_bind_lift.
  apply post_bind. intros wei.
  destruct (wrapped_native c) as [wbnb|] eqn:Hwn; [|failed].
  unfold checksum.
  destruct (to_checksum_address w wbnb) as [a1|e1] eqn:H1; [|apply post_bind_raise].
  apply post_bind_lift.
  destruct (to_checksum_address w token) as [a2|e2] eqn:H2; [|apply post_bind_raise].
  apply post_bind_lift.
  destruct (Hq q eq_refl) as [[_ Hpool]|(_ & wbnb' & e & [= <-] & [Hr|Hr])];
    [|congruence|congruence].
  do 2 (apply post_bind; intros ?). cbv zeta.
  apply post_bind. intros sf.
  intros tr0 r tr1 Hrun h0 m1 g0 ->.
  pose proof (buy_execute_minimum _ _ _ _ _ _ _ tr0 _ tr1 Hrun _ _ _ eq_refl) as ->.
  split; [reflexivity|]. split.
  - intros wbnb' [= <-]. now rewrite H1.
  - exists (token_amount_wei q). split; [exact Hpool | exact Hm0].
Qed.

(** X8.  A buy that reports a hash traded on a quote of the pool: the
    minimum it reports is the guard's value for the second amount of a
    [getAmountsOut] answer, and in its world no estimate is the
    substitute of 1000 tokens per coin: the checksum failure that
    makes the estimate fall back makes the buy fail. *)
Theorem buy_success_uses_the_pool_quote c token amount user slippage tr h m g tr' :
  buy_tokens tm w c token amount user slippage tr = (Ok (BuySuccess h m g), tr') ->
  (exists out,
      pool_quote w amount out
      /\ min_output out (match slippage with Some s => s | None => default_slippage c end)
         = Ok m)
  /\ (forall tr0 q tr1,
        get_token_price_estimate tm w c token amount tr0 = (Ok (Some q), tr1) ->
        is_fallback q = false).
Proof.
  intros H.
  destruct (buy_success_conditions c token amount user slippage tr _ tr' H h m g eq_refl)
    as (Hw3 & Hsum & Hout).
  split; [exact Hout|].
  intros tr0 q tr1 Hq.
  destruct (price_estimate_origin c token amount Hw3 tr0 _ tr1 Hq q eq_refl)
    as [[Hf _]|(_ & wbnb & e & Hwn & Hr)]; [exact Hf|].
  destruct (Hsum wbnb Hwn) as [H1 H2].
  destruct Hr as [Hr|Hr]; [rewrite Hr in H1 | rewrite Hr in H2]; discriminate.
Qed.
End Origin.


(* ================================================================== *)
(** * Failure signatures and letter case                              *)
(* ================================================================== *)

Lemma upper_ascii_idem c : upper_ascii (upper_ascii c) = upper_ascii c.
Proof. destruct c as [[] [] [] [] [] [] [] []]; reflexivity. Qed.

Lemma upper_lower_ascii c : upper_ascii (lower_ascii c) = upper_ascii c.
Proof. destruct c as [[] [] [] [] [] [] [] []]; reflexivity. Qed.

Lemma lower_ascii_idem c : lower_ascii (lower_ascii c) = lower_ascii c.
Proof. destruct c as [[] [] [] [] [] [] [] []]; reflexivity. Qed.

Lemma lower_upper_ascii c : lower_ascii (upper_ascii c) = lower_ascii c.
Proof. destruct c as [[] [] [] [] [] [] [] []]; reflexivity. Qed.

Lemma lower_ascii_not_P c : lower_ascii c <> "P"%char.
Proof. destruct c as [[] [] [] [] [] [] [] []]; discriminate. Qed.

(** On an ASCII byte the case mappings of strings are those of the
    byte, and give an ASCII byte. *)
Lemma ascii_byte_step c t :
  is_ascii_byte c = true ->
  upper (String c t) = String (upper_ascii c) (upper t)
  /\ lower (String c t) = String (lower_ascii c) (lower t)
  /\ is_ascii_byte (upper_ascii c) = true
  /\ is_ascii_byte (lower_ascii c) = true.
Proof.
  intros H.
  destruct c as [[] [] [] [] [] [] [] []];
    try (vm_compute in H; discriminate H); repeat split.
Qed.

Lemma ascii_case s :
  is_ascii s = true ->
  is_ascii (upper s) = true /\ is_ascii (lower s) = true
  /\ upper (upper s) = upper s /\ upper (lower s) = upper s
  /\ lower (lower s) = lower s /\ lower (upper s) = lower s.
Proof.
  induction s as [|c t IH]; [intros _; repeat split|].
  cbn [is_ascii]. intros H. apply andb_true_iff in H. destruct H as [Hc Ht].
  destruct (IH Ht) as (I1 & I2 & I3 & I4 & I5 & I6).
  destruct (ascii_byte_step c t Hc) as (U & L & Uc & Lc).
  rewrite U, L.
  destruct (ascii_byte_step (upper_ascii c) (upper t) Uc) as (UU & LU & _).
  destruct (ascii_byte_step (lower_ascii c) (lower t) Lc) as (UL & LL & _).
  rewrite UU, LU, UL, LL. cbn [is_ascii]. rewrite Uc, Lc, I1, I2, I3, I4, I5, I6.
  rewrite upper_ascii_idem, upper_lower_ascii, lower_ascii_idem, lower_upper_ascii.
  repeat split.
Qed.

Lemma lower_ascii_no_panic s :
  is_ascii s = true -> contains "Panic error 0x11" (lower s) = false.
Proof.
  induction s as [|c t IH]; [reflexivity|].
  cbn [is_ascii]. intros H. apply andb_true_iff in H. destruct H as [Hc Ht].
  destruct (ascii_byte_step c t Hc) as (_ & L & _). rewrite L.
  cbn [contains]. rewrite (IH Ht).
  cbn [prefix]. destruct (ascii_dec "P" (lower_ascii c)) as [E|E]; [|reflexivity].
  symmetry in E. now apply lower_ascii_not_P in E.
Qed.

(** X18.  On an ASCII message the pool-invariant, insufficient-output
    and stale-nonce signatures are recognised whatever the letter case
    (upper- or lower-casing the message does not change the tests),
    while the arithmetic-panic signature is matched as written, so that
    a lower-cased message never carries it.  Beyond ASCII the case
    mapping can bring a signature about: the Kelvin sign becomes [k] in
    lower case, and U+0149 becomes an apostrophe and [N] in upper
    case. *)
Theorem signatures_ignore_case :
  (forall msg, is_ascii msg = true ->
     has_K (upper msg) = has_K msg /\ has_K (lower msg) = has_K msg
     /\ has_insufficient_output (upper msg) = has_insufficient_output msg
     /\ has_insufficient_output (lower msg) = has_insufficient_output msg
     /\ has_nonce_too_low (upper msg) = has_nonce_too_low msg
     /\ has_nonce_too_low (lower msg) = has_nonce_too_low msg
     /\ has_panic (lower msg) = false)
  /\ (has_K (lower kelvin_message) = true /\ has_K kelvin_message = false)
  /\ (has_nonce_too_low (upper apostrophe_n_message) = true
      /\ has_nonce_too_low apostrophe_n_message = false).
Proof.
  split; [|split; split; vm_compute; reflexivity].
  intros msg Ha.
  destruct (ascii_case msg Ha) as (_ & _ & I3 & I4 & I5 & I6).
  unfold has_K, has_insufficient_output, has_nonce_too_low, has_panic.
  rewrite I3, I4, I5, I6. repeat split.
  now apply lower_ascii_no_panic.
Qed.

(* ================================================================== *)
(** * Further runs on stub clients                                   *)
(* ================================================================== *)

Lemma unsupported_chain_makes_no_call_run :
  buy_tokens all_chains calm_world OtherChain token tenth wallet None []
  = (Ok (Failure ChainNotSupported), [])
  /\ _get_token_balance all_chains calm_world OtherChain token wallet []
     = (Ok Float64.zero, []).
Proof.
  pose proof (unsupported_chain_makes_no_call all_chains calm_world OtherChain token tenth
                wallet None 0 spender [] eq_refl eq_refl eq_refl) as H.
  split; [exact (proj1 H) | exact (proj2 (proj2 (proj2 (proj2 (proj2 H)))))].
Defined.

Lemma insufficient_output_ends_the_trade_run :
  buy_execute strict_world BSC tenth buy_call (buy_call 995 TradingContract) false
    (10 ^ 17) 995 []
  = (Ok (Failure InsufficientOutput),
     [EstimateGas (buy_call 995 TradingContract) (10 ^ 17)]).
Proof.
  exact (proj1 (insufficient_output_ends_the_trade strict_world BSC tenth (10 ^ 17) 995
                  buy_call (buy_call 995 TradingContract) false []
                  insufficient_output_revert eq_refl eq_refl eq_refl)).
Defined.

Lemma estimation_only_sets_the_gas_limit_run :
  let w := k_once_world 1000 in
  let sf := buy_call 995 TradingContract in
  let t := {| tx_call := sf; tx_value := 10 ^ 17; tx_gas := 450000;
              tx_gasPrice := 150; tx_nonce := 7 |} in
  simulated (snd (estimate_gas_with_retries w Buy tenth (10 ^ 17) 995 buy_call sf false []))
  = [sf; buy_call 696 TradingContract]
  /\ exists pre rest,
      snd (buy_execute w BSC tenth buy_call sf false (10 ^ 17) 995 [])
      = pre ++ [BuildTransaction t; SignTransaction t; SendRawTransaction t] ++ rest.
Proof.
  intros w sf t. split; [vm_compute; reflexivity|].
  set (r1 := estimate_gas_with_retries w Buy tenth (10 ^ 17) 995 buy_call sf false []).
  set (r2 := resolve_gas_price w BSC (snd r1)).
  set (r3 := resolve_nonce w (snd r2)).
  destruct (estimation_only_sets_the_gas_limit w BSC tenth buy_call sf false (10 ^ 17) 995
              [] 300000 (snd r1) 150 (snd r2) 7 (snd r3) 450000)
    as [_ [rest Hrest]]; try (vm_compute; reflexivity).
  exists (snd r3), rest. exact Hrest.
Defined.

Lemma slippage_setting_roundtrip_run :
  let r := handle_set_slippage deaf_telegram no_slippage 1 (SlippageText (Some five)) in
  get_user_slippage (store r) 1 = five
  /\ outbox r = [SlippageUpdated five; SlippageError "timeout"]
  /\ store (handle_set_slippage calm_telegram no_slippage 1
              (SlippageText (Some (Float64.of_Z 60)))) = no_slippage.
Proof.
  cbv zeta.
  pose proof (slippage_setting_roundtrip deaf_telegram no_slippage 1
                (SlippageText (Some five))) as H. cbv zeta in H.
  destruct H as (H1 & _ & _ & _ & H5).
  pose proof (slippage_setting_roundtrip calm_telegram no_slippage 1
                (SlippageText (Some (Float64.of_Z 60)))) as H'. cbv zeta in H'.
  destruct H' as (_ & H2 & _).
  split; [|split].
  - apply H1. left. reflexivity.
  - exact (proj1 (proj2 (H5 five "timeout" eq_refl eq_refl eq_refl eq_refl))).
  - apply H2. intros v [H|[]]. discriminate.
Defined.

Lemma accepted_slippage_is_guarded_run :
  exists m,
    min_output (2 ^ 60 + 7)
      (get_user_slippage
         (store (handle_set_slippage calm_telegram no_slippage 1
                   (SlippageText (Some five)))) 1)
    = Ok m /\ 0 < m <= 2 ^ 60 + 7.
Proof.
  exact (proj2 (accepted_slippage_is_guarded calm_telegram no_slippage 1 five (2 ^ 60 + 7)
                  eq_refl eq_refl ltac:(split; [lia | reflexivity])
                  (or_introl eq_refl))).
Defined.

Lemma slippage_guard_endpoints_run :
  min_output 1000 Float64.zero = Ok 1000
  /\ min_output 1000 Float64.hundred = int_scale 1000 (Float64.lit 95 100).
Proof.
  destruct (slippage_guard_endpoints 1000 ltac:(split; [lia | reflexivity]))
    as (_ & H0 & H100).
  split; [exact (H0 eq_refl) | exact H100].
Defined.

Lemma disconnected_chain_never_trades_run :
  is_connected (offline BSC) BSC <> Some true
  /\ buy_tokens (_initialize_contracts (offline BSC)) calm_world BSC token tenth wallet None []
     = (Ok (Failure ChainNotSupported), []).
Proof.
  split; [discriminate|].
  apply (disconnected_chain_never_trades (offline BSC) calm_world BSC token tenth wallet None []).
  discriminate.
Defined.

Lemma buy_success_uses_the_pool_quote_run :
  buy_tokens all_chains calm_world BSC token tenth wallet None []
  = (Ok (BuySuccess 4242 995 150000),
     snd (buy_tokens all_chains calm_world BSC token tenth wallet None []))
  /\ exists out, pool_quote calm_world tenth out
                 /\ min_output out (default_slippage BSC) = Ok 995.
Proof.
  assert (H : buy_tokens all_chains calm_world BSC token tenth wallet None []
              = (Ok (BuySuccess 4242 995 150000),
                 snd (buy_tokens all_chains calm_world BSC token tenth wallet None [])))
    by (vm_compute; reflexivity).
  split; [exact H|].
  exact (proj1 (buy_success_uses_the_pool_quote all_chains calm_world BSC token tenth
                  wallet None [] 4242 995 150000 _ H)).
Defined.

(** A buy whose two sends are rejected on the pool invariant, and a
    sell whose rebuilt transaction is taken at its second send, after a
    "nonce too low". *)
Lemma send_time_rejection_run :
  buy_submit moving_pool_world buy_call (buy_call 995 TradingContract) false (10 ^ 17)
    995 150000 150 7 []
  = (Ok (Failure (RetryFailed UniswapV2_K (exn_msg pool_invariant_revert))),
     [BuildTransaction (buy_tx 995 225000); SignTransaction (buy_tx 995 225000);
      SendRawTransaction (buy_tx 995 225000);
      BuildTransaction (buy_tx 796 240000); SignTransaction (buy_tx 796 240000);
      SendRawTransaction (buy_tx 796 240000)])
  /\ exists evs,
      sell_submit retry_world sell_call (sell_call 995 TradingContract) false
        995 150000 150 7 []
      = (Ok (SellSuccess 4242 150000),
         [BuildTransaction (sell_tx 995 180000); SignTransaction (sell_tx 995 180000);
          SendRawTransaction (sell_tx 995 180000);
          BuildTransaction (sell_tx 796 240000); SignTransaction (sell_tx 796 240000)]
         ++ evs)
      /\ count_sends evs = 2%nat.
Proof.
  split.
  - exact (proj1 (send_time_rejection_resubmits_rebuilt_swap moving_pool_world
                    buy_call (buy_call 995 TradingContract) false 995 150000 150 7 [])
             (10 ^ 17) 225000 pool_invariant_revert 796 (buy_call 796 TradingContract)
             240000 eq_refl eq_refl eq_refl eq_refl eq_refl eq_refl
             (or_introl (conj eq_refl eq_refl)) eq_refl eq_refl eq_refl).
  - destruct (proj2 (send_time_rejection_resubmits_rebuilt_swap retry_world
                       sell_call (sell_call 995 TradingContract) false 995 150000 150 7 [])
                180000 pool_invariant_revert
                [BuildTransaction (sell_tx 995 180000); SignTransaction (sell_tx 995 180000);
                 SendRawTransaction (sell_tx 995 180000)]
                796 (sell_call 796 TradingContract) 240000
                eq_refl eq_refl eq_refl eq_refl eq_refl eq_refl
                (or_introl (conj eq_refl eq_refl)) eq_refl eq_refl eq_refl)
      as (evs1 & evs2 & res & _ & _ & _ & Hrun & Hre & _ & Hres).
    exists evs2.
    assert (Hc : fst (sell_submit retry_world sell_call (sell_call 995 TradingContract)
                        false 995 150000 150 7 []) = Ok (SellSuccess 4242 150000)
                 /\ count_sends (snd (sell_submit retry_world sell_call
                                       (sell_call 995 TradingContract) false
                                       995 150000 150 7 [])) = 3%nat)
      by (vm_compute; split; reflexivity).
    rewrite Hrun in Hc. cbn [fst snd] in Hc. destruct Hc as [[= ->] Hn].
    split; [exact Hrun|].
    rewrite count_sends_app in Hn. cbn in Hn. lia.
Defined.

(** On a sell the rebuilt transaction is sent three times: after an
    approval and three sends of the swap, the last rejected on the pool
    invariant, the minimum of 99500000000000000 is scaled to
    79600000000000000 and sent at each "nonce too low". *)
Lemma rebuilt_sell_is_sent_three_times :
  let run := sell_tokens all_chains worst_sell_world BSC token five wallet None [] in
  map (fun t => amount_out_min (tx_call t)) (sent (snd run))
  = [None; Some 99500000000000000; Some 99500000000000000; Some 99500000000000000;
     Some 79600000000000000; Some 79600000000000000; Some 79600000000000000]
  /\ exists msg, fst run = Ok (Failure (RetryFailed UniswapV2_K msg)).
Proof. vm_compute. split; [reflexivity | eexists; reflexivity]. Qed.
